(** * WebReactiveVJ: audio feature extraction, beat tracking and palette
    scheduling of [src/web/app.js]

    The development embeds [AudioAnalyser], [PaletteController], the three
    trackers and the ring bookkeeping of [CoolMonoScene] as pure
    functions with explicit state passing and proves the properties of the
    design document about them.

    Numbers.  JavaScript numbers are IEEE-754 doubles.  They are modelled by
    the real numbers of the Standard Library: every arithmetic operation is
    the exact one, [Infinity] is the [None] of an [option R], and no [NaN]
    is modelled.  All statements below are therefore statements about the
    exact-arithmetic reading of the code; rounding errors are outside the
    model.  The frequency buffer is a [Uint8Array] and is modelled as a list
    of bytes; the time-domain buffer is a [Float32Array] filled by the
    analyser node and is modelled as a list of reals.  Where the code itself
    writes a number into a [Float32Array] ([prevSpectrum], [frequencies]) the
    element keeps the nearest binary32 number: [Math_fround].
    [performance.now()] is an input of each tick. *)

From Stdlib Require Import Reals Lra Lia List ZArith Bool.
From Stdlib Require Import Strings.Byte.
From Stdlib Require Strings.String DecimalString DecimalNat.
Import ListNotations.
Open Scope R_scope.

(** ** Comparisons and the [Math] functions used by the code *)

Definition Rgtb (x y : R) : bool := if Rlt_dec y x then true else false.
Definition Rltb (x y : R) : bool := if Rlt_dec x y then true else false.
Definition Rgeb (x y : R) : bool := if Rle_dec y x then true else false.
Definition Reqb (x y : R) : bool := if Req_dec_T x y then true else false.

(** [Math.pow(x, y)] for the arguments the code passes: a base [x >= 0] and a
    constant exponent [y > 0].  [Math.pow(0, y)] is [0]; for [x > 0] it is
    [exp (y * ln x)]. *)
Definition Math_pow (x y : R) : R :=
  if Req_dec_T x 0 then 0 else Rpower x y.

(** [Math.round]: the nearest integer, halves rounded up. *)
Definition Math_round (x : R) : R := IZR (Zfloor (x + 0.5)).

(** The nearest integer, ties to the even one. *)
Definition Znearest_even (r : R) : Z :=
  let f := Zfloor r in
  let d := r - IZR f in
  if Rlt_dec d (1 / 2) then f
  else if Rlt_dec (1 / 2) d then (f + 1)%Z
  else if Z.even f then f else (f + 1)%Z.

(** The binary32 exponent of a number: that of its binade, and -126 for
    the subnormal numbers. *)
Definition binary32_exponent (x : R) : Z :=
  Z.max (-126) (Zfloor (ln (Rabs x) / ln 2)).

(** [Math.fround], the conversion a store into a [Float32Array] element
    applies: the nearest number with a 24-bit significand at the exponent
    of [x], ties to even.  The overflow to [Infinity] beyond the binary32
    range is not modelled; the code stores numbers of [[0,1]] only. *)
Definition Math_fround (x : R) : R :=
  if Req_dec_T x 0 then 0
  else
    let ulp := powerRZ 2 (binary32_exponent x - 23) in
    IZR (Znearest_even (x / ulp)) * ulp.

(** [Math.floor] of a nonnegative quantity used as an array bound. *)
Definition Math_floor (x : R) : nat := Z.to_nat (Zfloor x).

Definition lerp (a b t : R) : R := a + (b - a) * t.

Definition clamp (value min max : R) : R := Rmax min (Rmin max value).

(** [arr.push(x); if (arr.length > cap) arr.shift();] *)
Definition push_shift (cap : nat) (arr : list R) (x : R) : list R :=
  let arr' := arr ++ [x] in
  if (cap <? length arr')%nat then tl arr' else arr'.

(** [arr.reduce((a, b) => a + b, 0)] and the summing loops. *)
Definition sum_list (arr : list R) : R := fold_left Rplus arr 0.

(** ** CONFIG *)

Module CONFIG.
Definition fftSize : nat := 2048.
Definition barCount : nat := 96.
Definition levelScale : R := 320.
Definition levelExponent : R := 0.56.
Definition bandGain : R := 20.
Definition bandExponent : R := 0.7.
Definition fluxHistorySize : nat := 128.
Definition fluxWindow : nat := 24.
Definition fluxMinWindow : nat := 12.
Definition fluxSensitivity : R := 1.65.
Definition fluxExponent : R := 1.18.
Definition fluxDeltaFloor : R := 0.006.
Definition fluxPulseGain : R := 2.6.
Definition beatDeltaGain : R := 5.4.
Definition beatMinIntervalMs : R := 200.
Definition beatMaxIntervalMs : R := 1400.
Definition beatLevelFloor : R := 0.16.
Definition beatEnergyFloor : R := 0.18.
Definition beatSilenceResetMs : R := 2600.
Definition bpmSmoothing : R := 0.28.
Definition bpmWindow : nat := 12.
Definition paletteMinHoldMs : R := 2000.
Definition paletteBeatsPerCycle : nat := 8.
Definition paletteQuietIntensity : R := 0.12.
Definition paletteQuietResetMs : R := 5200.
Definition paletteBeatPulseGate : R := 0.6.
Definition motionSmoothing : R := 0.82.
Definition fingerTrailLength : nat := 220.
Definition blinkCooldownMs : R := 1200.
End CONFIG.

(** [analyser.frequencyBinCount] is half of [fftSize]. *)
Definition frequencyBinCount : nat := Nat.div2 CONFIG.fftSize.

(** ** The frame the analyser node writes each tick *)

Record Frame : Type := mkFrame {
  timeData : list R;     (* getFloatTimeDomainData *)
  freqData : list byte   (* getByteFrequencyData *)
}.

(** One tick of input: the two buffers and the reading of
    [performance.now()] taken inside [update]. *)
Record Tick : Type := mkTick {
  frame : Frame;
  clock : R
}.

(** The value of a byte as a number. *)
Definition byte_val (b : byte) : R := IZR (Z.of_N (Byte.to_N b)).

Record BandEnergy : Type := mkBandEnergy {
  low : R;
  mid : R;
  high : R
}.

(** The object [update] returns. *)
Module Snapshot.
Record t : Type := mk {
  rms : R;
  rmsAverage : R;
  level : R;
  beatPulse : R;
  brightness : R;
  bpm : R;
  beatDetected : bool;
  bandEnergy : BandEnergy;
  frequencies : list R
}.
End Snapshot.

(** ** AudioAnalyser *)

Module AudioAnalyser.

(** The fields of the object.  [analyser] records whether [this.analyser] is
    non-null; [freqData] and [timeData] are the buffers of [Frame]. *)
Record State : Type := mkState {
  analyser : bool;
  rms : R;
  rmsAverage : R;
  level : R;
  levelAverage : R;
  beatPulse : R;
  brightness : R;
  lastBeatTime : R;
  beatIntervals : list R;
  bpm : R;
  bandEnergy : BandEnergy;
  prevSpectrum : option (list R);
  fluxHistory : list R;
  prevFlux : R;
  lastAudioActive : R;
  beatDetected : bool
}.

Definition set_analyser (v : bool) (s : State) : State :=
  {| analyser := v; rms := rms s; rmsAverage := rmsAverage s;
    level := level s; levelAverage := levelAverage s;
    beatPulse := beatPulse s; brightness := brightness s;
    lastBeatTime := lastBeatTime s; beatIntervals := beatIntervals s;
    bpm := bpm s; bandEnergy := bandEnergy s; prevSpectrum := prevSpectrum s;
    fluxHistory := fluxHistory s; prevFlux := prevFlux s;
    lastAudioActive := lastAudioActive s; beatDetected := beatDetected s |}.

Definition set_rms (v : R) (s : State) : State :=
  {| analyser := analyser s; rms := v; rmsAverage := rmsAverage s;
    level := level s; levelAverage := levelAverage s;
    beatPulse := beatPulse s; brightness := brightness s;
    lastBeatTime := lastBeatTime s; beatIntervals := beatIntervals s;
    bpm := bpm s; bandEnergy := bandEnergy s; prevSpectrum := prevSpectrum s;
    fluxHistory := fluxHistory s; prevFlux := prevFlux s;
    lastAudioActive := lastAudioActive s; beatDetected := beatDetected s |}.

Definition set_rmsAverage (v : R) (s : State) : State :=
  {| analyser := analyser s; rms := rms s; rmsAverage := v; level := level s;
    levelAverage := levelAverage s; beatPulse := beatPulse s;
    brightness := brightness s; lastBeatTime := lastBeatTime s;
    beatIntervals := beatIntervals s; bpm := bpm s;
    bandEnergy := bandEnergy s; prevSpectrum := prevSpectrum s;
    fluxHistory := fluxHistory s; prevFlux := prevFlux s;
    lastAudioActive := lastAudioActive s; beatDetected := beatDetected s |}.

Definition set_level (v : R) (s : State) : State :=
  {| analyser := analyser s; rms := rms s; rmsAverage := rmsAverage s;
    level := v; levelAverage := levelAverage s; beatPulse := beatPulse s;
    brightness := brightness s; lastBeatTime := lastBeatTime s;
    beatIntervals := beatIntervals s; bpm := bpm s;
    bandEnergy := bandEnergy s; prevSpectrum := prevSpectrum s;
    fluxHistory := fluxHistory s; prevFlux := prevFlux s;
    lastAudioActive := lastAudioActive s; beatDetected := beatDetected s |}.

Definition set_levelAverage (v : R) (s : State) : State :=
  {| analyser := analyser s; rms := rms s; rmsAverage := rmsAverage s;
    level := level s; levelAverage := v; beatPulse := beatPulse s;
    brightness := brightness s; lastBeatTime := lastBeatTime s;
    beatIntervals := beatIntervals s; bpm := bpm s;
    bandEnergy := bandEnergy s; prevSpectrum := prevSpectrum s;
    fluxHistory := fluxHistory s; prevFlux := prevFlux s;
    lastAudioActive := lastAudioActive s; beatDetected := beatDetected s |}.

Definition set_beatPulse (v : R) (s : State) : State :=
  {| analyser := analyser s; rms := rms s; rmsAverage := rmsAverage s;
    level := level s; levelAverage := levelAverage s; beatPulse := v;
    brightness := brightness s; lastBeatTime := lastBeatTime s;
    beatIntervals := beatIntervals s; bpm := bpm s;
    bandEnergy := bandEnergy s; prevSpectrum := prevSpectrum s;
    fluxHistory := fluxHistory s; prevFlux := prevFlux s;
    lastAudioActive := lastAudioActive s; beatDetected := beatDetected s |}.

Definition set_brightness (v : R) (s : State) : State :=
  {| analyser := analyser s; rms := rms s; rmsAverage := rmsAverage s;
    level := level s; levelAverage := levelAverage s;
    beatPulse := beatPulse s; brightness := v;
    lastBeatTime := lastBeatTime s; beatIntervals := beatIntervals s;
    bpm := bpm s; bandEnergy := bandEnergy s; prevSpectrum := prevSpectrum s;
    fluxHistory := fluxHistory s; prevFlux := prevFlux s;
    lastAudioActive := lastAudioActive s; beatDetected := beatDetected s |}.

Definition set_lastBeatTime (v : R) (s : State) : State :=
  {| analyser := analyser s; rms := rms s; rmsAverage := rmsAverage s;
    level := level s; levelAverage := levelAverage s;
    beatPulse := beatPulse s; brightness := brightness s; lastBeatTime := v;
    beatIntervals := beatIntervals s; bpm := bpm s;
    bandEnergy := bandEnergy s; prevSpectrum := prevSpectrum s;
    fluxHistory := fluxHistory s; prevFlux := prevFlux s;
    lastAudioActive := lastAudioActive s; beatDetected := beatDetected s |}.

Definition set_beatIntervals (v : list R) (s : State) : State :=
  {| analyser := analyser s; rms := rms s; rmsAverage := rmsAverage s;
    level := level s; levelAverage := levelAverage s;
    beatPulse := beatPulse s; brightness := brightness s;
    lastBeatTime := lastBeatTime s; beatIntervals := v; bpm := bpm s;
    bandEnergy := bandEnergy s; prevSpectrum := prevSpectrum s;
    fluxHistory := fluxHistory s; prevFlux := prevFlux s;
    lastAudioActive := lastAudioActive s; beatDetected := beatDetected s |}.

Definition set_bpm (v : R) (s : State) : State :=
  {| analyser := analyser s; rms := rms s; rmsAverage := rmsAverage s;
    level := level s; levelAverage := levelAverage s;
    beatPulse := beatPulse s; brightness := brightness s;
    lastBeatTime := lastBeatTime s; beatIntervals := beatIntervals s;
    bpm := v; bandEnergy := bandEnergy s; prevSpectrum := prevSpectrum s;
    fluxHistory := fluxHistory s; prevFlux := prevFlux s;
    lastAudioActive := lastAudioActive s; beatDetected := beatDetected s |}.

Definition set_bandEnergy (v : BandEnergy) (s : State) : State :=
  {| analyser := analyser s; rms := rms s; rmsAverage := rmsAverage s;
    level := level s; levelAverage := levelAverage s;
    beatPulse := beatPulse s; brightness := brightness s;
    lastBeatTime := lastBeatTime s; beatIntervals := beatIntervals s;
    bpm := bpm s; bandEnergy := v; prevSpectrum := prevSpectrum s;
    fluxHistory := fluxHistory s; prevFlux := prevFlux s;
    lastAudioActive := lastAudioActive s; beatDetected := beatDetected s |}.

Definition set_prevSpectrum (v : option (list R)) (s : State) : State :=
  {| analyser := analyser s; rms := rms s; rmsAverage := rmsAverage s;
    level := level s; levelAverage := levelAverage s;
    beatPulse := beatPulse s; brightness := brightness s;
    lastBeatTime := lastBeatTime s; beatIntervals := beatIntervals s;
    bpm := bpm s; bandEnergy := bandEnergy s; prevSpectrum := v;
    fluxHistory := fluxHistory s; prevFlux := prevFlux s;
    lastAudioActive := lastAudioActive s; beatDetected := beatDetected s |}.

Definition set_fluxHistory (v : list R) (s : State) : State :=
  {| analyser := analyser s; rms := rms s; rmsAverage := rmsAverage s;
    level := level s; levelAverage := levelAverage s;
    beatPulse := beatPulse s; brightness := brightness s;
    lastBeatTime := lastBeatTime s; beatIntervals := beatIntervals s;
    bpm := bpm s; bandEnergy := bandEnergy s; prevSpectrum := prevSpectrum s;
    fluxHistory := v; prevFlux := prevFlux s;
    lastAudioActive := lastAudioActive s; beatDetected := beatDetected s |}.

Definition set_prevFlux (v : R) (s : State) : State :=
  {| analyser := analyser s; rms := rms s; rmsAverage := rmsAverage s;
    level := level s; levelAverage := levelAverage s;
    beatPulse := beatPulse s; brightness := brightness s;
    lastBeatTime := lastBeatTime s; beatIntervals := beatIntervals s;
    bpm := bpm s; bandEnergy := bandEnergy s; prevSpectrum := prevSpectrum s;
    fluxHistory := fluxHistory s; prevFlux := v;
    lastAudioActive := lastAudioActive s; beatDetected := beatDetected s |}.

Definition set_lastAudioActive (v : R) (s : State) : State :=
  {| analyser := analyser s; rms := rms s; rmsAverage := rmsAverage s;
    level := level s; levelAverage := levelAverage s;
    beatPulse := beatPulse s; brightness := brightness s;
    lastBeatTime := lastBeatTime s; beatIntervals := beatIntervals s;
    bpm := bpm s; bandEnergy := bandEnergy s; prevSpectrum := prevSpectrum s;
    fluxHistory := fluxHistory s; prevFlux := prevFlux s;
    lastAudioActive := v; beatDetected := beatDetected s |}.

Definition set_beatDetected (v : bool) (s : State) : State :=
  {| analyser := analyser s; rms := rms s; rmsAverage := rmsAverage s;
    level := level s; levelAverage := levelAverage s;
    beatPulse := beatPulse s; brightness := brightness s;
    lastBeatTime := lastBeatTime s; beatIntervals := beatIntervals s;
    bpm := bpm s; bandEnergy := bandEnergy s; prevSpectrum := prevSpectrum s;
    fluxHistory := fluxHistory s; prevFlux := prevFlux s;
    lastAudioActive := lastAudioActive s; beatDetected := v |}.

Definition constructor : State :=
  {| analyser := false; rms := 0; rmsAverage := 0.001; level := 0;
     levelAverage := 0; beatPulse := 0; brightness := 0; lastBeatTime := 0;
     beatIntervals := []; bpm := 0; bandEnergy := mkBandEnergy 0 0 0;
     prevSpectrum := None; fluxHistory := []; prevFlux := 0;
     lastAudioActive := 0; beatDetected := false |}.

(** [init] creates the analyser node and allocates the two buffers. *)
Definition init (s : State) : State := set_analyser true s.

Definition _emptyState : Snapshot.t :=
  {| Snapshot.rms := 0; Snapshot.rmsAverage := 0; Snapshot.level := 0;
     Snapshot.beatPulse := 0; Snapshot.brightness := 0; Snapshot.bpm := 0;
     Snapshot.beatDetected := false;
     Snapshot.bandEnergy := mkBandEnergy 0 0 0;
     Snapshot.frequencies := repeat 0 CONFIG.barCount |}.

(** The loop of [_updateBands]: [i] is the index of the head of [data]. *)
Fixpoint bands_loop (lowEnd midEnd i : nat) (data : list byte)
  (lowSum midSum highSum : R) : R * R * R :=
  match data with
  | [] => (lowSum, midSum, highSum)
  | b :: rest =>
      let value := byte_val b / 255 in
      if (i <? lowEnd)%nat then
        bands_loop lowEnd midEnd (S i) rest (lowSum + value) midSum highSum
      else if (i <? midEnd)%nat then
        bands_loop lowEnd midEnd (S i) rest lowSum (midSum + value) highSum
      else
        bands_loop lowEnd midEnd (S i) rest lowSum midSum (highSum + value)
  end.

Definition convert (sum : R) (count : nat) : R :=
  let avg := sum / INR count in
  Math_pow (clamp (avg * CONFIG.bandGain) 0 1) CONFIG.bandExponent.

Definition _updateBands (f : Frame) (s : State) : State :=
  let len := length (freqData f) in
  let lowEnd := Math_floor (INR len * 0.12) in
  let midEnd := Math_floor (INR len * 0.45) in
  let '(lowSum, midSum, highSum) :=
    bands_loop lowEnd midEnd 0 (freqData f) 0 0 0 in
  let lowCount := Nat.max lowEnd 1 in
  let midCount := Nat.max (midEnd - lowEnd) 1 in
  let highCount := Nat.max (len - midEnd) 1 in
  set_bandEnergy
    {| low := convert lowSum lowCount;
       mid := convert midSum midCount;
       high := convert highSum highCount |} s.

Definition _updateBrightness (s : State) : State :=
  let '(mkBandEnergy low mid high) := bandEnergy s in
  let total := low + mid + high + 1e-6 in
  set_brightness (clamp ((mid * 0.35 + high * 0.65) / total) 0 1) s.

(** The compressed magnitude of one bin. *)
Definition magnitude (b : byte) : R :=
  Math_pow (byte_val b / 255) CONFIG.fluxExponent.

(** What an element of [prevSpectrum], a [Float32Array], keeps of the
    magnitude written into it. *)
Definition stored_magnitude (b : byte) : R := Math_fround (magnitude b).

(** The loop of the second branch of [_calculateFlux]: it walks the bins and
    the stored spectrum together, accumulates the positive differences of
    the magnitude and the stored entry, and overwrites the stored entries.
    A typed array has a fixed length, so where the stored spectrum is
    shorter than the bins nothing is added and nothing is stored. *)
Fixpoint flux_loop (data : list byte) (prev : list R) (flux : R)
  : R * list R :=
  match data, prev with
  | b :: rest, p :: prev' =>
      let m := magnitude b in
      let diff := m - p in
      let '(flux', stored) :=
        flux_loop rest prev' (if Rgtb diff 0 then flux + diff else flux) in
      (flux', stored_magnitude b :: stored)
  | _, _ => (flux, prev)
  end.

Definition _calculateFlux (f : Frame) (s : State) : R * State :=
  match prevSpectrum s with
  | None =>
      (0, set_prevSpectrum (Some (map stored_magnitude (freqData f))) s)
  | Some prev =>
      let '(flux, stored) := flux_loop (freqData f) prev 0 in
      (flux / INR (length (freqData f)), set_prevSpectrum (Some stored) s)
  end.

(** The threshold computed from the history as it is before the push. *)
Definition flux_threshold (history : list R) : option R :=
  let windowSize := Nat.min (length history) CONFIG.fluxWindow in
  if (CONFIG.fluxMinWindow <=? windowSize)%nat then
    let window := skipn (length history - windowSize) history in
    let sum := sum_list window in
    let mean := sum / INR windowSize in
    let deviation :=
      fold_left (fun d h => d + Rabs (h - mean)) window 0 / INR windowSize in
    Some (mean + deviation * CONFIG.fluxSensitivity)
  else None.

Definition _updateFluxHistory (flux : R) (s : State)
  : (option R * R) * State :=
  let history := fluxHistory s in
  let threshold := flux_threshold history in
  let history' := push_shift CONFIG.fluxHistorySize history flux in
  let delta :=
    match threshold with None => 0 | Some t => flux - t end in
  ((threshold, delta), set_fluxHistory history' s).

Definition reset_condition (frameNow : R) (s : State) : bool :=
  let sinceBeat := frameNow - lastBeatTime s in
  let silence :=
    Rgtb (frameNow - lastAudioActive s) CONFIG.beatSilenceResetMs in
  (Rgtb (lastBeatTime s) 0 && Rgtb sinceBeat CONFIG.beatSilenceResetMs)
  || silence.

(** The condition of the outer [if] of [_detectBeat]. *)
Definition onset_candidate (levelSample flux : R) (threshold : option R)
  (delta : R) (be : BandEnergy) (s : State) : bool :=
  let fluxActive :=
    match threshold with
    | None => false
    | Some _ => Rgtb delta CONFIG.fluxDeltaFloor
    end in
  let rising := Rgtb flux (prevFlux s) in
  let energyScore := low be * 0.5 + mid be * 0.35 + high be * 0.25 in
  let levelOk := Rgtb levelSample CONFIG.beatLevelFloor in
  let energyOk := Rgtb energyScore CONFIG.beatEnergyFloor in
  fluxActive && rising && (levelOk || energyOk).

Definition _detectBeat (levelSample flux : R) (threshold : option R)
  (delta : R) (be : BandEnergy) (frameNow : R) (s : State) : bool * State :=
  let '(detected, s1) :=
    if onset_candidate levelSample flux threshold delta be s then
      let interval := frameNow - lastBeatTime s in
      if Reqb (lastBeatTime s) 0 || Rgtb interval CONFIG.beatMinIntervalMs
      then
        let s' :=
          if Rgtb (lastBeatTime s) 0
             && Rltb interval CONFIG.beatMaxIntervalMs
          then
            let intervals :=
              push_shift CONFIG.bpmWindow (beatIntervals s) interval in
            let avg := sum_list intervals / INR (length intervals) in
            let targetBpm := clamp (60000 / Rmax avg 1) 50 200 in
            set_bpm
              (if Reqb (bpm s) 0 then Math_round targetBpm
               else Math_round (lerp (bpm s) targetBpm CONFIG.bpmSmoothing))
              (set_beatIntervals intervals s)
          else s in
        (true, set_lastBeatTime frameNow s')
      else (false, s)
    else (false, s) in
  let s2 :=
    if negb detected then
      if reset_condition frameNow s1 then
        set_bpm 0 (set_lastBeatTime 0 (set_beatIntervals [] s1))
      else s1
    else s1 in
  (detected, set_prevFlux flux s2).

(** What [update] has computed when it calls [_detectBeat]. *)
Record Features : Type := mkFeatures {
  normalized : R;
  flux : R;
  fluxThreshold : option R;
  fluxDelta : R
}.

(** The body of [update] from the reading of the buffers to the assignment
    of the interpolated [beatPulse]. *)
Definition update_features (x : Tick) (s : State) : Features * State :=
  let f := frame x in
  let sumSquares :=
    fold_left (fun acc sample => acc + sample * sample) (timeData f) 0 in
  let nextRms := sqrt (sumSquares / INR (length (timeData f))) in
  let s := set_rms (lerp (rms s) nextRms 0.22) s in
  let s := set_rmsAverage (lerp (rmsAverage s) nextRms 0.05) s in
  let s := _updateBands f s in
  let s := _updateBrightness s in
  let normalized :=
    clamp (Math_pow (nextRms * CONFIG.levelScale) CONFIG.levelExponent) 0 1 in
  let s := set_levelAverage (lerp (levelAverage s) normalized 0.06) s in
  let s := set_level (lerp (level s) normalized 0.4) s in
  let frameNow := clock x in
  let s :=
    if Rgtb normalized 0.035 then set_lastAudioActive frameNow s else s in
  let '(flux, s) := _calculateFlux f s in
  let '((fluxThreshold, fluxDelta), s) := _updateFluxHistory flux s in
  let beatDelta := Rmax 0 (normalized - levelAverage s * 1.01) in
  let energyContribution :=
    normalized * (low (bandEnergy s) * 0.24 + mid (bandEnergy s) * 0.18
                  + high (bandEnergy s) * 0.12) in
  let targetBeatPulse :=
    clamp (beatDelta * CONFIG.beatDeltaGain
           + Rmax 0 fluxDelta * CONFIG.fluxPulseGain
           + energyContribution) 0 1 in
  let s := set_beatPulse (lerp (beatPulse s) targetBeatPulse 0.36) s in
  (mkFeatures normalized flux fluxThreshold fluxDelta, s).

(** The display array, a [Float32Array]: [barCount] entries read at stride
    [step], each kept as a binary32 number.  For the buffers [init]
    allocates every index read is in range (see [frequencies_in_range]);
    the default of [nth] is never used there. *)
Definition frequencies (f : Frame) : list R :=
  let step := Nat.max 1 (length (freqData f) / CONFIG.barCount) in
  map (fun i =>
         Math_fround
           (Math_pow (byte_val (nth (i * step) (freqData f) x00) / 255)
              0.62))
      (seq 0 CONFIG.barCount).

Definition update (x : Tick) (s : State) : Snapshot.t * State :=
  if negb (analyser s) then (_emptyState, s)
  else
    let '(ft, s) := update_features x s in
    let '(detected, s) :=
      _detectBeat (normalized ft) (flux ft) (fluxThreshold ft) (fluxDelta ft)
        (bandEnergy s) (clock x) s in
    let s :=
      if detected then set_beatPulse (Rmin 1 (beatPulse s + 0.34)) s
      else s in
    let s := set_beatDetected detected s in
    ({| Snapshot.rms := rms s; Snapshot.rmsAverage := rmsAverage s;
        Snapshot.level := level s; Snapshot.beatPulse := beatPulse s;
        Snapshot.brightness := brightness s; Snapshot.bpm := bpm s;
        Snapshot.beatDetected := detected;
        Snapshot.bandEnergy := bandEnergy s;
        Snapshot.frequencies := frequencies (frame x) |}, s).

(** The animation loop calls [update] once per tick: the snapshots it
    returns and the state it leaves. *)
Fixpoint run (xs : list Tick) (s : State) : list Snapshot.t * State :=
  match xs with
  | [] => ([], s)
  | x :: rest =>
      let '(o, s1) := update x s in
      let '(os, s2) := run rest s1 in
      (o :: os, s2)
  end.

Definition outputs (xs : list Tick) (s : State) : list Snapshot.t :=
  fst (run xs s).

Definition final (xs : list Tick) (s : State) : State := snd (run xs s).

(** The buffers [init] allocates: [fftSize] samples and
    [frequencyBinCount] bins. *)
Definition wf_frame (f : Frame) : Prop :=
  length (timeData f) = CONFIG.fftSize
  /\ length (freqData f) = frequencyBinCount.

Definition wf_tick (x : Tick) : Prop := wf_frame (frame x).

End AudioAnalyser.

(** ** PaletteController *)

Module PaletteController.

Import Stdlib.Strings.String.

Record Theme : Type := mkTheme {
  name : string;
  baseHue : Z;
  accentHue : Z;
  glowHue : Z;
  bgDark : string
}.

Definition COLOR_THEMES : list Theme :=
  [ mkTheme "Glacier Rift" 210 180 200 "#0a1420";
    mkTheme "Infra Noir" 330 0 350 "#120910";
    mkTheme "Electric Alloy" 260 120 280 "#0b0818";
    mkTheme "Chrome Tide" 190 40 210 "#050d18" ].

Record State : Type := mkState {
  index : nat;
  lastSwitch : R;
  beatCount : nat;
  lastBeatAt : R
}.

(** [now] is the reading of [performance.now()] in the constructor. *)
Definition constructor (now : R) : State :=
  {| index := 0; lastSwitch := now; beatCount := 0; lastBeatAt := 0 |}.

(** The argument object of [update]. *)
Record Args : Type := mkArgs {
  audioIntensity : R;
  beatPulse : R;
  beatDetected : bool;
  bpm : R
}.

Definition targetHold (a : Args) : R :=
  let beatDuration := if Rgtb (bpm a) 0 then 60000 / bpm a else 0 in
  if Rgtb beatDuration 0
  then beatDuration * INR CONFIG.paletteBeatsPerCycle
  else CONFIG.paletteMinHoldMs.

(** The hold time: [Math.max(CONFIG.paletteMinHoldMs, targetHold)]. *)
Definition hold (a : Args) : R := Rmax CONFIG.paletteMinHoldMs (targetHold a).

Definition strongPulse (a : Args) : bool :=
  Rgtb (beatPulse a) CONFIG.paletteBeatPulseGate || beatDetected a.

(** The state after the first [if]: the beat is counted. *)
Definition count_beat (a : Args) (now : R) (s : State) : State :=
  if beatDetected a
  then {| index := index s; lastSwitch := lastSwitch s;
          beatCount := S (beatCount s); lastBeatAt := now |}
  else s.

(** The condition of the second [if]: the palette advances. *)
Definition advances (a : Args) (now : R) (s : State) : bool :=
  let s1 := count_beat a now s in
  Rgeb (now - lastSwitch s1) (hold a) && strongPulse a
  && (CONFIG.paletteBeatsPerCycle <=? beatCount s1)%nat.

(** The condition of the third [if]: the quiet reset, evaluated on the
    state the second [if] leaves, with [holdSatisfied] as computed before
    it. *)
Definition quiet_resets (a : Args) (now : R) (s : State) : bool :=
  let s1 := count_beat a now s in
  let holdSatisfied := Rgeb (now - lastSwitch s1) (hold a) in
  let timeSinceBeat := now - lastBeatAt s1 in
  let quiet := Rltb (audioIntensity a) CONFIG.paletteQuietIntensity in
  quiet && holdSatisfied && Rgtb timeSinceBeat CONFIG.paletteQuietResetMs.

Definition update (a : Args) (now : R) (s : State) : option Theme * State :=
  let s1 := count_beat a now s in
  let s2 :=
    if advances a now s
    then {| index := (index s1 + 1) mod List.length COLOR_THEMES;
            lastSwitch := now; beatCount := 0; lastBeatAt := lastBeatAt s1 |}
    else s1 in
  let s3 :=
    if quiet_resets a now s
    then {| index := 0; lastSwitch := now; beatCount := 0;
            lastBeatAt := lastBeatAt s2 |}
    else s2 in
  (nth_error COLOR_THEMES (index s3), s3).

End PaletteController.


(** ** Points, landmarks and the geometric helpers *)

(** An object with [x] and [y]. *)
Module Point.
Record t : Type := mk {
  x : R;
  y : R
}.
End Point.

(** A landmark of a MediaPipe result: [x], [y] and [z]. *)
Module Landmark.
Record t : Type := mk {
  x : R;
  y : R;
  z : R
}.

(** What [distance2D] and the trackers read of a landmark. *)
Definition xy (l : t) : Point.t := Point.mk (x l) (y l).
End Landmark.

(** [Math.hypot] of two and of three arguments. *)
Definition Math_hypot2 (a b : R) : R := sqrt (a * a + b * b).
Definition Math_hypot3 (a b c : R) : R := sqrt (a * a + b * b + c * c).

(** [Math.atan2(y, x)] on finite arguments (signed zeros are not
    modelled). *)
Definition Math_atan2 (y x : R) : R :=
  if Rlt_dec 0 x then atan (y / x)
  else if Rlt_dec x 0 then
    if Rle_dec 0 y then atan (y / x) + PI else atan (y / x) - PI
  else if Rlt_dec 0 y then PI / 2
  else if Rlt_dec y 0 then - (PI / 2)
  else 0.

(** [a?.x ?? 0] and [a?.y ?? 0]: a missing point reads as the origin. *)
Definition x_or_0 (a : option Point.t) : R :=
  match a with Some p => Point.x p | None => 0 end.

Definition y_or_0 (a : option Point.t) : R :=
  match a with Some p => Point.y p | None => 0 end.

Definition distance2D (a b : option Point.t) : R :=
  let dx := x_or_0 a - x_or_0 b in
  let dy := y_or_0 a - y_or_0 b in
  Math_hypot2 dx dy.

Definition midpoint (a b : Point.t) : Point.t :=
  Point.mk ((Point.x a + Point.x b) * 0.5) ((Point.y a + Point.y b) * 0.5).

(** [landmarks[i]] as [distance2D] receives it. *)
Definition point_at (landmarks : list Landmark.t) (i : nat)
  : option Point.t :=
  option_map Landmark.xy (nth_error landmarks i).

(** ** PoseTracker *)

Module PoseTracker.

(** The result of the pose landmarker; a missing field is [None]. *)
Record Result : Type := mkResult {
  landmarks : option (list (list Landmark.t));
  worldLandmarks : option (list (list Landmark.t))
}.

Record Output : Type := mkOutput {
  motionEnergy : R;
  centroid : option Point.t
}.

(** The only field of the tracker is [previousEnergy]. *)
Definition constructor : R := 0.

(** The pose the tracker reads: [None] when the result, its [landmarks] or
    the first pose is missing. *)
Definition first_pose (result : option Result) : option (list Landmark.t) :=
  match result with
  | Some r =>
      match landmarks r with
      | Some (pose :: _) => Some pose
      | _ => None
      end
  | None => None
  end.

(** The loop over [indices]: [worldLandmarks[0][idx]] must exist, its
    [x] being read; [None] is the [TypeError] of a missing one. *)
Fixpoint world_energy (world : list Landmark.t) (indices : list nat)
  (energy : R) : option R :=
  match indices with
  | [] => Some energy
  | idx :: rest =>
      match nth_error world idx with
      | Some lm =>
          let mag :=
            Math_hypot3 (Landmark.x lm) (Landmark.y lm) (Landmark.z lm) in
          world_energy world rest (energy + mag)
      | None => None
      end
  end.

Definition indices : list nat := [11; 12; 13; 14; 15; 16]%nat.

(** [update]: the returned object and the new [previousEnergy], or [None]
    where the code throws. *)
Definition update (result : option Result) (previousEnergy : R)
  : option (Output * R) :=
  match first_pose result with
  | None =>
      let e := lerp previousEnergy 0 CONFIG.motionSmoothing in
      Some ({| motionEnergy := e; centroid := None |}, e)
  | Some pose =>
      let centroidX :=
        fold_left (fun acc lm => acc + Landmark.x lm) pose 0 in
      let centroidY :=
        fold_left (fun acc lm => acc + Landmark.y lm) pose 0 in
      let count := match length pose with O => 1%nat | n => n end in
      let centroidX := centroidX / INR count in
      let centroidY := centroidY / INR count in
      let energy :=
        match result with
        | Some {| worldLandmarks := Some (world :: _) |} =>
            match world_energy world indices 0 with
            | Some e => Some (e / INR (length indices))
            | None => None
            end
        | _ => Some 0
        end in
      match energy with
      | Some energy =>
          let e := lerp previousEnergy energy 0.18 in
          Some ({| motionEnergy := e;
                   centroid := Some (Point.mk centroidX centroidY) |}, e)
      | None => None
      end
  end.

(** The tracker over a sequence of results; [None] once a call throws. *)
Fixpoint run (results : list (option Result)) (previousEnergy : R)
  : option (list Output * R) :=
  match results with
  | [] => Some ([], previousEnergy)
  | r :: rest =>
      match update r previousEnergy with
      | Some (o, e) =>
          match run rest e with
          | Some (os, e') => Some (o :: os, e')
          | None => None
          end
      | None => None
      end
  end.

End PoseTracker.

(** ** FaceExpressionTracker *)

Module FaceExpressionTracker.

Record Result : Type := mkResult {
  faceLandmarks : option (list (list Landmark.t))
}.

Record State : Type := mkState {
  prevBlinkTime : R;
  isBlinking : bool;
  blinkCount : nat
}.

Definition constructor : State :=
  {| prevBlinkTime := 0; isBlinking := false; blinkCount := 0 |}.

(** What [_computeMetrics] returns; [roll] is [headTilt.roll]. *)
Record Metrics : Type := mkMetrics {
  eyeOpenness : R;
  browRaise : R;
  smile : R;
  mouthOpen : R;
  roll : R
}.

(** What [update] returns. *)
Record Output : Type := mkOutput {
  metrics : Metrics;
  out_blinkCount : nat;
  blinkTriggered : bool
}.

Definition _eyeOpenness (landmarks : list Landmark.t)
  (upperIdx lowerIdx leftIdx rightIdx : nat) : R :=
  let vertical :=
    distance2D (point_at landmarks upperIdx) (point_at landmarks lowerIdx) in
  let horizontal :=
    distance2D (point_at landmarks leftIdx) (point_at landmarks rightIdx)
    + 1e-6 in
  clamp (vertical / horizontal * 3) 0 1.

(** [_computeMetrics]; [None] is the [TypeError] of reading [y] of a
    missing cheek landmark. *)
Definition _computeMetrics (landmarks : list Landmark.t) : option Metrics :=
  let d := distance2D (point_at landmarks 10) (point_at landmarks 152) in
  let faceHeight := if Reqb d 0 then 1 else d in
  let leftEyeOpen := _eyeOpenness landmarks 159 145 33 133 in
  let rightEyeOpen := _eyeOpenness landmarks 386 374 362 263 in
  let eyeOpenness := clamp ((leftEyeOpen + rightEyeOpen) * 0.5) 0 1 in
  let leftBrow :=
    distance2D (point_at landmarks 65) (point_at landmarks 159)
    / faceHeight in
  let rightBrow :=
    distance2D (point_at landmarks 295) (point_at landmarks 386)
    / faceHeight in
  let browRaise := clamp ((leftBrow + rightBrow) * 2.8) 0 1 in
  let mouthWidth :=
    distance2D (point_at landmarks 61) (point_at landmarks 291)
    / faceHeight in
  let mouthHeight :=
    distance2D (point_at landmarks 13) (point_at landmarks 14)
    / faceHeight in
  let smile := clamp ((mouthWidth - 0.25) * 3) 0 1 in
  let mouthOpen := clamp ((mouthHeight - 0.02) * 12) 0 1 in
  match nth_error landmarks 234, nth_error landmarks 454 with
  | Some leftCheek, Some rightCheek =>
      let roll :=
        Math_atan2 (Landmark.y rightCheek - Landmark.y leftCheek)
          (Landmark.x rightCheek - Landmark.x leftCheek) in
      Some {| eyeOpenness := eyeOpenness; browRaise := browRaise;
              smile := smile; mouthOpen := mouthOpen; roll := roll |}
  | _, _ => None
  end.

(** [now] is the reading of [performance.now()]. *)
Definition _updateBlink (openness now : R) (s : State) : State :=
  let currentlyBlinking := Rltb openness 0.18 in
  let s1 :=
    if currentlyBlinking && negb (isBlinking s)
       && Rgtb (now - prevBlinkTime s) CONFIG.blinkCooldownMs
    then {| prevBlinkTime := now; isBlinking := isBlinking s;
            blinkCount := S (blinkCount s) |}
    else s in
  {| prevBlinkTime := prevBlinkTime s1; isBlinking := currentlyBlinking;
     blinkCount := blinkCount s1 |}.

Definition _empty (s : State) : Output :=
  {| metrics := {| eyeOpenness := 0; browRaise := 0; smile := 0;
                   mouthOpen := 0; roll := 0 |};
     out_blinkCount := blinkCount s;
     blinkTriggered := false |}.

Definition first_face (result : option Result) : option (list Landmark.t) :=
  match result with
  | Some r =>
      match faceLandmarks r with
      | Some (face :: _) => Some face
      | _ => None
      end
  | None => None
  end.

Definition update (result : option Result) (now : R) (s : State)
  : option (Output * State) :=
  match first_face result with
  | None =>
      let s' := {| prevBlinkTime := prevBlinkTime s; isBlinking := false;
                   blinkCount := blinkCount s |} in
      Some (_empty s', s')
  | Some landmarks =>
      match _computeMetrics landmarks with
      | Some m =>
          let s' := _updateBlink (eyeOpenness m) now s in
          Some ({| metrics := m;
                   out_blinkCount := blinkCount s';
                   blinkTriggered :=
                     Rltb (eyeOpenness m) 0.22 && negb (isBlinking s') |},
                s')
      | None => None
      end
  end.

(** The tracker over a sequence of calls, each with its result and clock
    reading; [None] once a call throws. *)
Fixpoint run (calls : list (option Result * R)) (s : State)
  : option (list Output * State) :=
  match calls with
  | [] => Some ([], s)
  | (r, now) :: rest =>
      match update r now s with
      | Some (o, s1) =>
          match run rest s1 with
          | Some (os, s2) => Some (o :: os, s2)
          | None => None
          end
      | None => None
      end
  end.

End FaceExpressionTracker.

(** ** Renderer: the audio intensity and the palette step of [draw] *)

Module Renderer.

(** [audio] is the snapshot [loop] passes on; every field is present, so
    none of the [?? 0] defaults applies. *)
Definition audioIntensity (audio : Snapshot.t) : R :=
  clamp (Snapshot.level audio * 1.5
         + low (Snapshot.bandEnergy audio) * 0.35
         + mid (Snapshot.bandEnergy audio) * 0.25
         + high (Snapshot.bandEnergy audio) * 0.2) 0 1.

Definition palette_args (audio : Snapshot.t) : PaletteController.Args :=
  {| PaletteController.audioIntensity := audioIntensity audio;
     PaletteController.beatPulse := Snapshot.beatPulse audio;
     PaletteController.beatDetected := Snapshot.beatDetected audio;
     PaletteController.bpm := Snapshot.bpm audio |}.

(** The part of [draw] that selects the palette; [now] is the clock reading
    inside [PaletteController.update]. *)
Definition draw_palette (audio : Snapshot.t) (now : R)
  (pc : PaletteController.State)
  : option PaletteController.Theme * PaletteController.State :=
  PaletteController.update (palette_args audio) now pc.

End Renderer.

(** The audio and palette part of [loop]: one call of
    [audioAnalyser.update] and one of [renderer.draw], each with its own
    clock reading. *)
Record LoopTick : Type := mkLoopTick {
  audio_tick : Tick;
  draw_clock : R
}.

Definition loop_step (lt : LoopTick)
  (st : AudioAnalyser.State * PaletteController.State)
  : option PaletteController.Theme
    * (AudioAnalyser.State * PaletteController.State) :=
  let '(audioState, sa) := AudioAnalyser.update (audio_tick lt) (fst st) in
  let '(palette, sp) :=
    Renderer.draw_palette audioState (draw_clock lt) (snd st) in
  (palette, (sa, sp)).

Fixpoint loop_run (lts : list LoopTick)
  (st : AudioAnalyser.State * PaletteController.State)
  : list (option PaletteController.Theme)
    * (AudioAnalyser.State * PaletteController.State) :=
  match lts with
  | [] => ([], st)
  | lt :: rest =>
      let '(p, st1) := loop_step lt st in
      let '(ps, st2) := loop_run rest st1 in
      (p :: ps, st2)
  end.

(** ** HandGestureTracker *)


Module HandGestureTracker.

Import Stdlib.Strings.String.

Inductive Gesture : Type := gesture_open | gesture_closed.

(** What [_computeMetrics] returns for one hand. *)
Record Hand : Type := mkHand {
  handedness : string;
  pinch : R;
  spread : R;
  extension : R;
  gesture : Gesture;
  indexTip : Point.t;
  thumbTip : Point.t;
  palmCenter : Point.t;
  direction : Point.t;
  velocity : Point.t;
  speed : R;
  rawLandmarks : list Landmark.t
}.

(** A point of a finger trail. *)
Record TrailPoint : Type := mkTrailPoint {
  tx : R;
  ty : R;
  life : R
}.

(** The result of the hand landmarker.  [handedness] is read as
    [result.handedness?.[index]?.categoryName]: an entry is the
    [categoryName] it carries, [None] when it carries none. *)
Record Result : Type := mkResult {
  landmarks : option (list (list Landmark.t));
  res_handedness : option (list (option string))
}.

(** A [Map] with string keys, and the own properties of an object, in
    insertion order. *)
Fixpoint Map_get {A : Type} (k : string) (m : list (string * A))
  : option A :=
  match m with
  | [] => None
  | (k', v) :: m' => if String.eqb k k' then Some v else Map_get k m'
  end.

Fixpoint Map_set {A : Type} (k : string) (v : A) (m : list (string * A))
  : list (string * A) :=
  match m with
  | [] => [(k, v)]
  | (k', v') :: m' =>
      if String.eqb k k' then (k, v) :: m' else (k', v') :: Map_set k v m'
  end.

Definition Paths : Type := list (string * list TrailPoint).

Record State : Type := mkState {
  previousHands : list (string * Hand);
  paths : Paths
}.

Definition constructor : State :=
  {| previousHands := []; paths := [("Left"%string, []); ("Right"%string, [])] |}.

(** [_computeMetrics]; [prev] is the entry of [previousHands].  [None] is
    the [TypeError] of reading [x] of a missing wrist, thumb tip or index
    tip. *)
Definition _computeMetrics (landmarks : list Landmark.t)
  (handedness : string) (prev : option Hand) : option Hand :=
  let pinchDistance := distance2D (point_at landmarks 4)
                         (point_at landmarks 8) in
  let pinch := clamp (1 - pinchDistance * 4) 0 1 in
  let extensionPairs := [(8, 6); (12, 10); (16, 14); (20, 18)]%nat in
  let extensionSum :=
    fold_left
      (fun acc p =>
         acc + distance2D (point_at landmarks (fst p))
                 (point_at landmarks (snd p)))
      extensionPairs 0 in
  let extension :=
    clamp (extensionSum / INR (List.length extensionPairs) * 8) 0 1 in
  let spread :=
    clamp (distance2D (point_at landmarks 8) (point_at landmarks 20) * 3)
      0 1 in
  let gesture :=
    if Rgtb spread 0.45 && Rgtb extension 0.45 && Rltb pinch 0.65
    then gesture_open else gesture_closed in
  match nth_error landmarks 4, nth_error landmarks 8,
        nth_error landmarks 0 with
  | Some thumbTip, Some indexTip, Some wrist =>
      let direction :=
        Point.mk (Landmark.x indexTip - Landmark.x wrist)
          (Landmark.y indexTip - Landmark.y wrist) in
      let velocity :=
        match prev with
        | Some prev =>
            Point.mk
              ((Landmark.x indexTip - Point.x (HandGestureTracker.indexTip prev))
               * 60)
              ((Landmark.y indexTip - Point.y (HandGestureTracker.indexTip prev))
               * 60)
        | None => Point.mk 0 0
        end in
      let speed := Math_hypot2 (Point.x velocity) (Point.y velocity) in
      Some {| handedness := handedness;
              pinch := pinch;
              spread := spread;
              extension := extension;
              gesture := gesture;
              indexTip := Landmark.xy indexTip;
              thumbTip := Landmark.xy thumbTip;
              palmCenter := midpoint (Landmark.xy wrist) (Landmark.xy indexTip);
              direction := direction;
              velocity := velocity;
              speed := speed;
              rawLandmarks := landmarks |}
  | _, _, _ => None
  end.

(** The names [this.paths] inherits from [Object.prototype]:
    [this.paths[name]] is then a function or the prototype itself, which
    is truthy and has no [push]. *)
Definition Object_prototype_keys : list string :=
  [ "constructor"; "__proto__"; "hasOwnProperty"; "isPrototypeOf";
    "propertyIsEnumerable"; "toLocaleString"; "toString"; "valueOf";
    "__defineGetter__"; "__defineSetter__"; "__lookupGetter__";
    "__lookupSetter__" ]%string.

(** [_pushTrail]; [point] is the [indexTip] of a hand and is never
    missing.  [None] is the [TypeError] of calling [list.push] on a value
    inherited from [Object.prototype]. *)
Definition _pushTrail (handedness : string) (point : Point.t)
  (paths : Paths) : option Paths :=
  if existsb (String.eqb handedness) Object_prototype_keys then None
  else
    let list :=
      match Map_get handedness paths with Some l => l | None => [] end in
    let list1 := list ++ [mkTrailPoint (Point.x point) (Point.y point) 1] in
    let list2 :=
      if (CONFIG.fingerTrailLength <? List.length list1)%nat
      then tl list1 else list1 in
    Some (Map_set handedness list2 paths).

(** The loop of [_fadeTrails] over one trail: the iterations
    [i = n - 1, ..., 0].  [None] is the [TypeError] of reading [life] of
    a missing [trail[i]]. *)
Fixpoint fade_loop (n : nat) (trail : list TrailPoint)
  : option (list TrailPoint) :=
  match n with
  | O => Some trail
  | S i =>
      match nth_error trail i with
      | None => None
      | Some p =>
          let p' := mkTrailPoint (tx p) (ty p) (life p - 0.03) in
          let trail1 := firstn i trail ++ p' :: skipn (S i) trail in
          let trail2 :=
            if Rgeb 0 (life p')
            then firstn i trail1 ++ skipn (S i) trail1
            else trail1 in
          fade_loop i trail2
      end
  end.

Definition fade_trail (trail : list TrailPoint)
  : option (list TrailPoint) :=
  fade_loop (List.length trail) trail.

(** [_fadeTrails]: every trail of [this.paths] is faded in place. *)
Fixpoint _fadeTrails (paths : Paths) : option Paths :=
  match paths with
  | [] => Some []
  | (k, trail) :: rest =>
      match fade_trail trail with
      | Some trail' =>
          match _fadeTrails rest with
          | Some rest' => Some ((k, trail') :: rest')
          | None => None
          end
      | None => None
      end
  end.

Record Summary : Type := mkSummary {
  handCount : nat;
  left : option Hand;
  right : option Hand;
  distance : R;
  angle : R
}.

Definition _buildSummary (hands : list Hand) : Summary :=
  let left := find (fun hand => String.eqb (handedness hand) "Left") hands in
  let right :=
    find (fun hand => String.eqb (handedness hand) "Right") hands in
  match left, right with
  | Some l, Some r =>
      {| handCount := List.length hands; left := left; right := right;
         distance := distance2D (Some (palmCenter l)) (Some (palmCenter r));
         angle :=
           Math_atan2 (Point.y (palmCenter r) - Point.y (palmCenter l))
             (Point.x (palmCenter r) - Point.x (palmCenter l)) |}
  | _, _ =>
      {| handCount := List.length hands; left := left; right := right;
         distance := 0; angle := 0 |}
  end.

(** What [update] returns; [out_paths] is [this.paths] as the call leaves
    it. *)
Record Output : Type := mkOutput {
  hands : list Hand;
  out_paths : Paths;
  summary : Summary
}.

(** [result.handedness?.[index]?.categoryName || "Unknown"]. *)
Definition handedness_at (result : Result) (index : nat) : string :=
  match res_handedness result with
  | Some hs =>
      match nth_error hs index with
      | Some (Some name) => if String.eqb name "" then "Unknown"%string else name
      | _ => "Unknown"%string
      end
  | None => "Unknown"%string
  end.

(** The template string of [handId]. *)
Definition handId (handedness : string) (index : nat) : string :=
  String.append handedness
    (String.append "-"
       (DecimalString.NilEmpty.string_of_uint (Nat.to_uint index))).

(** The [forEach] of [update], from hand [index] on; [hands] is the array
    built so far. *)
Fixpoint each_hand (result : Result) (lms : list (list Landmark.t))
  (index : nat) (hands : list Hand) (s : State)
  : option (list Hand * State) :=
  match lms with
  | [] => Some (hands, s)
  | landmarks :: rest =>
      let handedness := handedness_at result index in
      let id := handId handedness index in
      let prev := Map_get id (previousHands s) in
      match _computeMetrics landmarks handedness prev with
      | None => None
      | Some normalized =>
          match _pushTrail handedness (indexTip normalized) (paths s) with
          | None => None
          | Some paths' =>
              each_hand result rest (S index) (hands ++ [normalized])
                {| previousHands :=
                     Map_set id normalized (previousHands s);
                   paths := paths' |}
          end
      end
  end.

(** The hands of a result: [None] when the result, its [landmarks] or
    every hand is missing. *)
Definition hands_of (result : option Result)
  : option (Result * list (list Landmark.t)) :=
  match result with
  | Some r =>
      match landmarks r with
      | Some (l :: ls) => Some (r, l :: ls)
      | _ => None
      end
  | None => None
  end.

Definition update (result : option Result) (s : State)
  : option (Output * State) :=
  match hands_of result with
  | None =>
      match _fadeTrails (paths s) with
      | Some p =>
          Some ({| hands := []; out_paths := p;
                   summary := _buildSummary [] |},
                {| previousHands := []; paths := p |})
      | None => None
      end
  | Some (r, lms) =>
      match each_hand r lms 0 [] s with
      | Some (hands, s1) =>
          match _fadeTrails (paths s1) with
          | Some p =>
              Some ({| hands := hands; out_paths := p;
                       summary := _buildSummary hands |},
                    {| previousHands := previousHands s1; paths := p |})
          | None => None
          end
      | None => None
      end
  end.

(** The tracker over a sequence of results; [None] once a call throws. *)
Fixpoint run (results : list (option Result)) (s : State)
  : option (list Output * State) :=
  match results with
  | [] => Some ([], s)
  | r :: rest =>
      match update r s with
      | Some (o, s1) =>
          match run rest s1 with
          | Some (os, s2) => Some (o :: os, s2)
          | None => None
          end
      | None => None
      end
  end.

End HandGestureTracker.

(** ** computeGestureSummary *)

Record Gestures : Type := mkGestures {
  panX : R;
  panY : R;
  zoom : R;
  headTilt : R
}.

(** [hands] is what [HandGestureTracker.update] returned and [face] what
    [FaceExpressionTracker.update] or [_empty] returned; [face] and its
    [headTilt] are then present. *)
Definition computeGestureSummary (hands : HandGestureTracker.Output)
  (face : FaceExpressionTracker.Output) : Gestures :=
  let s := HandGestureTracker.summary hands in
  let dir_x (h : option HandGestureTracker.Hand) :=
    match h with
    | Some h => Point.x (HandGestureTracker.direction h)
    | None => 0
    end in
  let dir_y (h : option HandGestureTracker.Hand) :=
    match h with
    | Some h => Point.y (HandGestureTracker.direction h)
    | None => 0
    end in
  {| panX := (dir_x (HandGestureTracker.left s)
              + dir_x (HandGestureTracker.right s)) * 0.5;
     panY := (dir_y (HandGestureTracker.left s)
              + dir_y (HandGestureTracker.right s)) * 0.5;
     zoom := clamp ((HandGestureTracker.distance s - 0.1) * 2) 0 1;
     headTilt :=
       FaceExpressionTracker.roll (FaceExpressionTracker.metrics face) |}.

(** ** CoolMonoScene: the rings *)

Module CoolMonoScene.

Import Stdlib.Strings.String.

(** A ring; [type] is ['open'] or ['closed']. *)
Record Ring : Type := mkRing {
  x : R;
  y : R;
  radius : R;
  speed : R;
  life : R;
  decay : R;
  alpha : R;
  type : HandGestureTracker.Gesture;
  hue : Z;
  lineWidth : R
}.

(** The fields the rings depend on; [glitchSeed] only feeds the drawing. *)
Record State : Type := mkState {
  rings : list Ring;
  prevGestures : list (string * HandGestureTracker.Gesture);
  lastEmitTime : list (string * R)
}.

Definition constructor : State :=
  {| rings := []; prevGestures := []; lastEmitTime := [] |}.

(** [Map.prototype.delete]. *)
Definition Map_delete {A : Type} (k : string) (m : list (string * A))
  : list (string * A) :=
  filter (fun kv => negb (String.eqb k (fst kv))) m.

Definition _spawnRing (x y : R) (type : HandGestureTracker.Gesture)
  (intensity : R) (palette : PaletteController.Theme) (s : State) : State :=
  let is_open :=
    match type with
    | HandGestureTracker.gesture_open => true
    | HandGestureTracker.gesture_closed => false
    end in
  let ring :=
    {| x := x;
       y := y;
       radius := if is_open then 30 else 18;
       speed := if is_open then 6 + intensity * 18 else 10 + intensity * 22;
       life := 1;
       decay := if is_open then 0.016 else 0.02;
       alpha := 1;
       type := type;
       hue := if is_open then PaletteController.glowHue palette
              else Z.rem (PaletteController.baseHue palette + 180) 360;
       lineWidth :=
         if is_open then 8 + intensity * 6 else 4 + intensity * 4 |} in
  {| rings := rings s ++ [ring];
     prevGestures := prevGestures s;
     lastEmitTime := lastEmitTime s |}.

(** The [map] and [filter] at the head of [_updateRings]: [alpha] is taken
    from the life the ring had before this call. *)
Definition age_rings (rs : list Ring) : list Ring :=
  filter (fun ring => Rgtb (life ring) 0)
    (map (fun ring =>
            {| x := x ring;
               y := y ring;
               radius := radius ring + speed ring;
               speed := speed ring;
               life := life ring - decay ring;
               decay := decay ring;
               alpha := Rmax 0 (life ring);
               type := type ring;
               hue := hue ring;
               lineWidth := lineWidth ring |})
       rs).

(** One iteration of [hands.hands.forEach]; the hands are those
    [HandGestureTracker.update] returned, so [extension], [gesture] and
    [indexTip] are present.  [activeHands] is the set built so far. *)
Definition ring_hand (width height now intensity : R)
  (palette : PaletteController.Theme)
  (acc : State * list string) (hand : HandGestureTracker.Hand)
  : State * list string :=
  let s := fst acc in
  let id := HandGestureTracker.handedness hand in
  let activeHands := id :: snd acc in
  let extension := HandGestureTracker.extension hand in
  let gesture := HandGestureTracker.gesture hand in
  let lastEmit :=
    match HandGestureTracker.Map_get id (lastEmitTime s) with
    | Some t => t
    | None => 0
    end in
  let emitInterval :=
    match gesture with
    | HandGestureTracker.gesture_open => 180
    | HandGestureTracker.gesture_closed => 240
    end in
  let shouldEmit := Rgtb (now - lastEmit) emitInterval in
  let tip := HandGestureTracker.indexTip hand in
  let x := Point.x tip * width in
  let y := Point.y tip * height in
  let emit (s : State) : State :=
    let s1 := _spawnRing x y gesture intensity palette s in
    {| rings := rings s1;
       prevGestures := prevGestures s1;
       lastEmitTime :=
         HandGestureTracker.Map_set id now (lastEmitTime s1) |} in
  let s1 :=
    match gesture with
    | HandGestureTracker.gesture_open => if shouldEmit then emit s else s
    | HandGestureTracker.gesture_closed =>
        if Rltb extension 0.4 && shouldEmit then emit s else s
    end in
  ({| rings := rings s1;
      prevGestures :=
        HandGestureTracker.Map_set id gesture (prevGestures s1);
      lastEmitTime := lastEmitTime s1 |},
   activeHands).

(** One iteration of the closing loop over the keys of [prevGestures]. *)
Definition forget_hand (activeHands : list string) (s : State)
  (id : string) : State :=
  if existsb (String.eqb id) activeHands then s
  else {| rings := rings s;
          prevGestures := Map_delete id (prevGestures s);
          lastEmitTime := Map_delete id (lastEmitTime s) |}.

(** [_updateRings]; [now] is the reading of [performance.now()]. *)
Definition _updateRings (width height : R)
  (hands : list HandGestureTracker.Hand) (intensity : R)
  (palette : PaletteController.Theme) (now : R) (s : State) : State :=
  let s0 := {| rings := age_rings (rings s);
               prevGestures := prevGestures s;
               lastEmitTime := lastEmitTime s |} in
  let acc :=
    fold_left (ring_hand width height now intensity palette) hands
      (s0, []) in
  fold_left (forget_hand (snd acc)) (map fst (prevGestures (fst acc)))
    (fst acc).

(** A call of [_updateRings] with its clock reading. *)
Record Call : Type := mkCall {
  width : R;
  height : R;
  hands : list HandGestureTracker.Hand;
  intensity : R;
  palette : PaletteController.Theme;
  now : R
}.

Definition step (s : State) (c : Call) : State :=
  _updateRings (width c) (height c) (hands c) (intensity c) (palette c)
    (now c) s.

Definition run (calls : list Call) (s : State) : State :=
  fold_left step calls s.

End CoolMonoScene.
(** * Specification vocabulary *)

Import AudioAnalyser.

Definition unit_interval (v : R) : Prop := 0 <= v <= 1.

Definition band_in_range (be : BandEnergy) : Prop :=
  unit_interval (low be) /\ unit_interval (mid be) /\ unit_interval (high be).

(** The instantaneous RMS and the normalized level of a frame, as [update]
    computes them. *)
Definition nextRms (f : Frame) : R :=
  sqrt (fold_left (fun acc sample => acc + sample * sample) (timeData f) 0
        / INR (length (timeData f))).

Definition normalized_level (f : Frame) : R :=
  clamp (Math_pow (nextRms f * CONFIG.levelScale) CONFIG.levelExponent) 0 1.

(** The refractory test and the tempo test of [_detectBeat]. *)
Definition refractory_ok (frameNow : R) (s : State) : bool :=
  Reqb (lastBeatTime s) 0
  || Rgtb (frameNow - lastBeatTime s) CONFIG.beatMinIntervalMs.

Definition tempo_ok (frameNow : R) (s : State) : bool :=
  Rgtb (lastBeatTime s) 0
  && Rltb (frameNow - lastBeatTime s) CONFIG.beatMaxIntervalMs.

(** The tempo written when an interval is accepted. *)
Definition next_bpm (frameNow : R) (s : State) : R :=
  let intervals :=
    push_shift CONFIG.bpmWindow (beatIntervals s)
      (frameNow - lastBeatTime s) in
  let avg := sum_list intervals / INR (length intervals) in
  let targetBpm := clamp (60000 / Rmax avg 1) 50 200 in
  if Reqb (bpm s) 0 then Math_round targetBpm
  else Math_round (lerp (bpm s) targetBpm CONFIG.bpmSmoothing).

(** The ranges of the returned snapshot. *)
Definition bpm_in_range (v : R) : Prop := v = 0 \/ 50 <= v <= 200.

Definition snapshot_in_range (o : Snapshot.t) : Prop :=
  unit_interval (Snapshot.level o)
  /\ band_in_range (Snapshot.bandEnergy o)
  /\ unit_interval (Snapshot.beatPulse o)
  /\ unit_interval (Snapshot.brightness o)
  /\ bpm_in_range (Snapshot.bpm o).

Definition buffers_within_capacity (s : State) : Prop :=
  (length (fluxHistory s) <= CONFIG.fluxHistorySize)%nat
  /\ (length (beatIntervals s) <= CONFIG.bpmWindow)%nat.

(** One push into a bounded buffer: the new entry goes to the end and, when
    the buffer was full, the oldest entry leaves. *)
Definition fifo_push (cap : nat) (old new : list R) : Prop :=
  exists v, new = if (length old <? cap)%nat then old ++ [v]
                  else tl old ++ [v].

Definition state_in_range (s : State) : Prop :=
  unit_interval (level s)
  /\ band_in_range (bandEnergy s)
  /\ unit_interval (beatPulse s)
  /\ unit_interval (brightness s)
  /\ bpm_in_range (bpm s)
  /\ buffers_within_capacity s.

(** The states the page can be in: the constructor, [init], and any number
    of ticks on buffers of the allocated sizes. *)
Inductive reachable : State -> Prop :=
| reachable_constructor : reachable constructor
| reachable_init (s : State) : reachable s -> reachable (init s)
| reachable_update (s : State) (x : Tick) :
    reachable s -> wf_tick x -> reachable (snd (update x s)).

(** Test frames of the allocated sizes: a silent time-domain buffer with
    every frequency bin at the byte [b]. *)
Definition flat_frame (b : byte) : Frame :=
  {| timeData := repeat 0 CONFIG.fftSize;
     freqData := repeat b frequencyBinCount |}.

Definition silent_tick (t : R) : Tick := mkTick (flat_frame x00) t.

Definition loud_tick (t : R) : Tick := mkTick (flat_frame xff) t.

(** [n] silent ticks, 16 ms apart, the first at [t0]. *)
Fixpoint silent_ticks (t0 : R) (n : nat) : list Tick :=
  match n with
  | O => []
  | S k => silent_tick t0 :: silent_ticks (t0 + 16) k
  end.

(** How many indices [i .. i+n-1] fall into each band. *)
Fixpoint band_counts (lowEnd midEnd i n : nat) : nat * nat * nat :=
  match n with
  | O => (O, O, O)
  | S k =>
      let '(cl, cm, ch) := band_counts lowEnd midEnd (S i) k in
      if (i <? lowEnd)%nat then (S cl, cm, ch)
      else if (i <? midEnd)%nat then (cl, S cm, ch)
      else (cl, cm, S ch)
  end.

(** The band energy of a frame whose bins all hold the byte [b]. *)
Definition flat_energy (b : byte) : R :=
  Math_pow (clamp (byte_val b / 255 * CONFIG.bandGain) 0 1)
    CONFIG.bandExponent.

(** The part of the state the beat decision of a flat frame depends on:
    the stored spectrum is flat at [sp] (or absent), and no audio activity
    has been recorded. *)
Definition flat_spectrum (sp : option R) : option (list R) :=
  option_map (fun p => repeat p frequencyBinCount) sp.

Definition tracker_state (s : State) (sp : option R) (hist : list R)
  (pf lbt : R) : Prop :=
  analyser s = true
  /\ prevSpectrum s = flat_spectrum sp
  /\ fluxHistory s = hist
  /\ prevFlux s = pf
  /\ lastBeatTime s = lbt
  /\ lastAudioActive s = 0.

Definition spectrum_nonneg (sp : option R) : Prop :=
  match sp with Some p => 0 <= p | None => True end.

(** [n] pushes of a zero flux. *)
Fixpoint zero_pushes (n : nat) (hist : list R) : list R :=
  match n with
  | O => hist
  | S k => zero_pushes k (push_shift CONFIG.fluxHistorySize hist 0)
  end.

(** Twelve silent ticks, a tick with every bin full, a silent tick, and a
    tick with every bin full again; the time-domain buffer is silent
    throughout and the ticks are 16 ms apart. *)
Definition double_beat_run : list Tick :=
  silent_ticks 3000 12
  ++ [loud_tick 3192; silent_tick 3208; loud_tick 3224].

(** Whether a tick confirms a beat, and whether it fires the silence
    reset: the reset block of [_detectBeat] runs on the state
    [update_features] leaves, when no beat was confirmed. *)
Definition beat_at (x : Tick) (s : State) : bool :=
  Snapshot.beatDetected (fst (update x s)).

Definition reset_at (x : Tick) (s : State) : bool :=
  analyser s && negb (beat_at x s)
  && reset_condition (clock x) (snd (update_features x s)).

Fixpoint no_reset (xs : list Tick) (s : State) : bool :=
  match xs with
  | [] => true
  | x :: rest => negb (reset_at x s) && no_reset rest (snd (update x s))
  end.

(** The reset condition in terms of the two time stamps. *)
Definition reset_due (t lastBeat lastActive : R) : bool :=
  (Rgtb lastBeat 0 && Rgtb (t - lastBeat) CONFIG.beatSilenceResetMs)
  || Rgtb (t - lastActive) CONFIG.beatSilenceResetMs.

(** The last audio activity as [update] has it when it calls
    [_detectBeat]: this tick counts when its level is above the floor. *)
Definition last_active (x : Tick) (s : State) : R :=
  if Rgtb (normalized_level (frame x)) 0.035 then clock x
  else lastAudioActive s.

(** The invariant that ties the tempo to its window: a tempo of 0 goes with
    an empty window. *)
Definition tempo_consistent (s : State) : Prop :=
  bpm s = 0 -> beatIntervals s = [].

(** The palette over a sequence of ticks: each entry is the argument object
    and the clock reading of one call. *)
Definition palette_run (inputs : list (PaletteController.Args * R))
  (s : PaletteController.State) : PaletteController.State :=
  fold_left (fun st i => snd (PaletteController.update (fst i) (snd i) st))
    inputs s.

(** The state of an analyser that has only seen silence: what the beat
    decision reads is at rest, the history holds no negative flux, every
    smoothed scalar is 0 and the RMS baseline has decayed [k] times. *)
Definition quiet_state (s : State) (k : nat) : Prop :=
  (exists sp hist lbt,
      tracker_state s sp hist 0 lbt /\ spectrum_nonneg sp
      /\ Forall (fun v => 0 <= v) hist)
  /\ rms s = 0 /\ level s = 0 /\ levelAverage s = 0 /\ beatPulse s = 0
  /\ bpm s = 0 /\ rmsAverage s = 0.001 * 0.95 ^ k.

(** * Further specification vocabulary *)

(** The compressed magnitudes of a frame, as [_calculateFlux] stores
    them in [prevSpectrum]. *)
Definition spectrum_of (f : Frame) : list R :=
  map stored_magnitude (freqData f).

(** The stored spectrum, when there is one, has one entry per bin, each in
    [[0,1]]. *)
Definition spectrum_ok (s : State) : Prop :=
  match prevSpectrum s with
  | None => True
  | Some prev =>
      length prev = frequencyBinCount /\ Forall unit_interval prev
  end.

(** An interval the tempo window accepts. *)
Definition plausible_interval (i : R) : Prop :=
  CONFIG.beatMinIntervalMs < i < CONFIG.beatMaxIntervalMs.

(** What holds of the analysis state in every reachable state, beside the
    ranges of [state_in_range]. *)
Definition analysis_invariant (s : State) : Prop :=
  spectrum_ok s
  /\ Forall unit_interval (fluxHistory s)
  /\ unit_interval (prevFlux s)
  /\ 0 <= rms s
  /\ 0 < rmsAverage s
  /\ unit_interval (levelAverage s)
  /\ (exists z : Z, bpm s = IZR z)
  /\ Forall plausible_interval (beatIntervals s).

(** The first world-landmark list of a pose result, when the result has a
    non-empty [worldLandmarks]. *)
Definition first_world (result : option PoseTracker.Result)
  : option (list Landmark.t) :=
  match result with
  | Some r =>
      match PoseTracker.worldLandmarks r with
      | Some (world :: _) => Some world
      | _ => None
      end
  | None => None
  end.

(** A landmark inside an axis-parallel box. *)
Definition in_box (xlo xhi ylo yhi : R) (lm : Landmark.t) : Prop :=
  xlo <= Landmark.x lm <= xhi /\ ylo <= Landmark.y lm <= yhi.

(** Test data: [n] copies of one landmark. *)
Definition flat_pose (lm : Landmark.t) (n : nat) : list Landmark.t :=
  repeat lm n.

Definition pose_result (pose : list Landmark.t)
  (world : option (list Landmark.t)) : option PoseTracker.Result :=
  Some {| PoseTracker.landmarks := Some [pose];
          PoseTracker.worldLandmarks := option_map (fun w => [w]) world |}.

(** Two landmarks of the unit square and a pose made of them. *)
Definition lm_a : Landmark.t := Landmark.mk 0.25 0.5 0.
Definition lm_b : Landmark.t := Landmark.mk 0.75 1 0.
Definition two_point_pose : list Landmark.t := [lm_a; lm_b].

(** A face result holding one face. *)
Definition face_result (face : list Landmark.t)
  : option FaceExpressionTracker.Result :=
  Some {| FaceExpressionTracker.faceLandmarks := Some [face] |}.

(** A face of 478 landmarks, all at the origin: its eyes read as closed. *)
Definition closed_face : list Landmark.t :=
  repeat (Landmark.mk 0 0 0) 478.

(** A face of 478 landmarks whose eyes are one unit wide and [v] high:
    the upper lids (159, 386) are at height [v], the outer eye corners
    (133, 263) at [x = 1], everything else at the origin. *)
Definition eye_face (v : R) : list Landmark.t :=
  map (fun i =>
         if (i =? 159)%nat || (i =? 386)%nat then Landmark.mk 0 v 0
         else if (i =? 133)%nat || (i =? 263)%nat then Landmark.mk 1 0 0
         else Landmark.mk 0 0 0)
      (seq 0 478).

(** A call of the face tracker on which the eyes read as closed. *)
Definition closed_eye_call (c : option FaceExpressionTracker.Result * R)
  : Prop :=
  exists face m,
    FaceExpressionTracker.first_face (fst c) = Some face
    /\ FaceExpressionTracker._computeMetrics face = Some m
    /\ FaceExpressionTracker.eyeOpenness m < 0.18.

(** The first theme, the one the palette starts on and falls back to. *)
Definition first_theme : option PaletteController.Theme :=
  nth_error PaletteController.COLOR_THEMES 0.

(** A loop tick on a silent frame: the clock of [update] and the clock of
    [draw]. *)
Definition silent_loop_tick (c : R * R) : LoopTick :=
  mkLoopTick (silent_tick (fst c)) (snd c).

(** ** Hands *)

(** One fading step as a specification: every life drops by 0.03 and the
    points whose life is used up are removed. *)
Definition faded (trail : list HandGestureTracker.TrailPoint)
  : list HandGestureTracker.TrailPoint :=
  filter (fun p => Rgtb (HandGestureTracker.life p) 0)
    (map (fun p =>
            HandGestureTracker.mkTrailPoint (HandGestureTracker.tx p)
              (HandGestureTracker.ty p) (HandGestureTracker.life p - 0.03))
       trail).

Definition hand_in_range (h : HandGestureTracker.Hand) : Prop :=
  0 <= HandGestureTracker.pinch h <= 1
  /\ 0 <= HandGestureTracker.spread h <= 1
  /\ 0 <= HandGestureTracker.extension h <= 1
  /\ 0 <= HandGestureTracker.speed h.

(** A trail within the configured length whose lives are positive and at
    most [b]. *)
Definition trail_ok (b : R) (trail : list HandGestureTracker.TrailPoint)
  : Prop :=
  (length trail <= CONFIG.fingerTrailLength)%nat
  /\ Forall (fun p => 0 < HandGestureTracker.life p <= b) trail.

Definition trails_ok (b : R) (paths : HandGestureTracker.Paths) : Prop :=
  Forall (fun kv => trail_ok b (snd kv)) paths.

(** Every life of every trail is at most [b]. *)
Definition lives_at_most (b : R) (paths : HandGestureTracker.Paths) : Prop :=
  Forall (fun kv =>
            Forall (fun p => HandGestureTracker.life p <= b) (snd kv))
    paths.

(** Hand [index] of a result makes [update] throw: it has fewer than nine
    landmarks, or its handedness is a name inherited from
    [Object.prototype]. *)
Definition throwing_hand (r : HandGestureTracker.Result) (index : nat)
  (landmarks : list Landmark.t) : Prop :=
  (length landmarks < 9)%nat
  \/ In (HandGestureTracker.handedness_at r index)
       HandGestureTracker.Object_prototype_keys.

(** A hand reported without motion. *)
Definition at_rest (h : HandGestureTracker.Hand) : Prop :=
  HandGestureTracker.velocity h = Point.mk 0 0
  /\ HandGestureTracker.speed h = 0.

(** The sum of the four tip-to-joint distances [_computeMetrics] adds up. *)
Definition extension_sum (landmarks : list Landmark.t) : R :=
  distance2D (point_at landmarks 8) (point_at landmarks 6)
  + distance2D (point_at landmarks 12) (point_at landmarks 10)
  + distance2D (point_at landmarks 16) (point_at landmarks 14)
  + distance2D (point_at landmarks 20) (point_at landmarks 18).

(** Test data: a hand of 21 landmarks with the wrist at the bottom, the
    four finger tips 0.2 above their joints and the thumb tip to the
    side. *)
Definition open_hand : list Landmark.t :=
  map (fun i =>
         if (i =? 0)%nat then Landmark.mk 0.5 0.9 0
         else if (i =? 4)%nat then Landmark.mk 0.2 0.3 0
         else if (i =? 8)%nat then Landmark.mk 0.5 0.3 0
         else if (i =? 6)%nat then Landmark.mk 0.5 0.5 0
         else if (i =? 12)%nat then Landmark.mk 0.55 0.3 0
         else if (i =? 10)%nat then Landmark.mk 0.55 0.5 0
         else if (i =? 16)%nat then Landmark.mk 0.6 0.3 0
         else if (i =? 14)%nat then Landmark.mk 0.6 0.5 0
         else if (i =? 20)%nat then Landmark.mk 0.7 0.3 0
         else if (i =? 18)%nat then Landmark.mk 0.7 0.5 0
         else Landmark.mk 0.5 0.7 0)
      (seq 0 21).

(** The same hand moved 0.1 to the right. *)
Definition shifted_hand : list Landmark.t :=
  map (fun l => Landmark.mk (Landmark.x l + 0.1) (Landmark.y l)
                  (Landmark.z l))
      open_hand.

(** A result holding hands without handedness entries. *)
Definition hand_result (hs : list (list Landmark.t))
  : option HandGestureTracker.Result :=
  Some {| HandGestureTracker.landmarks := Some hs;
          HandGestureTracker.res_handedness := None |}.

(** A state with one fresh point on each trail. *)
Definition one_point_state : HandGestureTracker.State :=
  {| HandGestureTracker.previousHands := [];
     HandGestureTracker.paths :=
       map (fun kv => (fst kv, [HandGestureTracker.mkTrailPoint 0.5 0.5 1]))
         (HandGestureTracker.paths HandGestureTracker.constructor) |}.

(** ** Rings *)

(** A ring as [_updateRings] keeps it: alive, fresh with full alpha or
    aged with the alpha of the call before, and decaying at the rate of
    its type. *)
Definition ring_ok (r : CoolMonoScene.Ring) : Prop :=
  0 < CoolMonoScene.life r <= 1
  /\ (CoolMonoScene.alpha r = 1 /\ CoolMonoScene.life r = 1
      \/ CoolMonoScene.alpha r = CoolMonoScene.life r + CoolMonoScene.decay r
         /\ CoolMonoScene.alpha r <= 1)
  /\ CoolMonoScene.decay r
     = match CoolMonoScene.type r with
       | HandGestureTracker.gesture_open => 0.016
       | HandGestureTracker.gesture_closed => 0.02
       end.

(** The time recorded for the last ring of a hand id. *)
Definition last_emit (id : String.string) (s : CoolMonoScene.State)
  : option R :=
  HandGestureTracker.Map_get id (CoolMonoScene.lastEmitTime s).

(** The call shows a hand with this id. *)
Definition shows_hand (id : String.string) (c : CoolMonoScene.Call) : Prop :=
  In id (map HandGestureTracker.handedness (CoolMonoScene.hands c)).

(** Test data: an open hand without handedness entry, and a call showing
    it at clock reading [t]. *)
Definition unknown_open_hand : HandGestureTracker.Hand :=
  {| HandGestureTracker.handedness :=
       HandGestureTracker.handedness_at
         {| HandGestureTracker.landmarks := None;
            HandGestureTracker.res_handedness := None |} 0;
     HandGestureTracker.pinch := 0;
     HandGestureTracker.spread := 1;
     HandGestureTracker.extension := 1;
     HandGestureTracker.gesture := HandGestureTracker.gesture_open;
     HandGestureTracker.indexTip := Point.mk 0.5 0.3;
     HandGestureTracker.thumbTip := Point.mk 0.2 0.3;
     HandGestureTracker.palmCenter := Point.mk 0.5 0.6;
     HandGestureTracker.direction := Point.mk 0 (-0.6);
     HandGestureTracker.velocity := Point.mk 0 0;
     HandGestureTracker.speed := 0;
     HandGestureTracker.rawLandmarks := open_hand |}.

Definition open_hand_call (palette : PaletteController.Theme) (t : R)
  : CoolMonoScene.Call :=
  {| CoolMonoScene.width := 1280;
     CoolMonoScene.height := 720;
     CoolMonoScene.hands := [unknown_open_hand];
     CoolMonoScene.intensity := 0.5;
     CoolMonoScene.palette := palette;
     CoolMonoScene.now := t |}.

(** The theme the palette starts on. *)
Definition start_theme : PaletteController.Theme :=
  nth 0 PaletteController.COLOR_THEMES
    (PaletteController.mkTheme String.EmptyString 0 0 0 String.EmptyString).

(** * Properties *)

(** ** Comparisons *)

Lemma Rgtb_true (x y : R) : Rgtb x y = true <-> y < x.
Proof. unfold Rgtb; destruct (Rlt_dec y x); split; (lra || discriminate). Qed.

Lemma Rgtb_false (x y : R) : Rgtb x y = false <-> x <= y.
Proof. unfold Rgtb; destruct (Rlt_dec y x); split; (lra || discriminate). Qed.

Lemma Rltb_true (x y : R) : Rltb x y = true <-> x < y.
Proof. unfold Rltb; destruct (Rlt_dec x y); split; (lra || discriminate). Qed.

Lemma Rltb_false (x y : R) : Rltb x y = false <-> y <= x.
Proof. unfold Rltb; destruct (Rlt_dec x y); split; (lra || discriminate). Qed.

Lemma Rgeb_true (x y : R) : Rgeb x y = true <-> y <= x.
Proof. unfold Rgeb; destruct (Rle_dec y x); split; (lra || discriminate). Qed.

Lemma Rgeb_false (x y : R) : Rgeb x y = false <-> x < y.
Proof. unfold Rgeb; destruct (Rle_dec y x); split; (lra || discriminate). Qed.

Lemma Reqb_true (x y : R) : Reqb x y = true <-> x = y.
Proof.
  unfold Reqb; destruct (Req_dec_T x y); split;
    (congruence || discriminate || auto).
Qed.

Lemma Reqb_false (x y : R) : Reqb x y = false <-> x <> y.
Proof.
  unfold Reqb; destruct (Req_dec_T x y); split;
    (congruence || discriminate || auto).
Qed.

(** ** Numeric helpers *)

Lemma lerp_range (lo hi a b t : R) :
  lo <= a <= hi -> lo <= b <= hi -> 0 <= t <= 1 -> lo <= lerp a b t <= hi.
Proof. unfold lerp; intros; nra. Qed.

Lemma clamp_range (v lo hi : R) : lo <= hi -> lo <= clamp v lo hi <= hi.
Proof.
  intros H; unfold clamp; split.
  - apply Rmax_l.
  - apply Rmax_lub; [exact H | apply Rmin_l].
Qed.

Lemma clamp_inside (v lo hi : R) : lo <= v <= hi -> clamp v lo hi = v.
Proof.
  intros [H1 H2]; unfold clamp.
  rewrite (Rmin_right hi v) by exact H2. now apply Rmax_right.
Qed.

Lemma clamp_above (v lo hi : R) : lo <= hi -> hi <= v -> clamp v lo hi = hi.
Proof.
  intros H1 H2; unfold clamp.
  rewrite (Rmin_left hi v) by exact H2. now apply Rmax_right.
Qed.

Lemma Math_pow_0 (y : R) : Math_pow 0 y = 0.
Proof. unfold Math_pow; destruct (Req_dec_T 0 0); [reflexivity | lra]. Qed.

Lemma Math_pow_1 (y : R) : Math_pow 1 y = 1.
Proof.
  unfold Math_pow; destruct (Req_dec_T 1 0); [lra |].
  unfold Rpower; rewrite ln_1, Rmult_0_r; apply exp_0.
Qed.

Lemma Math_pow_range (x y : R) :
  0 <= x <= 1 -> 0 < y -> 0 <= Math_pow x y <= 1.
Proof.
  intros [H0 H1] Hy; unfold Math_pow.
  destruct (Req_dec_T x 0) as [|Hx]; [lra |].
  unfold Rpower; split; [apply Rlt_le, exp_pos |].
  destruct (Req_dec_T x 1) as [->|Hx1].
  - rewrite ln_1, Rmult_0_r, exp_0; lra.
  - assert (ln x < 0) by (rewrite <- ln_1; apply ln_increasing; lra).
    rewrite <- exp_0; apply Rlt_le, exp_increasing; nra.
Qed.

Lemma Math_round_range (v : R) (lo hi : Z) :
  IZR lo <= v <= IZR hi -> IZR lo <= Math_round v <= IZR hi.
Proof.
  intros [Hlo Hhi]; unfold Math_round.
  destruct (Zfloor_bound (v + 0.5)) as [Hf1 Hf2].
  split; apply IZR_le.
  - apply Zfloor_lub; lra.
  - assert (IZR (Zfloor (v + 0.5)) < IZR (hi + 1)) as Hlt
      by (rewrite plus_IZR; lra).
    apply lt_IZR in Hlt; lia.
Qed.

(** *** Rounding to binary32 *)

Lemma Znearest_even_error (r : R) :
  - (1 / 2) <= IZR (Znearest_even r) - r <= 1 / 2.
Proof.
  unfold Znearest_even.
  pose proof (Zfloor_bound r) as [H1 H2].
  destruct (Rlt_dec (r - IZR (Zfloor r)) (1 / 2)).
  - lra.
  - destruct (Rlt_dec (1 / 2) (r - IZR (Zfloor r))).
    + rewrite plus_IZR. lra.
    + destruct (Z.even (Zfloor r)); [| rewrite plus_IZR]; lra.
Qed.

Lemma Znearest_even_IZR (n : Z) : Znearest_even (IZR n) = n.
Proof.
  unfold Znearest_even. rewrite (Zfloor_eq n (IZR n)) by lra.
  destruct (Rlt_dec (IZR n - IZR n) (1 / 2)); [reflexivity | lra].
Qed.

Lemma Znearest_even_bounds (r : R) (lo hi : Z) :
  IZR lo <= r <= IZR hi -> (lo <= Znearest_even r <= hi)%Z.
Proof.
  intros [Hlo Hhi]. pose proof (Znearest_even_error r) as He.
  assert (lo - 1 < Znearest_even r)%Z
    by (apply lt_IZR; rewrite minus_IZR; lra).
  assert (Znearest_even r < hi + 1)%Z
    by (apply lt_IZR; rewrite plus_IZR; lra).
  lia.
Qed.

Lemma powerRZ_2_pos (z : Z) : 0 < powerRZ 2 z.
Proof. apply powerRZ_lt. lra. Qed.

Lemma powerRZ_2_le (a b : Z) : (a <= b)%Z -> powerRZ 2 a <= powerRZ 2 b.
Proof.
  intros H. rewrite !powerRZ_Rpower by lra.
  apply Rle_Rpower; [lra | apply IZR_le; exact H].
Qed.

(** A positive number lies below the next power of two above its exponent. *)
Lemma binary32_exponent_upper (x : R) :
  0 < x -> x < powerRZ 2 (binary32_exponent x + 1).
Proof.
  intros Hx. unfold binary32_exponent. rewrite (Rabs_right x) by lra.
  assert (0 < ln 2) as Hln2 by (rewrite <- ln_1; apply ln_increasing; lra).
  set (L := ln x / ln 2).
  set (E := Z.max (-126) (Zfloor L)).
  pose proof (Zfloor_bound L) as [_ HL].
  assert (L < IZR (E + 1)) as HLE.
  { rewrite plus_IZR. assert (IZR (Zfloor L) <= IZR E)
      by (apply IZR_le; unfold E; lia). lra. }
  rewrite powerRZ_Rpower by lra. unfold Rpower.
  rewrite <- (exp_ln x Hx) at 1. apply exp_increasing.
  unfold L in HLE. apply (Rmult_lt_compat_r (ln 2)) in HLE; [| exact Hln2].
  unfold Rdiv in HLE. rewrite Rmult_assoc, Rinv_l in HLE by lra. lra.
Qed.

Lemma binary32_exponent_below_one (x : R) :
  0 < x < 1 -> (binary32_exponent x <= -1)%Z.
Proof.
  intros [Hx H1]. unfold binary32_exponent. rewrite (Rabs_right x) by lra.
  assert (0 < ln 2) as Hln2 by (rewrite <- ln_1; apply ln_increasing; lra).
  assert (ln x < 0) as Hln by (rewrite <- ln_1; apply ln_increasing; lra).
  assert (ln x / ln 2 < 0) as HL.
  { pose proof (Rinv_0_lt_compat (ln 2) Hln2). unfold Rdiv. nra. }
  pose proof (Zfloor_bound (ln x / ln 2)) as [Hf _].
  assert (Zfloor (ln x / ln 2) < 0)%Z by (apply lt_IZR; lra).
  lia.
Qed.

Lemma Math_fround_0 : Math_fround 0 = 0.
Proof. unfold Math_fround. destruct (Req_dec_T 0 0); [reflexivity | lra]. Qed.

Lemma Math_fround_1 : Math_fround 1 = 1.
Proof.
  unfold Math_fround. destruct (Req_dec_T 1 0); [lra |].
  assert (binary32_exponent 1 = 0%Z) as ->.
  { unfold binary32_exponent. rewrite Rabs_R1, ln_1.
    replace (0 / ln 2) with 0 by (unfold Rdiv; ring).
    rewrite (Zfloor_eq 0 0) by lra. reflexivity. }
  change (0 - 23)%Z with (-23)%Z.
  assert (powerRZ 2 (-23) = / IZR 8388608) as -> by (simpl; lra).
  replace (1 / / IZR 8388608) with (IZR 8388608) by (field; lra).
  rewrite Znearest_even_IZR. field.
Qed.

(** Rounding keeps a number of the unit interval within half a unit in the
    last place, and inside the unit interval. *)
Lemma Math_fround_unit (x : R) :
  0 <= x <= 1 ->
  0 <= Math_fround x <= 1
  /\ - powerRZ 2 (-25) <= Math_fround x - x <= powerRZ 2 (-25).
Proof.
  intros [H0 H1].
  destruct (Req_dec_T x 1) as [-> | Hn1].
  { rewrite Math_fround_1. pose proof (powerRZ_2_pos (-25)). lra. }
  unfold Math_fround. destruct (Req_dec_T x 0) as [-> | Hn0].
  { pose proof (powerRZ_2_pos (-25)). lra. }
  assert (0 < x < 1) as Hx by lra.
  pose proof (binary32_exponent_upper x ltac:(lra)) as Hup.
  pose proof (binary32_exponent_below_one x Hx) as HE.
  set (E := binary32_exponent x) in *.
  set (ulp := powerRZ 2 (E - 23)).
  assert (0 < ulp) as Hulp by apply powerRZ_2_pos.
  assert (powerRZ 2 (E + 1) = IZR 16777216 * ulp) as Hsplit.
  { unfold ulp. replace (E + 1)%Z with (24 + (E - 23))%Z by lia.
    rewrite powerRZ_add by lra. f_equal. simpl. lra. }
  assert (ulp <= powerRZ 2 (-24)) as Hulp24.
  { unfold ulp. apply powerRZ_2_le. lia. }
  assert (0 <= x / ulp <= IZR 16777216) as Hq.
  { split.
    - apply Rmult_le_pos; [lra | apply Rlt_le, Rinv_0_lt_compat; exact Hulp].
    - apply Rlt_le. apply (Rmult_lt_reg_r ulp); [exact Hulp |].
      unfold Rdiv. rewrite Rmult_assoc, Rinv_l by lra. lra. }
  pose proof (Znearest_even_bounds (x / ulp) 0 16777216 Hq) as [Hn0' Hn1'].
  pose proof (Znearest_even_error (x / ulp)) as Herr.
  set (n := Znearest_even (x / ulp)) in *.
  apply IZR_le in Hn0', Hn1'.
  assert (powerRZ 2 (E + 1) <= 1) as Hle1.
  { replace 1 with (powerRZ 2 0) by reflexivity.
    apply powerRZ_2_le. lia. }
  split.
  - split; [apply Rmult_le_pos; lra |].
    apply Rle_trans with (IZR 16777216 * ulp); [| lra].
    apply Rmult_le_compat_r; lra.
  - replace (IZR n * ulp - x) with ((IZR n - x / ulp) * ulp)
      by (field; lra).
    assert (powerRZ 2 (-25) = 1 / 2 * powerRZ 2 (-24)) as ->
      by (simpl; lra).
    assert (0 < powerRZ 2 (-24)) by apply powerRZ_2_pos.
    split; nra.
Qed.

Lemma push_shift_length (cap : nat) (arr : list R) (x : R) :
  (length arr <= cap)%nat -> (length (push_shift cap arr x) <= cap)%nat.
Proof.
  intros H; unfold push_shift.
  destruct (Nat.ltb_spec cap (length (arr ++ [x]))) as [Hlt|Hge].
  - rewrite length_app in Hlt; simpl in Hlt.
    destruct arr as [|a arr]; simpl in *; [lia |].
    rewrite length_app; simpl; lia.
  - exact Hge.
Qed.

(** The push keeps the older entries in order and evicts the oldest one
    when the buffer is full. *)
Lemma push_shift_fifo (cap : nat) (arr : list R) (x : R) :
  (0 < cap)%nat -> (length arr <= cap)%nat ->
  push_shift cap arr x
  = if (length arr <? cap)%nat then arr ++ [x] else tl arr ++ [x].
Proof.
  intros Hc H; unfold push_shift; rewrite length_app; simpl.
  destruct (Nat.ltb_spec cap (length arr + 1));
    destruct (Nat.ltb_spec (length arr) cap); try lia; try reflexivity.
  destruct arr; simpl in *; [lia | reflexivity].
Qed.

(** ** What each part of [update] writes *)

Lemma _updateBands_fields (f : Frame) (s : State) :
  let s' := _updateBands f s in
  analyser s' = analyser s /\ rms s' = rms s /\ rmsAverage s' = rmsAverage s
  /\ level s' = level s /\ levelAverage s' = levelAverage s
  /\ beatPulse s' = beatPulse s /\ brightness s' = brightness s
  /\ lastBeatTime s' = lastBeatTime s /\ beatIntervals s' = beatIntervals s
  /\ bpm s' = bpm s /\ prevSpectrum s' = prevSpectrum s
  /\ fluxHistory s' = fluxHistory s /\ prevFlux s' = prevFlux s
  /\ lastAudioActive s' = lastAudioActive s
  /\ beatDetected s' = beatDetected s.
Proof.
  unfold _updateBands.
  destruct (bands_loop _ _ _ _ _ _ _) as [[l m] h]; simpl.
  repeat split; reflexivity.
Qed.

Lemma convert_range (sum : R) (count : nat) :
  0 <= convert sum count <= 1.
Proof.
  unfold convert. apply Math_pow_range.
  - apply clamp_range; lra.
  - unfold CONFIG.bandExponent; lra.
Qed.

Lemma _updateBands_range (f : Frame) (s : State) :
  band_in_range (bandEnergy (_updateBands f s)).
Proof.
  unfold _updateBands.
  destruct (bands_loop _ _ _ _ _ _ _) as [[l m] h]; simpl.
  repeat split; apply convert_range.
Qed.

Lemma _updateBrightness_fields (s : State) :
  let s' := _updateBrightness s in
  unit_interval (brightness s')
  /\ analyser s' = analyser s
  /\ rms s' = rms s
  /\ rmsAverage s' = rmsAverage s
  /\ level s' = level s
  /\ levelAverage s' = levelAverage s
  /\ beatPulse s' = beatPulse s
  /\ lastBeatTime s' = lastBeatTime s
  /\ beatIntervals s' = beatIntervals s
  /\ bpm s' = bpm s
  /\ bandEnergy s' = bandEnergy s
  /\ prevSpectrum s' = prevSpectrum s
  /\ fluxHistory s' = fluxHistory s
  /\ prevFlux s' = prevFlux s
  /\ lastAudioActive s' = lastAudioActive s
  /\ beatDetected s' = beatDetected s.
Proof.
  unfold _updateBrightness. destruct (bandEnergy s) as [l m h] eqn:E; simpl.
  split; [apply clamp_range; lra |].
  rewrite E; repeat split; reflexivity.
Qed.

Lemma _calculateFlux_fields (f : Frame) (s : State) :
  let s' := snd (_calculateFlux f s) in
  analyser s' = analyser s
  /\ rms s' = rms s
  /\ rmsAverage s' = rmsAverage s
  /\ level s' = level s
  /\ levelAverage s' = levelAverage s
  /\ beatPulse s' = beatPulse s
  /\ brightness s' = brightness s
  /\ lastBeatTime s' = lastBeatTime s
  /\ beatIntervals s' = beatIntervals s
  /\ bpm s' = bpm s
  /\ bandEnergy s' = bandEnergy s
  /\ fluxHistory s' = fluxHistory s
  /\ prevFlux s' = prevFlux s
  /\ lastAudioActive s' = lastAudioActive s
  /\ beatDetected s' = beatDetected s.
Proof.
  unfold _calculateFlux. destruct (prevSpectrum s) as [prev|]; simpl.
  - destruct (flux_loop _ _ _) as [fl st]; simpl. repeat split; reflexivity.
  - repeat split; reflexivity.
Qed.

Lemma _updateFluxHistory_spec (fl : R) (s : State) :
  let r := _updateFluxHistory fl s in
  fst (fst r) = flux_threshold (fluxHistory s)
  /\ snd (fst r) = match fst (fst r) with None => 0 | Some t => fl - t end
  /\ fluxHistory (snd r) = push_shift CONFIG.fluxHistorySize (fluxHistory s) fl
  /\ analyser (snd r) = analyser s
  /\ rms (snd r) = rms s
  /\ rmsAverage (snd r) = rmsAverage s
  /\ level (snd r) = level s
  /\ levelAverage (snd r) = levelAverage s
  /\ beatPulse (snd r) = beatPulse s
  /\ brightness (snd r) = brightness s
  /\ lastBeatTime (snd r) = lastBeatTime s
  /\ beatIntervals (snd r) = beatIntervals s
  /\ bpm (snd r) = bpm s
  /\ bandEnergy (snd r) = bandEnergy s
  /\ prevSpectrum (snd r) = prevSpectrum s
  /\ prevFlux (snd r) = prevFlux s
  /\ lastAudioActive (snd r) = lastAudioActive s
  /\ beatDetected (snd r) = beatDetected s.
Proof. unfold _updateFluxHistory; simpl. repeat split; reflexivity. Qed.

Lemma _updateBands_frame (f : Frame) (s1 s2 : State) :
  bandEnergy (_updateBands f s1) = bandEnergy (_updateBands f s2).
Proof.
  unfold _updateBands.
  destruct (bands_loop _ _ _ _ _ _ _) as [[l m] h]; reflexivity.
Qed.

Lemma _calculateFlux_frame (f : Frame) (s1 s2 : State) :
  prevSpectrum s1 = prevSpectrum s2 ->
  fst (_calculateFlux f s1) = fst (_calculateFlux f s2)
  /\ prevSpectrum (snd (_calculateFlux f s1))
     = prevSpectrum (snd (_calculateFlux f s2)).
Proof.
  intros E; unfold _calculateFlux; rewrite E.
  destruct (prevSpectrum s2) as [prev|]; simpl.
  - destruct (flux_loop _ _ _) as [fl st]; simpl; auto.
  - auto.
Qed.

Lemma normalized_level_range (f : Frame) : unit_interval (normalized_level f).
Proof. apply clamp_range; lra. Qed.

(** Every field of the state [update_features] leaves, and the values it
    hands to [_detectBeat]. *)
Lemma update_features_spec (x : Tick) (s : State) (ft : Features)
  (s' : State) :
  update_features x s = (ft, s') ->
  analyser s' = analyser s
  /\ normalized ft = normalized_level (frame x)
  /\ flux ft = fst (_calculateFlux (frame x) s)
  /\ fluxThreshold ft = flux_threshold (fluxHistory s)
  /\ fluxDelta ft
     = match fluxThreshold ft with
       | None => 0
       | Some t => flux ft - t
       end
  /\ rms s' = lerp (rms s) (nextRms (frame x)) 0.22
  /\ rmsAverage s' = lerp (rmsAverage s) (nextRms (frame x)) 0.05
  /\ level s' = lerp (level s) (normalized ft) 0.4
  /\ levelAverage s' = lerp (levelAverage s) (normalized ft) 0.06
  /\ bandEnergy s' = bandEnergy (_updateBands (frame x) s)
  /\ unit_interval (brightness s')
  /\ brightness s' = brightness (_updateBrightness (_updateBands (frame x) s))
  /\ beatPulse s'
     = lerp (beatPulse s)
         (clamp
            (Rmax 0 (normalized ft - levelAverage s' * 1.01)
               * CONFIG.beatDeltaGain
             + Rmax 0 (fluxDelta ft) * CONFIG.fluxPulseGain
             + normalized ft
               * (low (bandEnergy s') * 0.24 + mid (bandEnergy s') * 0.18
                  + high (bandEnergy s') * 0.12)) 0 1) 0.36
  /\ lastBeatTime s' = lastBeatTime s
  /\ beatIntervals s' = beatIntervals s
  /\ bpm s' = bpm s
  /\ prevFlux s' = prevFlux s
  /\ prevSpectrum s' = prevSpectrum (snd (_calculateFlux (frame x) s))
  /\ fluxHistory s'
     = push_shift CONFIG.fluxHistorySize (fluxHistory s) (flux ft)
  /\ lastAudioActive s'
     = (if Rgtb (normalized ft) 0.035 then clock x else lastAudioActive s)
  /\ beatDetected s' = beatDetected s.
Proof.
  unfold update_features. intros E.
  fold (nextRms (frame x)) in E. fold (normalized_level (frame x)) in E.
  pose proof (normalized_level_range (frame x)) as Hnrm.
  remember (normalized_level (frame x)) as nrm eqn:Enrm.
  remember (nextRms (frame x)) as nr eqn:Enr.
  match type of E with context [_updateBands ?f ?s0] =>
    pose proof (_updateBands_fields f s0) as Hub;
    pose proof (_updateBands_frame f s0 s) as Hbe;
    set (sa := _updateBands f s0) in * end.
  cbv zeta in Hub; simpl in Hub. clearbody sa.
  pose proof (_updateBrightness_fields sa) as Hbr.
  assert (brightness (_updateBrightness sa)
          = brightness (_updateBrightness (_updateBands (frame x) s)))
    as Hbb.
  { unfold _updateBrightness. rewrite Hbe.
    destruct (bandEnergy (_updateBands (frame x) s)); reflexivity. }
  set (sb := _updateBrightness sa) in *.
  cbv zeta in Hbr. clearbody sb.
  match type of E with context [_calculateFlux ?f ?s0] =>
    pose proof (_calculateFlux_fields f s0) as Hcf;
    pose proof (_calculateFlux_frame f s0 s) as Hcs;
    destruct (_calculateFlux f s0) as [fl s6] end.
  pose proof (_updateFluxHistory_spec fl s6) as Huf.
  destruct (_updateFluxHistory fl s6) as [[thr dl] s7].
  inversion E; subst ft s'; clear E.
  cbv zeta in Hcf, Huf. cbn [fst snd] in Hcf, Huf, Hcs.
  cbn [normalized flux fluxThreshold fluxDelta].
  destruct (Rgtb nrm 0.035); simpl in Hcf, Hcs |- *;
    decompose record Hub; decompose record Hbr; decompose record Hcf;
    decompose record Huf; clear Hub Hbr Hcf Huf;
    (destruct Hcs as [Hc1 Hc2]; [congruence |]);
    repeat match goal with |- _ /\ _ => split end;
    try assumption; try congruence.
Qed.

(** ** [_detectBeat] *)

Lemma _detectBeat_fields (lv fl : R) (thr : option R) (dl : R)
  (be : BandEnergy) (now : R) (s : State) :
  let s' := snd (_detectBeat lv fl thr dl be now s) in
  prevFlux s' = fl
  /\ analyser s' = analyser s
  /\ rms s' = rms s
  /\ rmsAverage s' = rmsAverage s
  /\ level s' = level s
  /\ levelAverage s' = levelAverage s
  /\ beatPulse s' = beatPulse s
  /\ brightness s' = brightness s
  /\ bandEnergy s' = bandEnergy s
  /\ prevSpectrum s' = prevSpectrum s
  /\ fluxHistory s' = fluxHistory s
  /\ lastAudioActive s' = lastAudioActive s
  /\ beatDetected s' = beatDetected s.
Proof.
  unfold _detectBeat.
  destruct (onset_candidate lv fl thr dl be s);
    [destruct (Reqb (lastBeatTime s) 0
               || Rgtb (now - lastBeatTime s) CONFIG.beatMinIntervalMs);
     [destruct (Rgtb (lastBeatTime s) 0
                && Rltb (now - lastBeatTime s) CONFIG.beatMaxIntervalMs)|]|];
    cbn [negb]; try destruct (reset_condition now s);
    cbn; repeat split; reflexivity.
Qed.

Lemma _detectBeat_detected (lv fl : R) (thr : option R) (dl : R)
  (be : BandEnergy) (now : R) (s : State) :
  fst (_detectBeat lv fl thr dl be now s)
  = onset_candidate lv fl thr dl be s && refractory_ok now s.
Proof.
  unfold _detectBeat, refractory_ok.
  destruct (onset_candidate lv fl thr dl be s); [|reflexivity].
  destruct (Reqb (lastBeatTime s) 0
            || Rgtb (now - lastBeatTime s) CONFIG.beatMinIntervalMs);
    reflexivity.
Qed.

(** A confirmed beat: [lastBeatTime] is the tick time; the interval enters
    the window and the tempo is updated exactly when [tempo_ok] holds. *)
Lemma _detectBeat_confirmed (lv fl : R) (thr : option R) (dl : R)
  (be : BandEnergy) (now : R) (s : State) :
  fst (_detectBeat lv fl thr dl be now s) = true ->
  let s' := snd (_detectBeat lv fl thr dl be now s) in
  lastBeatTime s' = now
  /\ beatIntervals s'
     = (if tempo_ok now s
        then push_shift CONFIG.bpmWindow (beatIntervals s)
               (now - lastBeatTime s)
        else beatIntervals s)
  /\ bpm s' = (if tempo_ok now s then next_bpm now s else bpm s).
Proof.
  unfold _detectBeat, tempo_ok, next_bpm.
  destruct (onset_candidate lv fl thr dl be s); [|discriminate].
  destruct (Reqb (lastBeatTime s) 0
            || Rgtb (now - lastBeatTime s) CONFIG.beatMinIntervalMs);
    [|discriminate].
  intros _.
  destruct (Rgtb (lastBeatTime s) 0
            && Rltb (now - lastBeatTime s) CONFIG.beatMaxIntervalMs);
    cbn; repeat split; reflexivity.
Qed.

(** No beat on this tick: the three tempo fields are zeroed when the reset
    condition holds and kept otherwise. *)
Lemma _detectBeat_unconfirmed (lv fl : R) (thr : option R) (dl : R)
  (be : BandEnergy) (now : R) (s : State) :
  fst (_detectBeat lv fl thr dl be now s) = false ->
  let s' := snd (_detectBeat lv fl thr dl be now s) in
  if reset_condition now s
  then beatIntervals s' = [] /\ lastBeatTime s' = 0 /\ bpm s' = 0
  else beatIntervals s' = beatIntervals s
       /\ lastBeatTime s' = lastBeatTime s /\ bpm s' = bpm s.
Proof.
  unfold _detectBeat.
  destruct (onset_candidate lv fl thr dl be s);
    [destruct (Reqb (lastBeatTime s) 0
               || Rgtb (now - lastBeatTime s) CONFIG.beatMinIntervalMs);
     [discriminate|]|];
    intros _; cbn [negb fst snd]; destruct (reset_condition now s);
    cbn; repeat split; reflexivity.
Qed.

(** ** [update] *)

Lemma update_uninitialised (x : Tick) (s : State) :
  analyser s = false -> update x s = (_emptyState, s).
Proof. intros H; unfold update; rewrite H; reflexivity. Qed.

(** With an analyser, [update] is [update_features], then [_detectBeat],
    then the boost of the pulse; the snapshot reads the fields of the state
    it leaves. *)
Lemma update_fields (x : Tick) (s : State) (ft : Features) (s1 : State)
  (d : bool) (s2 : State) :
  analyser s = true ->
  update_features x s = (ft, s1) ->
  _detectBeat (normalized ft) (flux ft) (fluxThreshold ft) (fluxDelta ft)
    (bandEnergy s1) (clock x) s1 = (d, s2) ->
  let o := fst (update x s) in
  let s' := snd (update x s) in
  Snapshot.beatDetected o = d
  /\ beatDetected s' = d
  /\ beatPulse s' = (if d then Rmin 1 (beatPulse s2 + 0.34) else beatPulse s2)
  /\ Snapshot.frequencies o = frequencies (frame x)
  /\ Snapshot.rms o = rms s'
  /\ Snapshot.rmsAverage o = rmsAverage s'
  /\ Snapshot.level o = level s'
  /\ Snapshot.beatPulse o = beatPulse s'
  /\ Snapshot.brightness o = brightness s'
  /\ Snapshot.bpm o = bpm s'
  /\ Snapshot.bandEnergy o = bandEnergy s'
  /\ analyser s' = analyser s2
  /\ rms s' = rms s2
  /\ rmsAverage s' = rmsAverage s2
  /\ level s' = level s2
  /\ levelAverage s' = levelAverage s2
  /\ brightness s' = brightness s2
  /\ lastBeatTime s' = lastBeatTime s2
  /\ beatIntervals s' = beatIntervals s2
  /\ bpm s' = bpm s2
  /\ bandEnergy s' = bandEnergy s2
  /\ prevSpectrum s' = prevSpectrum s2
  /\ fluxHistory s' = fluxHistory s2
  /\ prevFlux s' = prevFlux s2
  /\ lastAudioActive s' = lastAudioActive s2.
Proof.
  intros Ha E1 E2; unfold update; rewrite Ha; cbn [negb].
  rewrite E1, E2. destruct d; cbn; repeat split; reflexivity.
Qed.

(** ** Ranges and capacities *)

Lemma next_bpm_range (now : R) (s : State) :
  bpm_in_range (bpm s) -> 50 <= next_bpm now s <= 200.
Proof.
  intros Hb; unfold next_bpm.
  match goal with |- context [clamp ?v 50 200] =>
    pose proof (clamp_range v 50 200 ltac:(lra)) as Ht;
    set (targetBpm := clamp v 50 200) in * end.
  destruct (Reqb (bpm s) 0) eqn:E.
  - apply (Math_round_range _ 50 200); exact Ht.
  - apply Reqb_false in E. destruct Hb as [Hb|Hb]; [contradiction|].
    apply (Math_round_range _ 50 200).
    apply lerp_range; [exact Hb | exact Ht | unfold CONFIG.bpmSmoothing; lra].
Qed.

Lemma state_in_range_constructor : state_in_range constructor.
Proof.
  unfold state_in_range, band_in_range, unit_interval, bpm_in_range,
    buffers_within_capacity; simpl.
  repeat split; try lra; try (left; reflexivity);
    try (unfold CONFIG.fluxHistorySize, CONFIG.bpmWindow; lia).
Qed.

Lemma snapshot_in_range_empty : snapshot_in_range _emptyState.
Proof.
  unfold snapshot_in_range, band_in_range, unit_interval, bpm_in_range;
    simpl.
  repeat split; try lra; left; reflexivity.
Qed.

(** The decomposition of one tick with an analyser, used by the proofs
    below: the features, the state before [_detectBeat], its verdict and the
    state after it, with the facts about each. *)
Ltac tick_cases x s Ha :=
  let ft := fresh "ft" in
  let s1 := fresh "s1" in
  let d := fresh "d" in
  let s2 := fresh "s2" in
  let E1 := fresh "E1" in
  let E2 := fresh "E2" in
  let Hft := fresh "Hft" in
  let Hup := fresh "Hup" in
  let Hdf := fresh "Hdf" in
  let Hdd := fresh "Hdd" in
  destruct (update_features x s) as [ft s1] eqn:E1;
  pose proof (update_features_spec _ _ _ _ E1) as Hft;
  pose proof (_detectBeat_fields (normalized ft) (flux ft) (fluxThreshold ft)
                (fluxDelta ft) (bandEnergy s1) (clock x) s1) as Hdf;
  pose proof (_detectBeat_detected (normalized ft) (flux ft)
                (fluxThreshold ft) (fluxDelta ft) (bandEnergy s1)
                (clock x) s1) as Hdd;
  pose proof (_detectBeat_confirmed (normalized ft) (flux ft)
                (fluxThreshold ft) (fluxDelta ft) (bandEnergy s1)
                (clock x) s1) as Hconf;
  pose proof (_detectBeat_unconfirmed (normalized ft) (flux ft)
                (fluxThreshold ft) (fluxDelta ft) (bandEnergy s1)
                (clock x) s1) as Hunc;
  destruct (_detectBeat (normalized ft) (flux ft) (fluxThreshold ft)
              (fluxDelta ft) (bandEnergy s1) (clock x) s1)
    as [d s2] eqn:E2;
  pose proof (update_fields x s ft s1 d s2 Ha E1 E2) as Hup;
  cbv zeta in Hdf, Hup, Hconf, Hunc; cbn [fst snd] in Hdf, Hdd, Hconf, Hunc.

Lemma update_in_range (x : Tick) (s : State) :
  state_in_range s ->
  snapshot_in_range (fst (update x s)) /\ state_in_range (snd (update x s)).
Proof.
  intros Hs. destruct (analyser s) eqn:Ha.
  2:{ rewrite (update_uninitialised x s Ha); simpl.
      split; [apply snapshot_in_range_empty | exact Hs]. }
  tick_cases x s Ha.
  destruct Hs as (Hlv & Hbe & Hbp & Hbr & Hbpm & Hfh & Hbi).
  decompose record Hft; decompose record Hdf; decompose record Hup.
  clear Hft Hdf Hup.
  assert (unit_interval (normalized ft)) as Hn
    by (replace (normalized ft) with (normalized_level (frame x));
        apply clamp_range; lra).
  assert (unit_interval (level (snd (update x s)))) as G1.
  { replace (level (snd (update x s))) with (level s1) by congruence.
    replace (level s1) with (lerp (level s) (normalized ft) 0.4).
    apply lerp_range; [exact Hlv | exact Hn | lra]. }
  assert (band_in_range (bandEnergy (snd (update x s)))) as G2.
  { replace (bandEnergy (snd (update x s)))
      with (bandEnergy (_updateBands (frame x) s)) by congruence.
    apply _updateBands_range. }
  assert (unit_interval (beatPulse s2)) as Hp2.
  { replace (beatPulse s2) with (beatPulse s1) by congruence.
    match goal with H : beatPulse s1 = _ |- _ => rewrite H end.
    apply lerp_range; [exact Hbp | apply clamp_range; lra | lra]. }
  assert (unit_interval (beatPulse (snd (update x s)))) as G3.
  { match goal with H : beatPulse (snd (update x s)) = _ |- _ =>
      rewrite H end.
    destruct d; [|exact Hp2].
    unfold unit_interval in *; unfold Rmin;
      destruct (Rle_dec 1 (beatPulse s2 + 0.34)); lra. }
  assert (unit_interval (brightness (snd (update x s)))) as G4.
  { replace (brightness (snd (update x s))) with (brightness s1)
      by congruence. assumption. }
  assert (bpm_in_range (bpm s1)) as Hb1
    by (replace (bpm s1) with (bpm s); assumption).
  assert (bpm_in_range (bpm (snd (update x s)))) as G5.
  { replace (bpm (snd (update x s))) with (bpm s2) by congruence.
    destruct d.
    - destruct (Hconf eq_refl) as (_ & _ & Hb). rewrite Hb.
      destruct (tempo_ok (clock x) s1); [|exact Hb1].
      right; apply next_bpm_range; exact Hb1.
    - specialize (Hunc eq_refl).
      destruct (reset_condition (clock x) s1).
      + left; apply Hunc.
      + destruct Hunc as (_ & _ & Hb); rewrite Hb; exact Hb1. }
  assert (buffers_within_capacity (snd (update x s))) as G6.
  { split.
    - replace (fluxHistory (snd (update x s))) with (fluxHistory s1)
        by congruence.
      match goal with H : fluxHistory s1 = _ |- _ => rewrite H end.
      apply push_shift_length; exact Hfh.
    - replace (beatIntervals (snd (update x s))) with (beatIntervals s2)
        by congruence.
      assert (length (beatIntervals s1) <= CONFIG.bpmWindow)%nat as Hb
        by (replace (beatIntervals s1) with (beatIntervals s); assumption).
      destruct d.
      + destruct (Hconf eq_refl) as (_ & Hi & _). rewrite Hi.
        destruct (tempo_ok (clock x) s1); [|exact Hb].
        apply push_shift_length; exact Hb.
      + specialize (Hunc eq_refl).
        destruct (reset_condition (clock x) s1).
        * destruct Hunc as (Hi & _); rewrite Hi; simpl; lia.
        * destruct Hunc as (Hi & _); rewrite Hi; exact Hb. }
  split.
  - unfold snapshot_in_range.
    repeat match goal with
           | H : Snapshot.level _ = _ |- _ => rewrite H; clear H
           | H : Snapshot.bandEnergy _ = _ |- _ => rewrite H; clear H
           | H : Snapshot.beatPulse _ = _ |- _ => rewrite H; clear H
           | H : Snapshot.brightness _ = _ |- _ => rewrite H; clear H
           | H : Snapshot.bpm _ = _ |- _ => rewrite H; clear H
           end.
    repeat split; assumption || apply G1 || apply G2 || apply G3 || apply G4.
  - repeat split; assumption || apply G1 || apply G2 || apply G3
                  || apply G4 || apply G6.
Qed.

Lemma reachable_in_range (s : State) : reachable s -> state_in_range s.
Proof.
  induction 1 as [|s Hr IH|s x Hr IH Hx].
  - apply state_in_range_constructor.
  - exact IH.
  - apply update_in_range; exact IH.
Qed.

Lemma wf_flat_frame (b : byte) : wf_frame (flat_frame b).
Proof.
  split; unfold flat_frame; cbn [timeData freqData]; apply repeat_length.
Qed.

(** What one tick does to the two bounded buffers. *)
Lemma update_buffers (x : Tick) (s : State) :
  buffers_within_capacity s ->
  (fluxHistory (snd (update x s)) = fluxHistory s
   \/ fifo_push CONFIG.fluxHistorySize (fluxHistory s)
        (fluxHistory (snd (update x s))))
  /\ (beatIntervals (snd (update x s)) = beatIntervals s
      \/ beatIntervals (snd (update x s)) = []
      \/ fifo_push CONFIG.bpmWindow (beatIntervals s)
           (beatIntervals (snd (update x s)))).
Proof.
  intros [Hfh Hbi]. destruct (analyser s) eqn:Ha.
  2:{ rewrite (update_uninitialised x s Ha); simpl; auto. }
  tick_cases x s Ha.
  decompose record Hft; decompose record Hdf; decompose record Hup.
  clear Hft Hdf Hup. split.
  - right. exists (flux ft).
    replace (fluxHistory (snd (update x s))) with (fluxHistory s1)
      by congruence.
    match goal with H : fluxHistory s1 = _ |- _ => rewrite H end.
    apply push_shift_fifo; [unfold CONFIG.fluxHistorySize; lia | exact Hfh].
  - replace (beatIntervals (snd (update x s))) with (beatIntervals s2)
      by congruence.
    assert (beatIntervals s1 = beatIntervals s) as Hi1 by assumption.
    destruct d.
    + destruct (Hconf eq_refl) as (_ & Hi & _). rewrite Hi.
      destruct (tempo_ok (clock x) s1); [|left; exact Hi1].
      right; right. exists (clock x - lastBeatTime s1). rewrite Hi1.
      apply push_shift_fifo; [unfold CONFIG.bpmWindow; lia | exact Hbi].
    + specialize (Hunc eq_refl).
      destruct (reset_condition (clock x) s1).
      * right; left; apply Hunc.
      * left. destruct Hunc as (Hi & _); congruence.
Qed.

(** C1.  On every tick reached from the constructed analyser through
    frames of the allocated sizes, the returned [level], the three band
    energies, [beatPulse] and [brightness] lie in [[0,1]], [bpm] is [0] or
    lies in [[50,200]], and [fluxHistory] and [beatIntervals] stay within
    128 and 12 entries; each is left alone, emptied (the intervals, on a
    reset) or pushed to at the end with the oldest entry evicted when
    full. *)
Theorem update_ranges_and_capacities (s : State) (x : Tick) :
  reachable s -> wf_tick x ->
  snapshot_in_range (fst (update x s))
  /\ buffers_within_capacity (snd (update x s))
  /\ (fluxHistory (snd (update x s)) = fluxHistory s
      \/ fifo_push CONFIG.fluxHistorySize (fluxHistory s)
           (fluxHistory (snd (update x s))))
  /\ (beatIntervals (snd (update x s)) = beatIntervals s
      \/ beatIntervals (snd (update x s)) = []
      \/ fifo_push CONFIG.bpmWindow (beatIntervals s)
           (beatIntervals (snd (update x s)))).
Proof.
  intros Hr _. pose proof (reachable_in_range s Hr) as Hs.
  destruct (update_in_range x s Hs) as [Ho Hs'].
  split; [exact Ho |]. split; [apply Hs' |].
  apply update_buffers, Hs.
Qed.

Lemma update_ranges_and_capacities_witness :
  reachable (init constructor) /\ wf_tick (silent_tick 16)
  /\ snapshot_in_range (fst (update (silent_tick 16) (init constructor)))
  /\ buffers_within_capacity
       (snd (update (silent_tick 16) (init constructor))).
Proof.
  assert (reachable (init constructor)) as Hr
    by (apply reachable_init, reachable_constructor).
  assert (wf_tick (silent_tick 16)) as Hw by apply wf_flat_frame.
  split; [exact Hr |]. split; [exact Hw |].
  destruct (update_ranges_and_capacities (init constructor) (silent_tick 16)
              Hr Hw) as (H1 & H2 & _).
  split; [exact H1 | exact H2].
Defined.

(** ** Runs *)

Lemma run_app (xs ys : list Tick) (s : State) :
  run (xs ++ ys) s
  = (fst (run xs s) ++ fst (run ys (snd (run xs s))),
     snd (run ys (snd (run xs s)))).
Proof.
  revert s; induction xs as [|x xs IH]; intros s; simpl.
  - destruct (run ys s); reflexivity.
  - destruct (update x s) as [o s1]. rewrite IH.
    destruct (run xs s1) as [os s2]; simpl. reflexivity.
Qed.

Lemma final_app (xs ys : list Tick) (s : State) :
  final (xs ++ ys) s = final ys (final xs s).
Proof. unfold final; rewrite run_app; reflexivity. Qed.

Lemma outputs_app (xs ys : list Tick) (s : State) :
  outputs (xs ++ ys) s = outputs xs s ++ outputs ys (final xs s).
Proof. unfold outputs, final; rewrite run_app; reflexivity. Qed.

Lemma final_cons (x : Tick) (xs : list Tick) (s : State) :
  final (x :: xs) s = final xs (snd (update x s)).
Proof.
  unfold final; simpl. destruct (update x s) as [o s1]; cbn [snd].
  destruct (run xs s1); reflexivity.
Qed.

Lemma outputs_cons (x : Tick) (xs : list Tick) (s : State) :
  outputs (x :: xs) s = fst (update x s) :: outputs xs (snd (update x s)).
Proof.
  unfold outputs; simpl. destruct (update x s) as [o s1]; cbn [fst snd].
  destruct (run xs s1); reflexivity.
Qed.

Lemma update_analyser (x : Tick) (s : State) :
  analyser (snd (update x s)) = analyser s.
Proof.
  destruct (analyser s) eqn:Ha.
  - tick_cases x s Ha.
    decompose record Hft; decompose record Hdf; decompose record Hup.
    congruence.
  - rewrite (update_uninitialised x s Ha); exact Ha.
Qed.

(** ** The flux history and the adaptive threshold *)

Lemma push_shift_length_eq (cap : nat) (arr : list R) (x : R) :
  (length arr <= cap)%nat ->
  length (push_shift cap arr x) = Nat.min (length arr + 1) cap.
Proof.
  intros H; unfold push_shift.
  assert (length (arr ++ [x]) = length arr + 1)%nat as Hl
    by (rewrite length_app; reflexivity).
  destruct (Nat.ltb_spec cap (length (arr ++ [x]))) as [Hlt|Hge].
  - destruct arr as [|a arr]; cbn [length tl app] in *; [lia |].
    rewrite length_app in *; cbn [length] in *; lia.
  - lia.
Qed.

Lemma update_fluxHistory (x : Tick) (s : State) :
  analyser s = true ->
  fluxHistory (snd (update x s))
  = push_shift CONFIG.fluxHistorySize (fluxHistory s)
      (flux (fst (update_features x s))).
Proof.
  intros Ha. tick_cases x s Ha.
  decompose record Hft; decompose record Hdf; decompose record Hup.
  cbn [fst]; congruence.
Qed.

Lemma final_fluxHistory_length (xs : list Tick) (s : State) :
  analyser s = true ->
  (length (fluxHistory s) <= CONFIG.fluxHistorySize)%nat ->
  length (fluxHistory (final xs s))
  = Nat.min (length (fluxHistory s) + length xs) CONFIG.fluxHistorySize.
Proof.
  revert s; induction xs as [|x xs IH]; intros s Ha Hl.
  - unfold final; simpl; lia.
  - rewrite final_cons, IH.
    + rewrite (update_fluxHistory x s Ha), push_shift_length_eq by exact Hl.
      simpl; lia.
    + rewrite update_analyser; exact Ha.
    + rewrite (update_fluxHistory x s Ha). apply push_shift_length; exact Hl.
Qed.

Lemma flux_threshold_undefined (history : list R) :
  flux_threshold history = None
  <-> (length history < CONFIG.fluxMinWindow)%nat.
Proof.
  unfold flux_threshold, CONFIG.fluxMinWindow, CONFIG.fluxWindow.
  destruct (Nat.leb_spec 12 (Nat.min (length history) 24)) as [H|H];
    split; intros H'; try discriminate; try reflexivity; lia.
Qed.

(** The history and the threshold on the tick that follows [xs]. *)
Lemma threshold_warmup_facts (xs : list Tick) (x : Tick) :
  let s := final xs (init constructor) in
  let r := update_features x s in
  (length xs < CONFIG.fluxHistorySize)%nat ->
  length (fluxHistory (snd r)) = S (length xs)
  /\ (fluxThreshold (fst r) = None
      <-> (length xs < CONFIG.fluxMinWindow)%nat).
Proof.
  intros s r Hlen. subst r.
  destruct (update_features x s) as [ft' s'] eqn:E.
  pose proof (update_features_spec _ _ _ _ E) as Hft.
  decompose record Hft; clear Hft. cbn [fst snd].
  assert (length (fluxHistory s) = length xs) as Hl.
  { subst s. rewrite final_fluxHistory_length;
      [| reflexivity | simpl; unfold CONFIG.fluxHistorySize; lia].
    simpl. unfold CONFIG.fluxHistorySize in *. lia. }
  split.
  - match goal with H : fluxHistory s' = _ |- _ => rewrite H end.
    rewrite push_shift_length_eq; unfold CONFIG.fluxHistorySize in *; lia.
  - match goal with H : fluxThreshold ft' = _ |- _ => rewrite H end.
    rewrite flux_threshold_undefined, Hl. reflexivity.
Qed.

(** C3, as the code has it.  The threshold of a tick is computed from the
    history as it stands before that tick's flux is pushed.  Counting from
    the initialised analyser, it is undefined exactly on the ticks that
    fewer than [fluxMinWindow] = 12 ticks precede (the first twelve), with
    [delta] reported as 0 there, and defined on every later tick. *)
Theorem threshold_defined_after_warmup (xs : list Tick) (x : Tick) :
  let s := final xs (init constructor) in
  let ft := fst (update_features x s) in
  fluxThreshold ft = flux_threshold (fluxHistory s)
  /\ fluxHistory (snd (update_features x s))
     = push_shift CONFIG.fluxHistorySize (fluxHistory s) (flux ft)
  /\ (fluxThreshold ft = None <-> (length xs < CONFIG.fluxMinWindow)%nat)
  /\ (fluxThreshold ft = None -> fluxDelta ft = 0).
Proof.
  intros s ft.
  destruct (update_features x s) as [ft' s'] eqn:E.
  pose proof (update_features_spec _ _ _ _ E) as Hft.
  decompose record Hft; clear Hft. subst ft; cbn [fst snd].
  split; [assumption |]. split; [assumption |]. split.
  - match goal with H : fluxThreshold ft' = _ |- _ => rewrite H end.
    rewrite flux_threshold_undefined. subst s.
    rewrite final_fluxHistory_length;
      [| reflexivity | simpl; unfold CONFIG.fluxHistorySize; lia].
    simpl. unfold CONFIG.fluxHistorySize, CONFIG.fluxMinWindow. lia.
  - intros Hn.
    match goal with H : fluxDelta ft' = _ |- _ => rewrite H end.
    rewrite Hn; reflexivity.
Qed.

(** C3, as stated, fails on the twelfth tick: counting that tick's own, 12
    flux samples have been observed, and the threshold is still
    undefined. *)
Lemma threshold_undefined_on_twelfth_tick :
  let s := final (silent_ticks 16 11) (init constructor) in
  let r := update_features (silent_tick 192) s in
  length (fluxHistory (snd r)) = CONFIG.fluxMinWindow
  /\ fluxThreshold (fst r) = None.
Proof.
  intros s r.
  destruct (threshold_warmup_facts (silent_ticks 16 11) (silent_tick 192))
    as (Hh & Hl).
  - simpl; unfold CONFIG.fluxHistorySize; lia.
  - split; [exact Hh |]. apply Hl. simpl; unfold CONFIG.fluxMinWindow; lia.
Qed.

(** ** Frames with constant bins *)

Lemma sum_squares_zero (n : nat) (acc : R) :
  fold_left (fun a sample => a + sample * sample) (repeat 0 n) acc = acc.
Proof.
  revert acc; induction n as [|n IH]; intros acc; simpl; [reflexivity |].
  rewrite IH; lra.
Qed.

Lemma nextRms_flat (b : byte) : nextRms (flat_frame b) = 0.
Proof.
  unfold nextRms, flat_frame; cbn [timeData].
  rewrite sum_squares_zero. unfold Rdiv; rewrite Rmult_0_l. apply sqrt_0.
Qed.

Lemma normalized_level_flat (b : byte) : normalized_level (flat_frame b) = 0.
Proof.
  unfold normalized_level. rewrite nextRms_flat, Rmult_0_l, Math_pow_0.
  apply clamp_inside; lra.
Qed.

Lemma bands_loop_repeat (lowEnd midEnd : nat) (b : byte) (n : nat) :
  forall i l m h,
  bands_loop lowEnd midEnd i (repeat b n) l m h
  = let '(cl, cm, ch) := band_counts lowEnd midEnd i n in
    (l + INR cl * (byte_val b / 255), m + INR cm * (byte_val b / 255),
     h + INR ch * (byte_val b / 255)).
Proof.
  induction n as [|n IH]; intros i l m h.
  - simpl. repeat match goal with |- (_, _) = (_, _) => f_equal end; lra.
  - cbn [repeat bands_loop band_counts].
    destruct (i <? lowEnd)%nat; [|destruct (i <? midEnd)%nat];
      rewrite IH; destruct (band_counts lowEnd midEnd (S i) n) as [[cl cm] ch];
      rewrite S_INR;
      repeat match goal with |- (_, _) = (_, _) => f_equal end; lra.
Qed.

Lemma Math_floor_eq (x : R) (n : nat) :
  INR n <= x < INR n + 1 -> Math_floor x = n.
Proof.
  intros H; unfold Math_floor.
  rewrite (Zfloor_eq (Z.of_nat n)); [apply Nat2Z.id |].
  rewrite <- INR_IZR_INZ; exact H.
Qed.

Lemma INR_literal (n : nat) : INR n = IZR (Z.of_nat n).
Proof. apply INR_IZR_INZ. Qed.

Lemma band_counts_allocated :
  band_counts 122 460 0 frequencyBinCount = (122, 338, 564)%nat.
Proof. vm_compute; reflexivity. Qed.

Lemma _updateBands_flat (b : byte) (s : State) :
  bandEnergy (_updateBands (flat_frame b) s)
  = mkBandEnergy (flat_energy b) (flat_energy b) (flat_energy b).
Proof.
  unfold _updateBands, flat_frame; cbn [freqData].
  rewrite repeat_length.
  assert (Math_floor (INR frequencyBinCount * 0.12) = 122%nat) as ->.
  { apply Math_floor_eq. rewrite !INR_literal; simpl; lra. }
  assert (Math_floor (INR frequencyBinCount * 0.45) = 460%nat) as ->.
  { apply Math_floor_eq. rewrite !INR_literal; simpl; lra. }
  rewrite bands_loop_repeat, band_counts_allocated.
  cbn [bandEnergy set_bandEnergy].
  change (Nat.max 122 1) with 122%nat.
  change (Nat.max (460 - 122) 1) with 338%nat.
  change (Nat.max (frequencyBinCount - 460) 1) with 564%nat.
  unfold convert, flat_energy.
  rewrite !INR_literal; simpl Z.of_nat.
  f_equal; f_equal; f_equal; field.
Qed.

Lemma flat_energy_x00 : flat_energy x00 = 0.
Proof.
  unfold flat_energy, byte_val; simpl.
  replace (0 / 255 * CONFIG.bandGain) with 0 by (unfold CONFIG.bandGain; lra).
  rewrite clamp_inside by lra. apply Math_pow_0.
Qed.

Lemma flat_energy_xff : flat_energy xff = 1.
Proof.
  unfold flat_energy, byte_val; simpl.
  rewrite clamp_above by (unfold CONFIG.bandGain; lra). apply Math_pow_1.
Qed.

Lemma magnitude_x00 : magnitude x00 = 0.
Proof.
  unfold magnitude, byte_val; simpl.
  replace (0 / 255) with 0 by lra. apply Math_pow_0.
Qed.

Lemma magnitude_xff : magnitude xff = 1.
Proof.
  unfold magnitude, byte_val; simpl.
  replace (255 / 255) with 1 by lra. apply Math_pow_1.
Qed.

Lemma stored_magnitude_x00 : stored_magnitude x00 = 0.
Proof. unfold stored_magnitude. rewrite magnitude_x00. apply Math_fround_0. Qed.

Lemma stored_magnitude_xff : stored_magnitude xff = 1.
Proof. unfold stored_magnitude. rewrite magnitude_xff. apply Math_fround_1. Qed.

Lemma flux_loop_repeat (b : byte) (p : R) (n : nat) :
  forall acc,
  flux_loop (repeat b n) (repeat p n) acc
  = ((if Rgtb (magnitude b - p) 0
      then acc + INR n * (magnitude b - p) else acc),
     repeat (stored_magnitude b) n).
Proof.
  induction n as [|n IH]; intros acc.
  - simpl. destruct (Rgtb (magnitude b - p) 0); f_equal; lra.
  - cbn [repeat flux_loop]. rewrite S_INR.
    destruct (Rgtb (magnitude b - p) 0); rewrite IH; f_equal; lra.
Qed.

(** The flux of a flat frame: nothing on the first tick, the positive part
    of the step of the common magnitude afterwards. *)
Lemma _calculateFlux_flat (b : byte) (s : State) :
  _calculateFlux (flat_frame b) s
  = match prevSpectrum s with
    | None =>
        (0, set_prevSpectrum
              (Some (map stored_magnitude (repeat b frequencyBinCount))) s)
    | Some prev =>
        let '(fl, stored) := flux_loop (repeat b frequencyBinCount) prev 0 in
        (fl / INR frequencyBinCount, set_prevSpectrum (Some stored) s)
    end.
Proof.
  unfold _calculateFlux, flat_frame; cbn [freqData].
  rewrite repeat_length; reflexivity.
Qed.

Lemma _calculateFlux_flat_first (b : byte) (s : State) :
  prevSpectrum s = None ->
  fst (_calculateFlux (flat_frame b) s) = 0
  /\ prevSpectrum (snd (_calculateFlux (flat_frame b) s))
     = Some (repeat (stored_magnitude b) frequencyBinCount).
Proof.
  intros H; rewrite _calculateFlux_flat, H.
  cbn [fst snd prevSpectrum set_prevSpectrum].
  rewrite map_repeat; split; reflexivity.
Qed.

Lemma _calculateFlux_flat_next (b : byte) (p : R) (s : State) :
  prevSpectrum s = Some (repeat p frequencyBinCount) ->
  fst (_calculateFlux (flat_frame b) s) = Rmax 0 (magnitude b - p)
  /\ prevSpectrum (snd (_calculateFlux (flat_frame b) s))
     = Some (repeat (stored_magnitude b) frequencyBinCount).
Proof.
  intros H; rewrite _calculateFlux_flat, H, flux_loop_repeat.
  cbn [fst snd prevSpectrum set_prevSpectrum]. split; [|reflexivity].
  rewrite INR_literal; simpl Z.of_nat.
  destruct (Rgtb (magnitude b - p) 0) eqn:E.
  - apply Rgtb_true in E. rewrite Rmax_right by lra. field.
  - apply Rgtb_false in E. rewrite Rmax_left by lra. lra.
Qed.

(** ** One tick on a flat frame *)

Lemma silent_tick_step_gen (s : State) (sp : option R) (hist : list R)
  (pf lbt t : R) :
  tracker_state s sp hist pf lbt -> spectrum_nonneg sp -> 0 <= pf ->
  beat_at (silent_tick t) s = false
  /\ reset_at (silent_tick t) s = reset_due t lbt 0
  /\ tracker_state (snd (update (silent_tick t) s)) (Some 0)
       (push_shift CONFIG.fluxHistorySize hist 0) 0
       (if reset_due t lbt 0 then 0 else lbt).
Proof.
  intros (Ha & Hsp & Hh & Hpf & Hlbt & Hlaa) Hnn Hpf0.
  unfold reset_at, beat_at. rewrite Ha; cbn [andb].
  tick_cases (silent_tick t) s Ha.
  decompose record Hft; decompose record Hdf; decompose record Hup.
  clear Hft Hdf Hup. cbn [frame clock silent_tick fst snd] in *.
  assert (normalized ft = 0) as Hn
    by (rewrite <- (normalized_level_flat x00); assumption).
  assert (flux ft = 0 /\ prevSpectrum s1 = flat_spectrum (Some 0)) as [Hfl Hps].
  { destruct sp as [p|]; unfold flat_spectrum in *;
      cbn [option_map spectrum_nonneg] in *.
    - destruct (_calculateFlux_flat_next x00 p s Hsp) as [F1 F2].
      rewrite magnitude_x00 in F1. rewrite stored_magnitude_x00 in F2. split; [|congruence].
      replace (flux ft) with (fst (_calculateFlux (flat_frame x00) s)).
      rewrite F1, Rmax_left by lra. reflexivity.
    - destruct (_calculateFlux_flat_first x00 s Hsp) as [F1 F2].
      rewrite stored_magnitude_x00 in F2. split; [|congruence].
      congruence. }
  assert (lastAudioActive s1 = 0) as Hla.
  { match goal with H : lastAudioActive s1 = _ |- _ => rewrite H end.
    rewrite Hn. destruct (Rgtb 0 0.035) eqn:E; [|exact Hlaa].
    apply Rgtb_true in E; lra. }
  assert (d = false) as ->.
  { rewrite Hdd. unfold onset_candidate.
    replace (Rgtb (flux ft) (prevFlux s1)) with false.
    - rewrite andb_false_r; reflexivity.
    - symmetry; apply Rgtb_false. rewrite Hfl.
      replace (prevFlux s1) with (prevFlux s) by congruence. lra. }
  specialize (Hunc eq_refl).
  assert (reset_condition t s1 = reset_due t lbt 0) as Hrc.
  { unfold reset_condition, reset_due. rewrite Hla.
    replace (lastBeatTime s1) with lbt by congruence. reflexivity. }
  rewrite Hrc in Hunc.
  split; [assumption |]. split.
  { match goal with H : Snapshot.beatDetected _ = false |- _ =>
      rewrite H end. cbn [negb andb]. exact Hrc. }
  unfold tracker_state, flat_spectrum in *; cbn [option_map] in *.
  destruct (reset_due t lbt 0); repeat split; try congruence;
    destruct Hunc as (_ & Hl2 & _); congruence.
Qed.

(** Long after the page was loaded, with no audio activity ever recorded,
    a silent tick fires the silence reset. *)
Lemma silent_tick_step (s : State) (sp : option R) (hist : list R)
  (pf lbt t : R) :
  tracker_state s sp hist pf lbt -> spectrum_nonneg sp -> 0 <= pf ->
  2600 < t ->
  Snapshot.beatDetected (fst (update (silent_tick t) s)) = false
  /\ tracker_state (snd (update (silent_tick t) s)) (Some 0)
       (push_shift CONFIG.fluxHistorySize hist 0) 0 0.
Proof.
  intros Hs Hnn Hpf Ht.
  destruct (silent_tick_step_gen s sp hist pf lbt t Hs Hnn Hpf)
    as (Hb & _ & Hs').
  assert (reset_due t lbt 0 = true) as E.
  { unfold reset_due.
    replace (Rgtb (t - 0) CONFIG.beatSilenceResetMs) with true.
    - apply orb_true_r.
    - symmetry; apply Rgtb_true; unfold CONFIG.beatSilenceResetMs; lra. }
  rewrite E in Hs'. split; [exact Hb | exact Hs'].
Qed.

(** Early on, and within the silence window of the last beat, a silent tick
    fires no reset. *)
Lemma silent_tick_step_early (s : State) (sp : option R) (hist : list R)
  (pf lbt t : R) :
  tracker_state s sp hist pf lbt -> spectrum_nonneg sp -> 0 <= pf ->
  t <= 2600 -> t - lbt <= 2600 ->
  beat_at (silent_tick t) s = false
  /\ reset_at (silent_tick t) s = false
  /\ tracker_state (snd (update (silent_tick t) s)) (Some 0)
       (push_shift CONFIG.fluxHistorySize hist 0) 0 lbt.
Proof.
  intros Hs Hnn Hpf Ht Htl.
  destruct (silent_tick_step_gen s sp hist pf lbt t Hs Hnn Hpf)
    as (Hb & Hr & Hs').
  assert (reset_due t lbt 0 = false) as E.
  { unfold reset_due, CONFIG.beatSilenceResetMs.
    replace (Rgtb (t - lbt) 2600) with false
      by (symmetry; apply Rgtb_false; lra).
    replace (Rgtb (t - 0) 2600) with false
      by (symmetry; apply Rgtb_false; lra).
    rewrite andb_false_r; reflexivity. }
  rewrite E in Hs', Hr. repeat split; assumption || apply Hs'.
Qed.

Lemma loud_tick_step (s : State) (hist : list R) (pf lbt th t : R) :
  tracker_state s (Some 0) hist pf lbt -> pf < 1 ->
  flux_threshold hist = Some th -> th < 0.994 ->
  lbt = 0 \/ 200 < t - lbt ->
  Snapshot.beatDetected (fst (update (loud_tick t) s)) = true
  /\ tracker_state (snd (update (loud_tick t) s)) (Some 1)
       (push_shift CONFIG.fluxHistorySize hist 1) 1 t.
Proof.
  intros (Ha & Hsp & Hh & Hpf & Hlbt & Hlaa) Hpf1 Hth Hth1 Hrefr.
  tick_cases (loud_tick t) s Ha.
  decompose record Hft; decompose record Hdf; decompose record Hup.
  clear Hft Hdf Hup. cbn [frame clock loud_tick] in *.
  assert (normalized ft = 0) as Hn
    by (rewrite <- (normalized_level_flat xff); assumption).
  assert (flux ft = 1 /\ prevSpectrum s1 = flat_spectrum (Some 1)) as [Hfl Hps].
  { unfold flat_spectrum in *; cbn [option_map] in *.
    destruct (_calculateFlux_flat_next xff 0 s Hsp) as [F1 F2].
    rewrite magnitude_xff in F1. rewrite stored_magnitude_xff in F2. split; [|congruence].
    replace (flux ft) with (fst (_calculateFlux (flat_frame xff) s)).
    rewrite F1, Rmax_right by lra. lra. }
  assert (lastAudioActive s1 = 0) as Hla.
  { match goal with H : lastAudioActive s1 = _ |- _ => rewrite H end.
    rewrite Hn. destruct (Rgtb 0 0.035) eqn:E; [|exact Hlaa].
    apply Rgtb_true in E; lra. }
  assert (fluxThreshold ft = Some th) as Hft' by congruence.
  assert (fluxDelta ft = 1 - th) as Hdl.
  { match goal with H : fluxDelta ft = _ |- _ => rewrite H end.
    rewrite Hft', Hfl; reflexivity. }
  assert (bandEnergy s1 = mkBandEnergy 1 1 1) as Hbe.
  { replace (bandEnergy s1)
      with (bandEnergy (_updateBands (flat_frame xff) s)).
    rewrite _updateBands_flat, flat_energy_xff; reflexivity. }
  assert (lastBeatTime s1 = lbt) as Hl1 by congruence.
  assert (d = true) as ->.
  { rewrite Hdd. unfold onset_candidate, refractory_ok.
    rewrite Hft', Hdl, Hfl, Hbe, Hl1; cbn [low mid high].
    replace (Rgtb (1 - th) CONFIG.fluxDeltaFloor) with true
      by (symmetry; apply Rgtb_true; unfold CONFIG.fluxDeltaFloor; lra).
    replace (Rgtb 1 (prevFlux s1)) with true
      by (symmetry; apply Rgtb_true;
          replace (prevFlux s1) with (prevFlux s) by congruence; lra).
    replace (Rgtb (1 * 0.5 + 1 * 0.35 + 1 * 0.25) CONFIG.beatEnergyFloor)
      with true
      by (symmetry; apply Rgtb_true; unfold CONFIG.beatEnergyFloor; lra).
    rewrite orb_true_r; cbn [andb].
    destruct Hrefr as [->|Hgt].
    - replace (Reqb 0 0) with true
        by (symmetry; apply Reqb_true; reflexivity).
      reflexivity.
    - replace (Rgtb (t - lbt) CONFIG.beatMinIntervalMs) with true
        by (symmetry; apply Rgtb_true; unfold CONFIG.beatMinIntervalMs; lra).
      apply orb_true_r. }
  destruct (Hconf eq_refl) as (Hl2 & _ & _).
  split; [assumption |].
  unfold tracker_state, flat_spectrum in *; cbn [option_map] in *.
  repeat split; congruence.
Qed.

Lemma silent_ticks_run (n : nat) :
  forall (t0 : R) (s : State) (sp : option R) (hist : list R) (pf lbt : R),
  tracker_state s sp hist pf lbt -> spectrum_nonneg sp -> 0 <= pf ->
  2600 < t0 ->
  tracker_state (final (silent_ticks t0 (S n)) s) (Some 0)
    (zero_pushes (S n) hist) 0 0.
Proof.
  induction n as [|n IH]; intros t0 s sp hist pf lbt Hs Hsp Hpf Ht.
  - cbn [silent_ticks zero_pushes]. rewrite final_cons.
    apply (silent_tick_step s sp hist pf lbt t0 Hs Hsp Hpf Ht).
  - change (silent_ticks t0 (S (S n)))
      with (silent_tick t0 :: silent_ticks (t0 + 16) (S n)).
    rewrite final_cons.
    change (zero_pushes (S (S n)) hist)
      with (zero_pushes (S n) (push_shift CONFIG.fluxHistorySize hist 0)).
    destruct (silent_tick_step s sp hist pf lbt t0 Hs Hsp Hpf Ht) as [_ Hs'].
    apply (IH (t0 + 16) _ (Some 0) _ 0 0 Hs'); simpl; lra.
Qed.

(** ** The run [double_beat_run] *)

Lemma zero_pushes_warmup : zero_pushes 12 [] = repeat 0 12.
Proof. reflexivity. Qed.

Lemma history_after_beat :
  push_shift CONFIG.fluxHistorySize
    (push_shift CONFIG.fluxHistorySize (repeat 0 12) 1) 0
  = repeat 0 12 ++ [1; 0].
Proof. reflexivity. Qed.

(** Evaluates the threshold of an explicit history: the mean is named, each
    absolute deviation is resolved by its sign, and the rest is linear. *)
Ltac eval_threshold :=
  unfold sum_list;
  cbn [fold_left skipn repeat app length Nat.min Nat.sub CONFIG.fluxWindow];
  rewrite !INR_literal; simpl Z.of_nat;
  let mu := fresh "mu" in
  match goal with |- context [Rabs (_ - ?m)] => set (mu := m) end;
  repeat match goal with
         | |- context [Rabs (?a - mu)] =>
             first [ rewrite (Rabs_right (a - mu)) by (unfold mu; lra)
                   | rewrite (Rabs_left1 (a - mu)) by (unfold mu; lra) ]
         end;
  unfold mu, CONFIG.fluxSensitivity; lra.

Lemma threshold_warm :
  exists th, flux_threshold (repeat 0 12) = Some th /\ th < 0.994.
Proof. eexists; split; [reflexivity | eval_threshold]. Qed.

Lemma threshold_after_beat :
  exists th, flux_threshold (repeat 0 12 ++ [1; 0]) = Some th /\ th < 0.994.
Proof. eexists; split; [reflexivity | eval_threshold]. Qed.

Lemma tracker_state_init : tracker_state (init constructor) None [] 0 0.
Proof. unfold tracker_state; repeat split; reflexivity. Qed.

Lemma outputs_silent_ticks (n : nat) :
  forall (t0 : R) (s : State) (sp : option R) (hist : list R) (pf lbt : R),
  tracker_state s sp hist pf lbt -> spectrum_nonneg sp -> 0 <= pf ->
  2600 < t0 ->
  map Snapshot.beatDetected (outputs (silent_ticks t0 n) s) = repeat false n.
Proof.
  induction n as [|n IH]; intros t0 s sp hist pf lbt Hs Hsp Hpf Ht.
  - reflexivity.
  - cbn [silent_ticks repeat]. rewrite outputs_cons; cbn [map].
    destruct (silent_tick_step s sp hist pf lbt t0 Hs Hsp Hpf Ht) as [Hd Hs'].
    rewrite Hd. f_equal.
    apply (IH (t0 + 16) _ (Some 0) _ 0 0 Hs'); simpl; lra.
Qed.

(** C2, as stated, fails on [double_beat_run]: its ticks are 16 ms apart,
    and the thirteenth and the fifteenth both confirm a beat, 32 ms from
    each other.  The silent tick between them fires the silence reset (no
    audio activity was ever recorded, the time-domain buffer being silent),
    which zeroes [lastBeatTime], so the fifteenth tick passes the refractory
    test as if no beat had fired. *)
Lemma beats_32ms_apart :
  map Snapshot.beatDetected (outputs double_beat_run (init constructor))
  = repeat false 12 ++ [true; false; true]
  /\ nth 12 (map clock double_beat_run) 0 = 3192
  /\ nth 14 (map clock double_beat_run) 0 = 3224
  /\ ~ (3224 - 3192 > CONFIG.beatMinIntervalMs).
Proof.
  split; [| split; [reflexivity | split; [reflexivity |]]].
  2:{ unfold CONFIG.beatMinIntervalMs; lra. }
  unfold double_beat_run. rewrite outputs_app, map_app. f_equal.
  - apply (outputs_silent_ticks 12 3000 _ None [] 0 0 tracker_state_init);
      simpl; lra.
  - pose proof (silent_ticks_run 11 3000 _ None [] 0 0 tracker_state_init
                  I ltac:(lra) ltac:(lra)) as H12.
    rewrite zero_pushes_warmup in H12.
    set (s12 := final (silent_ticks 3000 12) (init constructor)) in *.
    destruct threshold_warm as (th1 & Hth1 & Hlt1).
    destruct (loud_tick_step s12 _ 0 0 th1 3192 H12 ltac:(lra) Hth1 Hlt1
                ltac:(left; reflexivity))
      as [Hd13 H13].
    set (s13 := snd (update (loud_tick 3192) s12)) in *.
    destruct (silent_tick_step s13 (Some 1) _ 1 3192 3208 H13)
      as [Hd14 H14]; [simpl; lra | lra | lra |].
    set (s14 := snd (update (silent_tick 3208) s13)) in *.
    rewrite history_after_beat in H14.
    destruct threshold_after_beat as (th2 & Hth2 & Hlt2).
    destruct (loud_tick_step s14 _ 0 0 th2 3224 H14 ltac:(lra) Hth2 Hlt2
                ltac:(left; reflexivity))
      as [Hd15 _].
    rewrite !outputs_cons; cbn [map outputs run fst].
    fold s13. fold s14. rewrite Hd13, Hd14, Hd15. reflexivity.
Qed.

(** ** The refractory interval *)

Lemma beat_at_uninitialised (x : Tick) (s : State) :
  analyser s = false -> beat_at x s = false.
Proof.
  intros Ha; unfold beat_at; rewrite (update_uninitialised x s Ha).
  reflexivity.
Qed.

Lemma beat_at_refractory (x : Tick) (s : State) :
  beat_at x s = true ->
  lastBeatTime s = 0
  \/ clock x - lastBeatTime s > CONFIG.beatMinIntervalMs.
Proof.
  intros Hb. destruct (analyser s) eqn:Ha.
  2:{ rewrite (beat_at_uninitialised x s Ha) in Hb; discriminate. }
  unfold beat_at in Hb. tick_cases x s Ha.
  decompose record Hft; decompose record Hdf; decompose record Hup.
  clear Hft Hdf Hup.
  assert (d = true) as -> by congruence.
  symmetry in Hdd. apply andb_true_iff in Hdd. destruct Hdd as [_ Hr].
  unfold refractory_ok in Hr. apply orb_true_iff in Hr.
  replace (lastBeatTime s) with (lastBeatTime s1) by congruence.
  destruct Hr as [Hr|Hr].
  - left; apply Reqb_true; exact Hr.
  - right; apply Rgtb_true in Hr; lra.
Qed.

Lemma lastBeatTime_update (x : Tick) (s : State) :
  lastBeatTime (snd (update x s))
  = if beat_at x s then clock x
    else if reset_at x s then 0 else lastBeatTime s.
Proof.
  destruct (analyser s) eqn:Ha.
  2:{ unfold reset_at. rewrite (beat_at_uninitialised x s Ha), Ha.
      rewrite (update_uninitialised x s Ha); reflexivity. }
  unfold reset_at, beat_at. rewrite Ha. tick_cases x s Ha.
  decompose record Hft; decompose record Hdf; decompose record Hup.
  clear Hft Hdf Hup. cbn [fst snd andb].
  replace (Snapshot.beatDetected (fst (update x s))) with d by congruence.
  replace (lastBeatTime (snd (update x s))) with (lastBeatTime s2)
    by congruence.
  destruct d; cbn [negb andb].
  - apply (Hconf eq_refl).
  - specialize (Hunc eq_refl).
    destruct (reset_condition (clock x) s1);
      destruct Hunc as (_ & Hl & _); congruence.
Qed.

Lemma lastBeatTime_no_reset (mid : list Tick) :
  forall (s : State) (t1 : R),
  0 < t1 -> t1 <= lastBeatTime s -> no_reset mid s = true ->
  t1 <= lastBeatTime (final mid s).
Proof.
  induction mid as [|x mid IH]; intros s t1 Ht1 Hl Hn.
  - exact Hl.
  - rewrite final_cons. cbn [no_reset] in Hn.
    apply andb_true_iff in Hn. destruct Hn as [Hr Hn].
    apply negb_true_iff in Hr.
    apply IH; [exact Ht1 | | exact Hn].
    rewrite lastBeatTime_update, Hr.
    destruct (beat_at x s) eqn:Hb; [|exact Hl].
    destruct (beat_at_refractory x s Hb) as [H0|Hgt];
      unfold CONFIG.beatMinIntervalMs in *; lra.
Qed.

(** C2, as the code has it.  A beat is confirmed only if [lastBeatTime] is
    0 (no beat has fired since the construction or since the last silence
    reset) or more than [beatMinIntervalMs] = 200 ms have passed since the
    last confirmed beat.  Hence two ticks that confirm a beat, with no
    silence reset fired on a tick between them, are more than 200 ms apart
    (the first at a positive clock reading). *)
Theorem refractory_between_resets (s : State) (x1 : Tick) (mid : list Tick)
  (x2 : Tick) :
  0 < clock x1 ->
  beat_at x1 s = true ->
  no_reset mid (snd (update x1 s)) = true ->
  beat_at x2 (final mid (snd (update x1 s))) = true ->
  (lastBeatTime s = 0
   \/ clock x1 - lastBeatTime s > CONFIG.beatMinIntervalMs)
  /\ clock x2 - clock x1 > CONFIG.beatMinIntervalMs.
Proof.
  intros Ht1 Hb1 Hn Hb2. split; [apply beat_at_refractory; exact Hb1 |].
  assert (lastBeatTime (snd (update x1 s)) = clock x1) as Hl
    by (rewrite lastBeatTime_update, Hb1; reflexivity).
  pose proof (lastBeatTime_no_reset mid (snd (update x1 s)) (clock x1) Ht1
                ltac:(rewrite Hl; lra) Hn) as Hlast.
  destruct (beat_at_refractory x2 _ Hb2) as [H0|Hgt];
    unfold CONFIG.beatMinIntervalMs in *; lra.
Qed.

Lemma silent_ticks_run_early (n : nat) :
  forall (t0 : R) (s : State) (sp : option R) (hist : list R) (pf : R),
  tracker_state s sp hist pf 0 -> spectrum_nonneg sp -> 0 <= pf ->
  t0 + 16 * INR n <= 2600 ->
  tracker_state (final (silent_ticks t0 (S n)) s) (Some 0)
    (zero_pushes (S n) hist) 0 0.
Proof.
  induction n as [|n IH]; intros t0 s sp hist pf Hs Hsp Hpf Ht.
  - cbn [silent_ticks zero_pushes]. rewrite final_cons.
    simpl in Ht.
    apply (silent_tick_step_early s sp hist pf 0 t0 Hs Hsp Hpf); lra.
  - change (silent_ticks t0 (S (S n)))
      with (silent_tick t0 :: silent_ticks (t0 + 16) (S n)).
    rewrite final_cons.
    change (zero_pushes (S (S n)) hist)
      with (zero_pushes (S n) (push_shift CONFIG.fluxHistorySize hist 0)).
    rewrite S_INR in Ht. pose proof (pos_INR n) as Hn.
    destruct (silent_tick_step_early s sp hist pf 0 t0 Hs Hsp Hpf)
      as (_ & _ & Hs'); [lra | lra |].
    apply (IH (t0 + 16) _ (Some 0) _ 0 Hs'); simpl; lra.
Qed.

Lemma refractory_between_resets_witness :
  let s := final (silent_ticks 16 12) (init constructor) in
  let x1 := loud_tick 208 in
  let mid := [silent_tick 224] in
  let x2 := loud_tick 500 in
  0 < clock x1
  /\ beat_at x1 s = true
  /\ no_reset mid (snd (update x1 s)) = true
  /\ beat_at x2 (final mid (snd (update x1 s))) = true
  /\ clock x2 - clock x1 > CONFIG.beatMinIntervalMs.
Proof.
  intros s x1 mid x2.
  assert (tracker_state s (Some 0) (repeat 0 12) 0 0) as H12.
  { rewrite <- zero_pushes_warmup.
    apply (silent_ticks_run_early 11 16 _ None [] 0 tracker_state_init I);
      [lra | rewrite INR_literal; simpl Z.of_nat; lra]. }
  destruct threshold_warm as (th1 & Hth1 & Hlt1).
  destruct (loud_tick_step s _ 0 0 th1 208 H12 ltac:(lra) Hth1 Hlt1
              ltac:(left; reflexivity)) as [Hd13 H13].
  destruct (silent_tick_step_early (snd (update x1 s)) (Some 1) _ 1 208 224
              H13) as (Hd14 & Hr14 & H14); [simpl; lra | lra | lra | lra |].
  rewrite history_after_beat in H14.
  destruct threshold_after_beat as (th2 & Hth2 & Hlt2).
  destruct (loud_tick_step _ _ 0 208 th2 500 H14 ltac:(lra) Hth2 Hlt2
              ltac:(right; lra)) as [Hd15 _].
  assert (0 < clock x1) as W1 by (simpl; lra).
  assert (beat_at x1 s = true) as W2 by exact Hd13.
  assert (no_reset mid (snd (update x1 s)) = true) as W3.
  { unfold mid; cbn [no_reset]. fold x1. rewrite Hr14; reflexivity. }
  assert (beat_at x2 (final mid (snd (update x1 s))) = true) as W4.
  { unfold mid. rewrite final_cons. exact Hd15. }
  split; [exact W1 |]. split; [exact W2 |]. split; [exact W3 |].
  split; [exact W4 |].
  exact (proj2 (refractory_between_resets s x1 mid x2 W1 W2 W3 W4)).
Defined.

(** ** The tempo fields over one tick *)

Lemma tempo_ok_ext (t : R) (s1 s : State) :
  lastBeatTime s1 = lastBeatTime s -> tempo_ok t s1 = tempo_ok t s.
Proof. intros H; unfold tempo_ok; rewrite H; reflexivity. Qed.

Lemma next_bpm_ext (t : R) (s1 s : State) :
  lastBeatTime s1 = lastBeatTime s -> beatIntervals s1 = beatIntervals s ->
  bpm s1 = bpm s -> next_bpm t s1 = next_bpm t s.
Proof. intros H1 H2 H3; unfold next_bpm; rewrite H1, H2, H3; reflexivity. Qed.

Lemma reset_at_spec (x : Tick) (s : State) :
  reset_at x s
  = analyser s && negb (beat_at x s)
    && reset_due (clock x) (lastBeatTime s) (last_active x s).
Proof.
  unfold reset_at. destruct (analyser s) eqn:Ha; [|reflexivity].
  destruct (update_features x s) as [ft s1] eqn:E1.
  pose proof (update_features_spec _ _ _ _ E1) as Hft.
  decompose record Hft; clear Hft. cbn [snd andb].
  f_equal. unfold reset_condition, reset_due, last_active.
  replace (lastBeatTime s1) with (lastBeatTime s) by congruence.
  match goal with H : lastAudioActive s1 = _ |- _ => rewrite H end.
  match goal with H : normalized ft = _ |- _ => rewrite H end.
  reflexivity.
Qed.

(** The three tempo fields after a tick, by the verdict of the tick. *)
Lemma tempo_fields_update (x : Tick) (s : State) :
  let s' := snd (update x s) in
  lastBeatTime s'
  = (if beat_at x s then clock x
     else if reset_at x s then 0 else lastBeatTime s)
  /\ beatIntervals s'
     = (if beat_at x s
        then if tempo_ok (clock x) s
             then push_shift CONFIG.bpmWindow (beatIntervals s)
                    (clock x - lastBeatTime s)
             else beatIntervals s
        else if reset_at x s then [] else beatIntervals s)
  /\ bpm s'
     = (if beat_at x s
        then if tempo_ok (clock x) s then next_bpm (clock x) s else bpm s
        else if reset_at x s then 0 else bpm s).
Proof.
  cbv zeta. split; [apply lastBeatTime_update |].
  destruct (analyser s) eqn:Ha.
  2:{ unfold reset_at. rewrite (beat_at_uninitialised x s Ha), Ha.
      rewrite (update_uninitialised x s Ha). split; reflexivity. }
  unfold reset_at, beat_at. rewrite Ha. tick_cases x s Ha.
  decompose record Hft; decompose record Hdf; decompose record Hup.
  clear Hft Hdf Hup. cbn [fst snd andb].
  replace (Snapshot.beatDetected (fst (update x s))) with d by congruence.
  replace (beatIntervals (snd (update x s))) with (beatIntervals s2)
    by congruence.
  replace (bpm (snd (update x s))) with (bpm s2) by congruence.
  rewrite <- (tempo_ok_ext (clock x) s1 s) by assumption.
  rewrite <- (next_bpm_ext (clock x) s1 s) by assumption.
  replace (beatIntervals s) with (beatIntervals s1) by congruence.
  replace (lastBeatTime s) with (lastBeatTime s1) by congruence.
  replace (bpm s) with (bpm s1) by congruence.
  destruct d; cbn [negb andb].
  - destruct (Hconf eq_refl) as (_ & Hi & Hb). split; assumption.
  - specialize (Hunc eq_refl).
    destruct (reset_condition (clock x) s1);
      destruct Hunc as (Hi & _ & Hb); split; assumption.
Qed.

(** With an analyser the snapshot reports the tempo the tick leaves. *)
Lemma snapshot_bpm (x : Tick) (s : State) :
  analyser s = true -> Snapshot.bpm (fst (update x s)) = bpm (snd (update x s)).
Proof.
  intros Ha. tick_cases x s Ha. decompose record Hup. assumption.
Qed.

(** ** The silence reset and the late beat *)

(** C4.  On a tick that confirms no beat, if a beat has fired before and
    more than [beatSilenceResetMs] = 2600 ms have passed since it, or more
    than that have passed since the last audio activity, the interval
    window is emptied and [lastBeatTime] and [bpm] are 0 (and the snapshot
    reports a [bpm] of 0). *)
Theorem silence_reset_clears_tempo (s : State) (x : Tick) :
  analyser s = true ->
  beat_at x s = false ->
  (0 < lastBeatTime s
   /\ clock x - lastBeatTime s > CONFIG.beatSilenceResetMs)
  \/ clock x - last_active x s > CONFIG.beatSilenceResetMs ->
  beatIntervals (snd (update x s)) = []
  /\ lastBeatTime (snd (update x s)) = 0
  /\ bpm (snd (update x s)) = 0
  /\ Snapshot.bpm (fst (update x s)) = 0.
Proof.
  intros Ha Hb Hc.
  assert (reset_at x s = true) as Hr.
  { rewrite reset_at_spec, Ha, Hb; cbn [negb andb]. unfold reset_due.
    apply orb_true_iff. destruct Hc as [[H1 H2]|H].
    - left. apply andb_true_iff; split; apply Rgtb_true; lra.
    - right. apply Rgtb_true; lra. }
  destruct (tempo_fields_update x s) as (Hl & Hi & Hbpm).
  rewrite Hb, Hr in Hl, Hi, Hbpm.
  rewrite (snapshot_bpm x s Ha). auto.
Qed.

Lemma last_active_flat (b : byte) (t : R) (s : State) :
  last_active (mkTick (flat_frame b) t) s = lastAudioActive s.
Proof.
  unfold last_active; cbn [frame]. rewrite normalized_level_flat.
  destruct (Rgtb 0 0.035) eqn:E; [|reflexivity].
  apply Rgtb_true in E; lra.
Qed.

(** C5.  When a beat is confirmed at least [beatMaxIntervalMs] = 1400 ms
    after the last one, the beat fires and [lastBeatTime] becomes the tick
    time, while the interval window and [bpm] stay as they were. *)
Theorem late_beat_keeps_tempo (s : State) (x : Tick) :
  beat_at x s = true ->
  clock x - lastBeatTime s >= CONFIG.beatMaxIntervalMs ->
  Snapshot.beatDetected (fst (update x s)) = true
  /\ lastBeatTime (snd (update x s)) = clock x
  /\ beatIntervals (snd (update x s)) = beatIntervals s
  /\ bpm (snd (update x s)) = bpm s.
Proof.
  intros Hb Hi.
  assert (tempo_ok (clock x) s = false) as Ht.
  { unfold tempo_ok.
    replace (Rltb (clock x - lastBeatTime s) CONFIG.beatMaxIntervalMs)
      with false by (symmetry; apply Rltb_false; lra).
    apply andb_false_r. }
  destruct (tempo_fields_update x s) as (Hl & Hiv & Hbpm).
  rewrite Hb, Ht in *. auto.
Qed.

(** The state after the warm-up, a first beat at 208 ms and a silent tick:
    the last beat is on record and no reset has fired. *)
Lemma state_after_first_beat :
  let s := final (silent_ticks 16 12 ++ [loud_tick 208; silent_tick 224])
             (init constructor) in
  tracker_state s (Some 0) (repeat 0 12 ++ [1; 0]) 0 208.
Proof.
  intros s. subst s. rewrite final_app, !final_cons.
  assert (tracker_state (final (silent_ticks 16 12) (init constructor))
            (Some 0) (repeat 0 12) 0 0) as H12.
  { rewrite <- zero_pushes_warmup.
    apply (silent_ticks_run_early 11 16 _ None [] 0 tracker_state_init I);
      [lra | rewrite INR_literal; simpl Z.of_nat; lra]. }
  destruct threshold_warm as (th1 & Hth1 & Hlt1).
  destruct (loud_tick_step _ _ 0 0 th1 208 H12 ltac:(lra) Hth1 Hlt1
              ltac:(left; reflexivity)) as [_ H13].
  destruct (silent_tick_step_early _ (Some 1) _ 1 208 224 H13)
    as (_ & _ & H14); [simpl; lra | lra | lra | lra |].
  rewrite history_after_beat in H14. exact H14.
Qed.

Lemma late_beat_keeps_tempo_witness :
  let s := final (silent_ticks 16 12 ++ [loud_tick 208; silent_tick 224])
             (init constructor) in
  let x := loud_tick 1700 in
  beat_at x s = true
  /\ clock x - lastBeatTime s >= CONFIG.beatMaxIntervalMs
  /\ lastBeatTime (snd (update x s)) = clock x
  /\ beatIntervals (snd (update x s)) = beatIntervals s
  /\ bpm (snd (update x s)) = bpm s.
Proof.
  intros s x. pose proof state_after_first_beat as Hs. cbv zeta in Hs.
  fold s in Hs.
  destruct threshold_after_beat as (th2 & Hth2 & Hlt2).
  assert (beat_at x s = true) as W1.
  { apply (loud_tick_step s _ 0 208 th2 1700 Hs ltac:(lra) Hth2 Hlt2).
    right; lra. }
  assert (clock x - lastBeatTime s >= CONFIG.beatMaxIntervalMs) as W2.
  { destruct Hs as (_ & _ & _ & _ & Hl & _). rewrite Hl.
    unfold CONFIG.beatMaxIntervalMs; simpl; lra. }
  destruct (late_beat_keeps_tempo s x W1 W2) as (_ & H1 & H2 & H3).
  repeat split; assumption.
Defined.

(** ** What the silence reset leaves alone *)

(** C9.  On a tick that fires the silence reset, the reset writes
    [beatIntervals], [lastBeatTime] and [bpm] and nothing else: every other
    field has the value [update] computed before it called [_detectBeat]
    ([prevFlux] is this tick's flux, as on every tick, and [beatDetected] is
    false).  In particular the flux history is the old one with this
    tick's flux pushed, so the adaptive threshold is not re-warmed, and the
    pulse envelope is the interpolated one. *)
Theorem silence_reset_frame (s : State) (x : Tick) :
  reset_at x s = true ->
  let ft := fst (update_features x s) in
  let s1 := snd (update_features x s) in
  let s' := snd (update x s) in
  (beatIntervals s' = [] /\ lastBeatTime s' = 0 /\ bpm s' = 0)
  /\ (fluxHistory s' = fluxHistory s1
      /\ fluxHistory s'
         = push_shift CONFIG.fluxHistorySize (fluxHistory s) (flux ft))
  /\ prevSpectrum s' = prevSpectrum s1
  /\ prevFlux s' = flux ft
  /\ beatPulse s' = beatPulse s1
  /\ level s' = level s1
  /\ levelAverage s' = levelAverage s1
  /\ rms s' = rms s1
  /\ rmsAverage s' = rmsAverage s1
  /\ bandEnergy s' = bandEnergy s1
  /\ brightness s' = brightness s1
  /\ lastAudioActive s' = lastAudioActive s1
  /\ analyser s' = analyser s1
  /\ beatDetected s' = false.
Proof.
  intros Hr. pose proof Hr as Hr'. unfold reset_at in Hr'.
  apply andb_true_iff in Hr'. destruct Hr' as [Hr' _].
  apply andb_true_iff in Hr'. destruct Hr' as [Ha Hb].
  apply negb_true_iff in Hb.
  destruct (tempo_fields_update x s) as (Hl & Hi & Hbpm).
  rewrite Hb, Hr in Hl, Hi, Hbpm. unfold beat_at in Hb.
  tick_cases x s Ha.
  decompose record Hft; decompose record Hdf; decompose record Hup.
  clear Hft Hdf Hup. cbn [fst snd].
  assert (d = false) as -> by congruence.
  repeat split; congruence.
Qed.

(** ** The first tempo estimate *)

Lemma reachable_tempo_consistent (s : State) :
  reachable s -> tempo_consistent s.
Proof.
  induction 1 as [|s Hr IH|s x Hr IH Hx].
  - intros _; reflexivity.
  - exact IH.
  - pose proof (reachable_in_range s Hr) as (_ & _ & _ & _ & Hb & _).
    destruct (tempo_fields_update x s) as (_ & Hi & Hbpm).
    unfold tempo_consistent in *. rewrite Hi, Hbpm.
    destruct (beat_at x s); [destruct (tempo_ok (clock x) s)|
                             destruct (reset_at x s)]; auto.
    intros H0. pose proof (next_bpm_range (clock x) s Hb). lra.
Qed.

Lemma reachable_final (xs : list Tick) (s : State) :
  reachable s -> Forall wf_tick xs -> reachable (final xs s).
Proof.
  revert s; induction xs as [|x xs IH]; intros s Hr Hw.
  - exact Hr.
  - rewrite final_cons. inversion Hw; subst.
    apply IH; [apply reachable_update; assumption | assumption].
Qed.

(** The first estimate: with an empty window and no tempo, an accepted
    interval above the refractory interval gives the rounded clamp of
    [60000 / interval]. *)
Lemma next_bpm_first (t : R) (s : State) :
  bpm s = 0 -> beatIntervals s = [] ->
  CONFIG.beatMinIntervalMs < t - lastBeatTime s ->
  next_bpm t s = Math_round (clamp (60000 / (t - lastBeatTime s)) 50 200).
Proof.
  intros Hb Hi Hgt. unfold next_bpm. rewrite Hb, Hi.
  replace (Reqb 0 0) with true by (symmetry; apply Reqb_true; reflexivity).
  unfold push_shift, sum_list; cbn [app length Nat.ltb Nat.leb fold_left
                                     CONFIG.bpmWindow INR].
  unfold CONFIG.beatMinIntervalMs in Hgt.
  replace ((0 + (t - lastBeatTime s)) / 1) with (t - lastBeatTime s)
    by lra.
  rewrite Rmax_left by lra. reflexivity.
Qed.

(** C10.  A beat confirmed while [lastBeatTime] is 0 leaves the interval
    window and [bpm] as they were.  From a reachable state, [bpm] leaves 0
    only on a tick that confirms a beat while an earlier beat is on record
    ([lastBeatTime] positive), at an interval strictly between
    [beatMinIntervalMs] and [beatMaxIntervalMs]; the value written is then
    the rounded clamp of [60000 / interval] to [[50,200]]. *)
Theorem first_tempo_estimate (s : State) (x : Tick) :
  reachable s -> wf_tick x ->
  let s' := snd (update x s) in
  let interval := clock x - lastBeatTime s in
  (beat_at x s = true -> lastBeatTime s = 0 ->
   beatIntervals s' = beatIntervals s /\ bpm s' = bpm s)
  /\ (bpm s = 0 -> bpm s' <> 0 ->
      beat_at x s = true
      /\ 0 < lastBeatTime s
      /\ CONFIG.beatMinIntervalMs < interval < CONFIG.beatMaxIntervalMs
      /\ bpm s' = Math_round (clamp (60000 / interval) 50 200)).
Proof.
  intros Hr _. cbv zeta.
  destruct (tempo_fields_update x s) as (_ & Hi & Hbpm).
  split.
  - intros Hb Hl. rewrite Hb in Hi, Hbpm.
    assert (tempo_ok (clock x) s = false) as Ht.
    { unfold tempo_ok. rewrite Hl.
      replace (Rgtb 0 0) with false by (symmetry; apply Rgtb_false; lra).
      reflexivity. }
    rewrite Ht in Hi, Hbpm. auto.
  - intros H0 Hn.
    destruct (beat_at x s) eqn:Hb.
    2:{ destruct (reset_at x s); congruence. }
    destruct (tempo_ok (clock x) s) eqn:Ht; [|congruence].
    unfold tempo_ok in Ht. apply andb_true_iff in Ht.
    destruct Ht as [Hpos Hlt]. apply Rgtb_true in Hpos.
    apply Rltb_true in Hlt.
    destruct (beat_at_refractory x s Hb) as [Hz|Hgt]; [lra |].
    split; [reflexivity |]. split; [exact Hpos |].
    split; [split; [lra | exact Hlt] |].
    rewrite Hbpm. apply next_bpm_first; [exact H0 | | lra].
    apply (reachable_tempo_consistent s Hr H0).
Qed.

Lemma wf_silent_ticks (n : nat) (t0 : R) : Forall wf_tick (silent_ticks t0 n).
Proof.
  revert t0; induction n as [|n IH]; intros t0; simpl.
  - constructor.
  - constructor; [apply wf_flat_frame | apply IH].
Qed.

Lemma bpm_stays_zero (x : Tick) (s : State) :
  bpm s = 0 -> beat_at x s = false \/ lastBeatTime s = 0 ->
  bpm (snd (update x s)) = 0.
Proof.
  intros H0 Hc. destruct (tempo_fields_update x s) as (_ & _ & Hbpm).
  rewrite Hbpm. destruct (beat_at x s) eqn:Hb.
  - destruct Hc as [Hc|Hc]; [discriminate |].
    unfold tempo_ok. rewrite Hc.
    replace (Rgtb 0 0) with false by (symmetry; apply Rgtb_false; lra).
    exact H0.
  - destruct (reset_at x s); [reflexivity | exact H0].
Qed.

Lemma silent_ticks_bpm (n : nat) :
  forall (t0 : R) (s : State) (sp : option R) (hist : list R) (pf lbt : R),
  tracker_state s sp hist pf lbt -> spectrum_nonneg sp -> 0 <= pf ->
  bpm s = 0 -> bpm (final (silent_ticks t0 n) s) = 0.
Proof.
  induction n as [|n IH]; intros t0 s sp hist pf lbt Hs Hsp Hpf H0.
  - exact H0.
  - cbn [silent_ticks]. rewrite final_cons.
    destruct (silent_tick_step_gen s sp hist pf lbt t0 Hs Hsp Hpf)
      as (Hb & _ & Hs').
    apply (IH (t0 + 16) _ (Some 0) _ 0 _ Hs'); [simpl; lra | lra |].
    apply bpm_stays_zero; [exact H0 | left; exact Hb].
Qed.

Lemma Math_round_integer (z : Z) : Math_round (IZR z) = IZR z.
Proof.
  unfold Math_round. rewrite (Zfloor_eq z); [reflexivity | lra].
Qed.

Lemma first_tempo_estimate_witness :
  let s := final (silent_ticks 16 12 ++ [loud_tick 208; silent_tick 224])
             (init constructor) in
  let x := loud_tick 500 in
  reachable s /\ wf_tick x
  /\ bpm s = 0 /\ bpm (snd (update x s)) <> 0
  /\ beat_at x s = true
  /\ bpm (snd (update x s)) = 200.
Proof.
  intros s x. pose proof state_after_first_beat as Hs. cbv zeta in Hs.
  fold s in Hs.
  assert (reachable s) as W1.
  { apply reachable_final.
    - apply reachable_init, reachable_constructor.
    - apply Forall_app; split; [apply wf_silent_ticks |].
      repeat constructor; apply wf_flat_frame. }
  assert (wf_tick x) as W2 by apply wf_flat_frame.
  assert (bpm s = 0) as W3.
  { unfold s. rewrite final_app, !final_cons.
    assert (tracker_state (final (silent_ticks 16 12) (init constructor))
              (Some 0) (repeat 0 12) 0 0) as H12.
    { rewrite <- zero_pushes_warmup.
      apply (silent_ticks_run_early 11 16 _ None [] 0 tracker_state_init I);
        [lra | rewrite INR_literal; simpl Z.of_nat; lra]. }
    apply bpm_stays_zero.
    - apply bpm_stays_zero.
      + apply (silent_ticks_bpm 12 16 _ None [] 0 0 tracker_state_init I);
          [lra | reflexivity].
      + right. apply H12.
    - left. destruct threshold_warm as (th1 & Hth1 & Hlt1).
      destruct (loud_tick_step _ _ 0 0 th1 208 H12 ltac:(lra) Hth1 Hlt1
                  ltac:(left; reflexivity)) as [_ H13].
      apply (silent_tick_step_gen _ (Some 1) _ 1 208 224 H13);
        simpl; lra. }
  destruct threshold_after_beat as (th2 & Hth2 & Hlt2).
  assert (beat_at x s = true) as Hb.
  { apply (loud_tick_step s _ 0 208 th2 500 Hs ltac:(lra) Hth2 Hlt2).
    right; lra. }
  assert (lastBeatTime s = 208) as Hl by apply Hs.
  assert (bpm (snd (update x s)) <> 0) as W4.
  { destruct (tempo_fields_update x s) as (_ & _ & Hbpm).
    rewrite Hbpm, Hb.
    assert (tempo_ok (clock x) s = true) as ->.
    { unfold tempo_ok. rewrite Hl. apply andb_true_iff.
      split; [apply Rgtb_true; lra |].
      apply Rltb_true; unfold CONFIG.beatMaxIntervalMs; simpl; lra. }
    pose proof (next_bpm_range (clock x) s (or_introl W3)). lra. }
  destruct (first_tempo_estimate s x W1 W2) as [_ H].
  destruct (H W3 W4) as (_ & _ & _ & Hv).
  split; [exact W1 |]. split; [exact W2 |]. split; [exact W3 |].
  split; [exact W4 |]. split; [exact Hb |].
  rewrite Hv, Hl. cbn [clock x loud_tick].
  rewrite clamp_above by lra. apply (Math_round_integer 200).
Defined.

(** ** PaletteController *)

Module PaletteFacts.
Import PaletteController.

Lemma hold_min (a : Args) : CONFIG.paletteMinHoldMs <= hold a.
Proof. unfold hold; apply Rmax_l. Qed.

(** The hold time: the minimum hold, stretched to
    [paletteBeatsPerCycle] beat durations when the tempo is known. *)
Lemma hold_value (a : Args) :
  hold a
  = if Rgtb (bpm a) 0
    then Rmax CONFIG.paletteMinHoldMs
           (60000 / bpm a * INR CONFIG.paletteBeatsPerCycle)
    else CONFIG.paletteMinHoldMs.
Proof.
  unfold hold, targetHold. destruct (Rgtb (bpm a) 0) eqn:E.
  - apply Rgtb_true in E.
    assert (0 < 60000 / bpm a) as Hd
      by (apply Rdiv_lt_0_compat; lra).
    replace (Rgtb (60000 / bpm a) 0) with true
      by (symmetry; apply Rgtb_true; exact Hd).
    reflexivity.
  - replace (Rgtb 0 0) with false by (symmetry; apply Rgtb_false; lra).
    apply Rmax_left; lra.
Qed.

Lemma count_beat_fields (a : Args) (now : R) (s : State) :
  index (count_beat a now s) = index s
  /\ lastSwitch (count_beat a now s) = lastSwitch s
  /\ beatCount (count_beat a now s)
     = (beatCount s + if beatDetected a then 1 else 0)%nat.
Proof.
  unfold count_beat; destruct (beatDetected a); simpl; repeat split; lia.
Qed.

(** Before the hold time has passed neither branch runs. *)
Lemma update_before_hold (a : Args) (now : R) (s : State) :
  now - lastSwitch s < hold a ->
  advances a now s = false /\ quiet_resets a now s = false.
Proof.
  intros Hlt. destruct (count_beat_fields a now s) as (_ & Hl & _).
  unfold advances, quiet_resets. rewrite Hl.
  replace (Rgeb (now - lastSwitch s) (hold a)) with false
    by (symmetry; apply Rgeb_false; exact Hlt).
  cbn [andb]. rewrite andb_false_r. split; reflexivity.
Qed.

Lemma update_no_branch (a : Args) (now : R) (s : State) :
  advances a now s = false -> quiet_resets a now s = false ->
  snd (update a now s) = count_beat a now s.
Proof. intros H1 H2. unfold update. rewrite H1, H2. reflexivity. Qed.

End PaletteFacts.

Import PaletteFacts.


(** A flood of beats inside the minimum hold never moves the palette. *)
Lemma palette_flood (inputs : list (PaletteController.Args * R))
  (s : PaletteController.State) :
  Forall (fun i => snd i - PaletteController.lastSwitch s
                   < CONFIG.paletteMinHoldMs) inputs ->
  PaletteController.index (palette_run inputs s) = PaletteController.index s
  /\ PaletteController.lastSwitch (palette_run inputs s)
     = PaletteController.lastSwitch s.
Proof.
  revert s; induction inputs as [|[a now] inputs IH]; intros s Hall.
  - split; reflexivity.
  - inversion Hall as [|i l Hi Hrest]; subst. cbn [fst snd] in Hi.
    unfold palette_run; cbn [fold_left fst snd].
    fold (palette_run inputs (snd (PaletteController.update a now s))).
    pose proof (hold_min (fst (a, now))) as Hmin. cbn [fst] in Hmin.
    destruct (update_before_hold a now s ltac:(lra)) as [Hadv Hq].
    rewrite (update_no_branch a now s Hadv Hq).
    destruct (count_beat_fields a now s) as (Hidx & Hls & _).
    destruct (IH (PaletteController.count_beat a now s)) as [H1 H2].
    + rewrite Hls; exact Hrest.
    + rewrite H1, H2, Hidx, Hls. split; reflexivity.
Qed.

(** The palette advances on the eighth counted beat once the hold of four
    seconds (eight beats at 120 BPM) has passed. *)
Example palette_advances_on_eighth_beat :
  let s := PaletteController.mkState 0 0 7 0 in
  let a := PaletteController.mkArgs 0.5 0.9 true 120 in
  PaletteController.advances a 5000 s = true
  /\ PaletteController.index (snd (PaletteController.update a 5000 s)) = 1%nat
  /\ PaletteController.beatCount (snd (PaletteController.update a 5000 s))
     = 0%nat.
Proof.
  intros s a.
  assert (PaletteController.hold a = 4000) as Hh.
  { rewrite hold_value. cbn [PaletteController.bpm a].
    replace (Rgtb 120 0) with true by (symmetry; apply Rgtb_true; lra).
    unfold CONFIG.paletteMinHoldMs, CONFIG.paletteBeatsPerCycle.
    rewrite INR_literal; simpl Z.of_nat. rewrite Rmax_right by lra. lra. }
  assert (PaletteController.advances a 5000 s = true) as Ha.
  { unfold PaletteController.advances. rewrite Hh.
    cbn [PaletteController.count_beat PaletteController.beatDetected a s
         PaletteController.lastSwitch PaletteController.beatCount].
    replace (Rgeb (5000 - 0) 4000) with true
      by (symmetry; apply Rgeb_true; lra).
    unfold PaletteController.strongPulse. cbn [PaletteController.beatDetected].
    rewrite orb_true_r. reflexivity. }
  assert (PaletteController.quiet_resets a 5000 s = false) as Hq.
  { unfold PaletteController.quiet_resets.
    cbn [PaletteController.audioIntensity a].
    replace (Rltb 0.5 CONFIG.paletteQuietIntensity) with false
      by (symmetry; apply Rltb_false; unfold CONFIG.paletteQuietIntensity;
          lra).
    reflexivity. }
  split; [exact Ha |].
  unfold PaletteController.update. rewrite Ha, Hq. split; reflexivity.
Qed.

(** ** Degenerate input *)

Lemma fold_abs_nonneg (mean : R) (window : list R) :
  forall acc, 0 <= acc ->
  0 <= fold_left (fun d h => d + Rabs (h - mean)) window acc.
Proof.
  induction window as [|h window IH]; intros acc Hacc; simpl.
  - exact Hacc.
  - apply IH. pose proof (Rabs_pos (h - mean)). lra.
Qed.

Lemma fold_plus_nonneg (window : list R) :
  Forall (fun v => 0 <= v) window ->
  forall acc, 0 <= acc -> 0 <= fold_left Rplus window acc.
Proof.
  induction 1 as [|h window Hh Hw IH]; intros acc Hacc; simpl.
  - exact Hacc.
  - apply IH; lra.
Qed.

Lemma Forall_skipn_nonneg (n : nat) (l : list R) :
  Forall (fun v => 0 <= v) l -> Forall (fun v => 0 <= v) (skipn n l).
Proof.
  revert l; induction n as [|n IH]; intros l H; simpl; [exact H |].
  destruct l; [constructor |]. inversion H; subst. apply IH; assumption.
Qed.

(** The threshold of a history without negative entries is not negative. *)
Lemma flux_threshold_nonneg (history : list R) (th : R) :
  Forall (fun v => 0 <= v) history ->
  flux_threshold history = Some th -> 0 <= th.
Proof.
  intros Hnn. unfold flux_threshold.
  destruct (Nat.leb_spec CONFIG.fluxMinWindow
              (Nat.min (length history) CONFIG.fluxWindow)) as [Hw|Hw];
    [| discriminate].
  intros E; inversion E; subst; clear E.
  set (w := Nat.min (length history) CONFIG.fluxWindow) in *.
  assert (0 < INR w) as Hpos.
  { apply lt_0_INR. unfold CONFIG.fluxMinWindow in Hw. lia. }
  set (window := skipn (length history - w) history).
  assert (0 <= sum_list window) as Hs.
  { unfold sum_list. apply fold_plus_nonneg;
      [apply Forall_skipn_nonneg; exact Hnn | lra]. }
  apply Rplus_le_le_0_compat.
  - apply Rmult_le_pos; [exact Hs | apply Rlt_le, Rinv_0_lt_compat, Hpos].
  - apply Rmult_le_pos; [| unfold CONFIG.fluxSensitivity; lra].
    apply Rmult_le_pos;
      [apply fold_abs_nonneg; lra | apply Rlt_le, Rinv_0_lt_compat, Hpos].
Qed.

Lemma push_shift_nonneg (cap : nat) (arr : list R) (x : R) :
  Forall (fun v => 0 <= v) arr -> 0 <= x ->
  Forall (fun v => 0 <= v) (push_shift cap arr x).
Proof.
  intros Ha Hx. unfold push_shift.
  assert (Forall (fun v => 0 <= v) (arr ++ [x])) as H
    by (apply Forall_app; split;
        [exact Ha | constructor; [exact Hx | constructor]]).
  destruct (cap <? length (arr ++ [x]))%nat; [| exact H].
  destruct (arr ++ [x]); simpl; [constructor |]. inversion H; assumption.
Qed.

Lemma frequencies_silent : frequencies (flat_frame x00) = repeat 0 CONFIG.barCount.
Proof.
  unfold frequencies, flat_frame; cbn [freqData].
  set (step := Nat.max 1 _).
  assert (forall l : list nat,
             map (fun i => Math_fround
                             (Math_pow
                                (byte_val (nth (i * step)
                                             (repeat x00 frequencyBinCount)
                                             x00)
                                 / 255) 0.62)) l
             = repeat 0 (length l)) as H.
  { induction l as [|i l IH]; [reflexivity |].
    cbn [map length repeat]. rewrite IH. f_equal.
    rewrite nth_repeat. unfold byte_val; simpl.
    replace (0 / 255) with 0 by lra. rewrite Math_pow_0.
    apply Math_fround_0. }
  rewrite H, length_seq. reflexivity.
Qed.

(** Every index the display loop reads is inside the allocated buffer. *)
Lemma frequencies_in_range (f : Frame) (i : nat) :
  wf_frame f -> (i < CONFIG.barCount)%nat ->
  (i * Nat.max 1 (length (freqData f) / CONFIG.barCount)
   < length (freqData f))%nat.
Proof.
  intros [_ Hf] Hi. rewrite Hf.
  change (Nat.max 1 (frequencyBinCount / CONFIG.barCount)) with 10%nat.
  change frequencyBinCount with 1024%nat.
  unfold CONFIG.barCount in Hi. lia.
Qed.

Lemma flux_silent (s : State) (sp : option R) (hist : list R) (pf lbt : R) :
  tracker_state s sp hist pf lbt -> spectrum_nonneg sp ->
  fst (_calculateFlux (flat_frame x00) s) = 0.
Proof.
  intros (_ & Hsp & _) Hnn.
  destruct sp as [p|]; unfold flat_spectrum in Hsp;
    cbn [option_map spectrum_nonneg] in *.
  - destruct (_calculateFlux_flat_next x00 p s Hsp) as [F1 _].
    rewrite F1, magnitude_x00, Rmax_left by lra. reflexivity.
  - apply (_calculateFlux_flat_first x00 s Hsp).
Qed.

Lemma _updateBrightness_value (s : State) :
  brightness (_updateBrightness s)
  = clamp ((mid (bandEnergy s) * 0.35 + high (bandEnergy s) * 0.65)
           / (low (bandEnergy s) + mid (bandEnergy s) + high (bandEnergy s)
              + 1e-6)) 0 1.
Proof.
  unfold _updateBrightness. destruct (bandEnergy s) as [l m h]; reflexivity.
Qed.

Lemma lerp_zero (t : R) : lerp 0 0 t = 0.
Proof. unfold lerp; lra. Qed.

(** One silent tick on a quiet analyser: the snapshot is zero in every
    field but [rmsAverage], and the analyser stays quiet. *)
Lemma quiet_tick (s : State) (k : nat) (t : R) :
  quiet_state s k ->
  let o := fst (update (silent_tick t) s) in
  quiet_state (snd (update (silent_tick t) s)) (S k)
  /\ Snapshot.rms o = 0 /\ Snapshot.level o = 0 /\ Snapshot.beatPulse o = 0
  /\ Snapshot.brightness o = 0 /\ Snapshot.bpm o = 0
  /\ Snapshot.beatDetected o = false
  /\ Snapshot.bandEnergy o = mkBandEnergy 0 0 0
  /\ Snapshot.frequencies o = repeat 0 CONFIG.barCount
  /\ Snapshot.rmsAverage o = 0.001 * 0.95 ^ S k.
Proof.
  intros ((sp & hist & lbt & Hs & Hnn & Hh) & Hrms & Hlv & Hla & Hbp & Hbpm
          & Hra).
  cbv zeta.
  destruct (silent_tick_step_gen s sp hist 0 lbt t Hs Hnn ltac:(lra))
    as (Hb & _ & Hs').
  pose proof (flux_silent s sp hist 0 lbt Hs Hnn) as Hflux.
  pose proof (bpm_stays_zero (silent_tick t) s Hbpm (or_introl Hb)) as Hbpm'.
  assert (analyser s = true) as Ha by apply Hs.
  assert (fluxHistory s = hist) as Hfh by apply Hs.
  unfold beat_at in Hb.
  tick_cases (silent_tick t) s Ha.
  decompose record Hft; decompose record Hdf; decompose record Hup.
  clear Hft Hdf Hup. cbn [frame clock silent_tick fst snd] in *.
  assert (d = false) as -> by congruence.
  assert (normalized ft = 0) as Hn
    by (rewrite <- (normalized_level_flat x00); assumption).
  assert (flux ft = 0) as Hfl by congruence.
  assert (Rmax 0 (fluxDelta ft) = 0) as Hdl.
  { match goal with H : fluxDelta ft = _ |- _ => rewrite H end.
    destruct (fluxThreshold ft) as [th|] eqn:Eth.
    - assert (0 <= th) as Hth.
      { apply (flux_threshold_nonneg hist); [exact Hh | congruence]. }
      rewrite Rmax_left by lra. reflexivity.
    - apply Rmax_left; lra. }
  assert (levelAverage s1 = 0) as Hla1.
  { match goal with H : levelAverage s1 = _ |- _ => rewrite H end.
    rewrite Hla, Hn. apply lerp_zero. }
  assert (beatPulse s1 = 0) as Hbp1.
  { match goal with H : beatPulse s1 = _ |- _ => rewrite H end.
    rewrite Hbp, Hn, Hla1, Hdl.
    replace (Rmax 0 (0 - 0 * 1.01)) with 0
      by (rewrite Rmax_left by lra; reflexivity).
    match goal with |- lerp 0 (clamp ?v 0 1) _ = 0 =>
      replace v with 0 by lra end.
    rewrite clamp_inside by lra. apply lerp_zero. }
  assert (bandEnergy s1 = mkBandEnergy 0 0 0) as Hbe.
  { match goal with H : bandEnergy s1 = _ |- _ => rewrite H end.
    rewrite _updateBands_flat, flat_energy_x00. reflexivity. }
  assert (brightness s1 = 0) as Hbr.
  { match goal with H : brightness s1 = brightness _ |- _ => rewrite H end.
    rewrite _updateBrightness_value, _updateBands_flat, flat_energy_x00.
    cbn [low mid high].
    replace ((0 * 0.35 + 0 * 0.65) / (0 + 0 + 0 + 1e-6)) with 0 by lra.
    apply clamp_inside; lra. }
  assert (rms s1 = 0) as Hrms1.
  { match goal with H : rms s1 = _ |- _ => rewrite H end.
    rewrite Hrms, nextRms_flat. apply lerp_zero. }
  assert (level s1 = 0) as Hlv1.
  { match goal with H : level s1 = _ |- _ => rewrite H end.
    rewrite Hlv, Hn. apply lerp_zero. }
  assert (rmsAverage s1 = 0.001 * 0.95 ^ S k) as Hra1.
  { match goal with H : rmsAverage s1 = _ |- _ => rewrite H end.
    rewrite Hra, nextRms_flat. unfold lerp. simpl pow. lra. }
  assert (Snapshot.frequencies (fst (update (silent_tick t) s))
          = repeat 0 CONFIG.barCount) as Hfr
    by (rewrite <- frequencies_silent; assumption).
  split.
  - unfold quiet_state. split.
    + exists (Some 0), (push_shift CONFIG.fluxHistorySize hist 0),
        (if reset_due t lbt 0 then 0 else lbt).
      split; [exact Hs' |]. split; [simpl; lra |].
      apply push_shift_nonneg; [exact Hh | lra].
    + repeat split; congruence.
  - repeat split; congruence.
Qed.

Lemma quiet_state_init : quiet_state (init constructor) 0.
Proof.
  unfold quiet_state. split.
  - exists None, [], 0. split; [apply tracker_state_init |].
    split; [exact I | constructor].
  - simpl. repeat split; try reflexivity. lra.
Qed.

Lemma quiet_run (ts : list R) :
  forall (s : State) (k : nat),
  quiet_state s k ->
  quiet_state (final (map silent_tick ts) s) (k + length ts).
Proof.
  induction ts as [|t ts IH]; intros s k Hq.
  - rewrite Nat.add_0_r. exact Hq.
  - cbn [map length]. rewrite final_cons, Nat.add_succ_r.
    apply (IH _ (S k)). apply (quiet_tick s k t Hq).
Qed.

(** C7, as the code has it.  Without an analyser [update] returns the
    zeroed snapshot and leaves the state alone.  With one, on zero-filled
    buffers of the allocated sizes from the freshly constructed analyser,
    every tick returns 0 for [rms], [level], [beatPulse], [brightness],
    [bpm] and the band energies, no beat and a zero-filled frequency array;
    [rmsAverage] is not 0: it starts at 0.001 and is multiplied by 0.95 on
    each tick. *)
Theorem degenerate_input_snapshot (ts : list R) (t : R) :
  (forall (x : Tick) (s : State),
      analyser s = false -> update x s = (_emptyState, s))
  /\ let s := final (map silent_tick ts) (init constructor) in
     let o := fst (update (silent_tick t) s) in
     Snapshot.rms o = 0 /\ Snapshot.level o = 0 /\ Snapshot.beatPulse o = 0
     /\ Snapshot.brightness o = 0 /\ Snapshot.bpm o = 0
     /\ Snapshot.beatDetected o = false
     /\ Snapshot.bandEnergy o = mkBandEnergy 0 0 0
     /\ Snapshot.frequencies o = repeat 0 CONFIG.barCount
     /\ Snapshot.rmsAverage o = 0.001 * 0.95 ^ S (length ts)
     /\ 0 < Snapshot.rmsAverage o.
Proof.
  split; [exact update_uninitialised |].
  cbv zeta.
  pose proof (quiet_run ts (init constructor) 0 quiet_state_init) as Hq.
  cbn [Nat.add] in Hq.
  destruct (quiet_tick _ (length ts) t Hq)
    as (_ & H1 & H2 & H3 & H4 & H5 & H6 & H7 & H8 & H9).
  repeat split; try assumption.
  rewrite H9. apply Rmult_lt_0_compat; [lra | apply pow_lt; lra].
Qed.

(** C7, as stated, fails on the first zero-filled frame: the snapshot is
    not the zeroed one, its [rmsAverage] being 0.00095. *)
Lemma silent_snapshot_not_empty :
  Snapshot.rmsAverage (fst (update (silent_tick 16) (init constructor)))
  = 0.00095
  /\ fst (update (silent_tick 16) (init constructor)) <> _emptyState.
Proof.
  pose proof (quiet_tick (init constructor) 0 16 quiet_state_init) as H.
  cbv zeta in H. destruct H as (_ & _ & _ & _ & _ & _ & _ & _ & _ & H).
  assert (Snapshot.rmsAverage
            (fst (update (silent_tick 16) (init constructor))) = 0.00095)
    as Hv by (rewrite H; simpl; lra).
  split; [exact Hv |].
  intros E. rewrite E in Hv. simpl in Hv. lra.
Qed.

(** * Further properties of the analyser *)

(** ** The stored spectrum and the flux *)

Lemma byte_val_range (b : byte) : 0 <= byte_val b / 255 <= 1.
Proof.
  unfold byte_val. pose proof (Byte.to_N_bounded b) as Hb.
  assert (0 <= IZR (Z.of_N (Byte.to_N b)) <= 255) as [H0 H1].
  { split; apply IZR_le; lia. }
  split; lra.
Qed.

Lemma magnitude_range (b : byte) : unit_interval (magnitude b).
Proof.
  unfold magnitude. apply Math_pow_range; [apply byte_val_range |].
  unfold CONFIG.fluxExponent; lra.
Qed.

Lemma stored_magnitude_range (b : byte) : unit_interval (stored_magnitude b).
Proof.
  unfold stored_magnitude. apply Math_fround_unit. apply magnitude_range.
Qed.

(** A stored magnitude is within half a unit in the last place of the
    magnitude it was written from. *)
Lemma stored_magnitude_error (b : byte) :
  magnitude b - stored_magnitude b <= powerRZ 2 (-25).
Proof.
  unfold stored_magnitude.
  destruct (Math_fround_unit (magnitude b) (magnitude_range b)) as [_ H].
  lra.
Qed.

Lemma spectrum_of_range (f : Frame) : Forall unit_interval (spectrum_of f).
Proof.
  unfold spectrum_of. induction (freqData f) as [|b l IH]; simpl;
    constructor; [apply stored_magnitude_range | exact IH].
Qed.

Lemma push_shift_Forall (P : R -> Prop) (cap : nat) (arr : list R) (x : R) :
  Forall P arr -> P x -> Forall P (push_shift cap arr x).
Proof.
  intros Ha Hx. unfold push_shift.
  assert (Forall P (arr ++ [x])) as H
    by (apply Forall_app; split;
        [exact Ha | constructor; [exact Hx | constructor]]).
  destruct (cap <? length (arr ++ [x]))%nat; [| exact H].
  destruct (arr ++ [x]); simpl; [constructor |]. inversion H; assumption.
Qed.

(** The loop over bins of the same number as the stored entries: it stores
    the magnitudes of the bins, and adds to the flux at least nothing and
    at most 1 per bin. *)
Lemma flux_loop_spec (data : list byte) :
  forall (prev : list R) (acc : R),
  length prev = length data -> Forall unit_interval prev ->
  snd (flux_loop data prev acc) = map stored_magnitude data
  /\ acc <= fst (flux_loop data prev acc) <= acc + INR (length data).
Proof.
  induction data as [|b data IH]; intros prev acc Hl Hp.
  - destruct prev; [|discriminate]. simpl. split; [reflexivity | lra].
  - destruct prev as [|p prev]; [discriminate |].
    inversion Hp as [|p' l' Hp0 Hp1]; subst.
    cbn [flux_loop].
    set (acc' := if Rgtb (magnitude b - p) 0 then acc + (magnitude b - p)
                 else acc).
    destruct (IH prev acc' ltac:(simpl in Hl; lia) Hp1) as [Hs Hf].
    destruct (flux_loop data prev acc') as [fl st]. cbn [fst snd] in *.
    split; [cbn [map]; rewrite Hs; reflexivity |].
    change (length (b :: data)) with (S (length data)). rewrite S_INR.
    pose proof (magnitude_range b) as [Hm0 Hm1].
    destruct Hp0 as [Hp00 Hp01].
    assert (acc <= acc' <= acc + 1) as Hacc.
    { unfold acc'. destruct (Rgtb (magnitude b - p) 0) eqn:E.
      - apply Rgtb_true in E. lra.
      - lra. }
    lra.
Qed.

(** [_calculateFlux] on a state whose stored spectrum is in order: the flux
    lies in [[0,1]] and the stored spectrum becomes that of the frame. *)
Lemma _calculateFlux_spec (f : Frame) (s : State) :
  wf_frame f -> spectrum_ok s ->
  unit_interval (fst (_calculateFlux f s))
  /\ prevSpectrum (snd (_calculateFlux f s)) = Some (spectrum_of f).
Proof.
  intros [_ Hf] Hs. unfold _calculateFlux, spectrum_ok in *.
  destruct (prevSpectrum s) as [prev|].
  - destruct Hs as [Hl Hp].
    destruct (flux_loop_spec (freqData f) prev 0 ltac:(congruence) Hp)
      as [Hst Hfl].
    destruct (flux_loop (freqData f) prev 0) as [fl st]. cbn [fst snd] in *.
    split; [| cbn; rewrite Hst; reflexivity].
    assert (0 < INR (length (freqData f))) as Hn.
    { rewrite Hf. apply lt_0_INR. unfold frequencyBinCount; simpl; lia. }
    split.
    + apply Rmult_le_pos; [lra | apply Rlt_le, Rinv_0_lt_compat, Hn].
    + apply (Rmult_le_reg_r (INR (length (freqData f)))); [exact Hn |].
      unfold Rdiv. rewrite Rmult_assoc, Rinv_l by lra. lra.
  - cbn. split; [unfold unit_interval; lra | reflexivity].
Qed.

Lemma spectrum_of_length (f : Frame) :
  wf_frame f -> length (spectrum_of f) = frequencyBinCount.
Proof. intros [_ Hf]. unfold spectrum_of. rewrite length_map. exact Hf. Qed.

Lemma nextRms_nonneg (f : Frame) : 0 <= nextRms f.
Proof. unfold nextRms. apply sqrt_pos. Qed.

Lemma analysis_invariant_constructor : analysis_invariant constructor.
Proof.
  unfold analysis_invariant, spectrum_ok, unit_interval; simpl.
  repeat split; try lra; try constructor.
  exists 0%Z; reflexivity.
Qed.

Lemma analysis_invariant_update (x : Tick) (s : State) :
  wf_tick x -> state_in_range s -> analysis_invariant s ->
  analysis_invariant (snd (update x s)).
Proof.
  intros Hw Hr (Hsp & Hfh & Hpf & Hrms & Hra & Hla & Hz & Hiv).
  destruct (analyser s) eqn:Ha.
  2:{ rewrite (update_uninitialised x s Ha). cbn [snd].
      unfold analysis_invariant; tauto. }
  destruct (tempo_fields_update x s) as (_ & Hi' & Hb').
  pose proof (beat_at_refractory x s) as Hrefr.
  destruct (_calculateFlux_spec (frame x) s Hw Hsp) as [Hflux Hstored].
  tick_cases x s Ha.
  decompose record Hft; decompose record Hdf; decompose record Hup.
  clear Hft Hdf Hup.
  assert (unit_interval (flux ft)) as Hfl by congruence.
  assert (unit_interval (normalized ft)) as Hn
    by (replace (normalized ft) with (normalized_level (frame x));
        apply clamp_range; lra).
  pose proof (nextRms_nonneg (frame x)) as Hnr.
  assert (spectrum_ok (snd (update x s))) as G1.
  { unfold spectrum_ok.
    replace (prevSpectrum (snd (update x s)))
      with (Some (spectrum_of (frame x))) by congruence.
    split; [apply spectrum_of_length; exact Hw | apply spectrum_of_range]. }
  assert (Forall unit_interval (fluxHistory (snd (update x s)))) as G2.
  { replace (fluxHistory (snd (update x s))) with (fluxHistory s1)
      by congruence.
    match goal with H : fluxHistory s1 = _ |- _ => rewrite H end.
    apply push_shift_Forall; assumption. }
  assert (unit_interval (prevFlux (snd (update x s)))) as G3.
  { replace (prevFlux (snd (update x s))) with (flux ft) by congruence.
    exact Hfl. }
  assert (0 <= rms (snd (update x s))) as G4.
  { replace (rms (snd (update x s))) with (rms s1) by congruence.
    match goal with H : rms s1 = _ |- _ => rewrite H end.
    unfold lerp. nra. }
  assert (0 < rmsAverage (snd (update x s))) as G5.
  { replace (rmsAverage (snd (update x s))) with (rmsAverage s1)
      by congruence.
    match goal with H : rmsAverage s1 = _ |- _ => rewrite H end.
    unfold lerp. nra. }
  assert (unit_interval (levelAverage (snd (update x s)))) as G6.
  { replace (levelAverage (snd (update x s))) with (levelAverage s1)
      by congruence.
    match goal with H : levelAverage s1 = _ |- _ => rewrite H end.
    apply lerp_range; [exact Hla | exact Hn | lra]. }
  assert (exists z : Z, bpm (snd (update x s)) = IZR z) as G7.
  { rewrite Hb'. destruct (beat_at x s).
    - destruct (tempo_ok (clock x) s); [| exact Hz].
      unfold next_bpm. destruct (Reqb (bpm s) 0); unfold Math_round;
        eexists; reflexivity.
    - destruct (reset_at x s); [exists 0%Z; reflexivity | exact Hz]. }
  assert (Forall plausible_interval (beatIntervals (snd (update x s))))
    as G8.
  { rewrite Hi'. destruct (beat_at x s) eqn:Hb.
    - destruct (tempo_ok (clock x) s) eqn:Ht; [| exact Hiv].
      apply push_shift_Forall; [exact Hiv |].
      unfold tempo_ok in Ht. apply andb_true_iff in Ht.
      destruct Ht as [Hpos Hlt]. apply Rgtb_true in Hpos.
      apply Rltb_true in Hlt.
      destruct (Hrefr eq_refl) as [Hzero|Hgt]; [lra |].
      split; [lra | exact Hlt].
    - destruct (reset_at x s); [constructor | exact Hiv]. }
  unfold analysis_invariant; tauto.
Qed.

Lemma reachable_analysis_invariant (s : State) :
  reachable s -> analysis_invariant s.
Proof.
  induction 1 as [|s Hr IH|s x Hr IH Hx].
  - apply analysis_invariant_constructor.
  - exact IH.
  - apply analysis_invariant_update;
      [exact Hx | apply reachable_in_range; exact Hr | exact IH].
Qed.

Lemma final_keeps_analyser (xs : list Tick) (s : State) :
  analyser (final xs s) = analyser s.
Proof.
  revert s; induction xs as [|x xs IH]; intros s; [reflexivity |].
  rewrite final_cons, IH; apply update_analyser.
Qed.

(** After a tick with an analyser, the stored spectrum is the
    compressed magnitudes of that tick's bins as binary32 numbers, one
    entry per bin, whatever was stored before. *)
Theorem stored_spectrum_is_last_frame (s : State) (x : Tick) :
  reachable s -> wf_tick x -> analyser s = true ->
  prevSpectrum (snd (update x s)) = Some (map stored_magnitude (freqData (frame x)))
  /\ length (map stored_magnitude (freqData (frame x))) = frequencyBinCount.
Proof.
  intros Hr Hw Ha.
  pose proof (reachable_analysis_invariant s Hr) as (Hsp & _).
  destruct (_calculateFlux_spec (frame x) s Hw Hsp) as [_ Hst].
  split; [| apply (spectrum_of_length (frame x) Hw)].
  tick_cases x s Ha.
  decompose record Hft; decompose record Hdf; decompose record Hup.
  unfold spectrum_of in Hst. congruence.
Qed.

Lemma stored_spectrum_is_last_frame_witness :
  reachable (init constructor) /\ wf_tick (loud_tick 16)
  /\ analyser (init constructor) = true
  /\ prevSpectrum (snd (update (loud_tick 16) (init constructor)))
     = Some (map stored_magnitude (freqData (frame (loud_tick 16)))).
Proof.
  assert (reachable (init constructor)) as W1
    by (apply reachable_init, reachable_constructor).
  assert (wf_tick (loud_tick 16)) as W2 by apply wf_flat_frame.
  assert (analyser (init constructor) = true) as W3 by reflexivity.
  split; [exact W1 |]. split; [exact W2 |]. split; [exact W3 |].
  exact (proj1 (stored_spectrum_is_last_frame _ _ W1 W2 W3)).
Defined.

Lemma Forall_unit_nonneg (l : list R) :
  Forall unit_interval l -> Forall (fun v => 0 <= v) l.
Proof. apply Forall_impl. intros v [H _]; exact H. Qed.

(** X1.  The spectral flux of a tick lies in [[0,1]]; so does every entry
    of the flux history, and the adaptive threshold, when defined, is not
    negative. *)
Theorem flux_in_unit_interval (s : State) (x : Tick) :
  reachable s -> wf_tick x ->
  unit_interval (fst (_calculateFlux (frame x) s))
  /\ Forall unit_interval (fluxHistory s)
  /\ (forall th, flux_threshold (fluxHistory s) = Some th -> 0 <= th).
Proof.
  intros Hr Hw.
  pose proof (reachable_analysis_invariant s Hr) as (Hsp & Hfh & _).
  split; [apply (_calculateFlux_spec (frame x) s Hw Hsp) |].
  split; [exact Hfh |].
  intros th Hth.
  apply (flux_threshold_nonneg (fluxHistory s) th);
    [apply Forall_unit_nonneg; exact Hfh | exact Hth].
Qed.

Lemma flux_in_unit_interval_witness :
  let s := snd (update (silent_tick 16) (init constructor)) in
  reachable s /\ wf_tick (loud_tick 32)
  /\ unit_interval (fst (_calculateFlux (frame (loud_tick 32)) s)).
Proof.
  intros s.
  assert (reachable s) as W1.
  { apply reachable_update; [| apply wf_flat_frame].
    apply reachable_init, reachable_constructor. }
  assert (wf_tick (loud_tick 32)) as W2 by apply wf_flat_frame.
  split; [exact W1 |]. split; [exact W2 |].
  exact (proj1 (flux_in_unit_interval s (loud_tick 32) W1 W2)).
Defined.

(** ** The warm-up *)

Lemma no_candidate_without_threshold (lv fl dl : R) (be : BandEnergy)
  (s : State) :
  onset_candidate lv fl None dl be s = false.
Proof. reflexivity. Qed.

Lemma no_beat_on_early_tick (xs : list Tick) (x : Tick) :
  (length xs < CONFIG.fluxMinWindow)%nat ->
  beat_at x (final xs (init constructor)) = false.
Proof.
  intros Hlen.
  destruct (threshold_warmup_facts xs x) as (_ & Hthr).
  { unfold CONFIG.fluxMinWindow, CONFIG.fluxHistorySize in *. lia. }
  apply Hthr in Hlen.
  set (s := final xs (init constructor)) in *.
  assert (analyser s = true) as Ha
    by (unfold s; rewrite final_keeps_analyser; reflexivity).
  unfold beat_at. tick_cases x s Ha.
  decompose record Hup. cbn [fst] in Hlen.
  rewrite Hlen in Hdd. cbn in Hdd. congruence.
Qed.

(** X2.  From the initialised analyser, no beat is reported on any of the
    first [fluxMinWindow] = 12 ticks, whatever the frames hold. *)
Theorem no_beat_during_warmup (xs : list Tick) :
  (length xs <= CONFIG.fluxMinWindow)%nat ->
  Forall (fun o => Snapshot.beatDetected o = false)
    (outputs xs (init constructor)).
Proof.
  induction xs as [|x xs IH] using rev_ind; intros Hlen.
  - constructor.
  - rewrite length_app in Hlen; cbn [length] in Hlen.
    rewrite outputs_app. apply Forall_app. split; [apply IH; lia |].
    rewrite outputs_cons. constructor; [| constructor].
    apply no_beat_on_early_tick. lia.
Qed.

Lemma no_beat_during_warmup_witness :
  (length (silent_ticks 16 11 ++ [loud_tick 192]) <= CONFIG.fluxMinWindow)%nat
  /\ Forall (fun o => Snapshot.beatDetected o = false)
       (outputs (silent_ticks 16 11 ++ [loud_tick 192]) (init constructor)).
Proof.
  assert (length (silent_ticks 16 11 ++ [loud_tick 192])
          <= CONFIG.fluxMinWindow)%nat as W
    by (unfold CONFIG.fluxMinWindow; simpl; lia).
  split; [exact W |].
  exact (no_beat_during_warmup _ W).
Defined.

(** ** The tempo *)

(** X3.  The tempo a tick reports is a whole number: 0 or an integer from
    50 to 200. *)
Theorem reported_bpm_is_whole (s : State) (x : Tick) :
  reachable s -> wf_tick x ->
  exists z : Z,
    Snapshot.bpm (fst (update x s)) = IZR z
    /\ (z = 0 \/ 50 <= z <= 200)%Z.
Proof.
  intros Hr Hw.
  destruct (analyser s) eqn:Ha.
  2:{ rewrite (update_uninitialised x s Ha). exists 0%Z.
      split; [reflexivity | left; reflexivity]. }
  rewrite (snapshot_bpm x s Ha).
  assert (reachable (snd (update x s))) as Hr'
    by (apply reachable_update; assumption).
  pose proof (reachable_analysis_invariant _ Hr')
    as (_ & _ & _ & _ & _ & _ & [z Hz] & _).
  pose proof (reachable_in_range _ Hr') as (_ & _ & _ & _ & Hb & _).
  exists z. split; [exact Hz |].
  rewrite Hz in Hb. destruct Hb as [Hb|[Hb1 Hb2]].
  - left. apply eq_IZR. exact Hb.
  - right. split; apply le_IZR; assumption.
Qed.

Lemma reported_bpm_is_whole_witness :
  reachable (init constructor) /\ wf_tick (silent_tick 16)
  /\ exists z : Z,
       Snapshot.bpm (fst (update (silent_tick 16) (init constructor)))
       = IZR z.
Proof.
  assert (reachable (init constructor)) as W1
    by (apply reachable_init, reachable_constructor).
  assert (wf_tick (silent_tick 16)) as W2 by apply wf_flat_frame.
  split; [exact W1 |]. split; [exact W2 |].
  destruct (reported_bpm_is_whole _ _ W1 W2) as [z [Hz _]].
  exists z; exact Hz.
Defined.

Lemma sum_bounds (lo hi : R) (l : list R) :
  Forall (fun v => lo < v < hi) l ->
  forall acc,
  acc + INR (length l) * lo <= fold_left Rplus l acc
  /\ fold_left Rplus l acc <= acc + INR (length l) * hi
  /\ (l <> [] ->
      acc + INR (length l) * lo < fold_left Rplus l acc
      /\ fold_left Rplus l acc < acc + INR (length l) * hi).
Proof.
  induction 1 as [|v l Hv Hl IH]; intros acc.
  - simpl. split; [lra |]. split; [lra |]. intros H; contradiction.
  - change (length (v :: l)) with (S (length l)). rewrite S_INR.
    cbn [fold_left]. destruct (IH (acc + v)) as (H1 & H2 & _).
    split; [lra |]. split; [lra |]. intros _; lra.
Qed.

(** X4.  Every interval in the tempo window lies strictly between
    [beatMinIntervalMs] and [beatMaxIntervalMs]; so does their mean, and
    the floor of 1 under the mean never takes effect. *)
Theorem tempo_window_is_plausible (s : State) :
  reachable s ->
  Forall plausible_interval (beatIntervals s)
  /\ (beatIntervals s <> [] ->
      let avg := sum_list (beatIntervals s) / INR (length (beatIntervals s)) in
      plausible_interval avg /\ Rmax avg 1 = avg).
Proof.
  intros Hr.
  pose proof (reachable_analysis_invariant s Hr)
    as (_ & _ & _ & _ & _ & _ & _ & Hiv).
  split; [exact Hiv |]. intros Hne. cbv zeta.
  destruct (sum_bounds _ _ _ Hiv 0) as (_ & _ & Hb).
  destruct (Hb Hne) as [Hlo Hhi].
  assert (0 < INR (length (beatIntervals s))) as Hn.
  { apply lt_0_INR. destruct (beatIntervals s); [contradiction | simpl; lia]. }
  unfold sum_list.
  set (n := INR (length (beatIntervals s))) in *.
  set (sm := fold_left Rplus (beatIntervals s) 0) in *.
  unfold CONFIG.beatMinIntervalMs, CONFIG.beatMaxIntervalMs in *.
  assert (200 < sm / n < 1400) as Havg.
  { split.
    - apply (Rmult_lt_reg_r n); [exact Hn |].
      unfold Rdiv. rewrite Rmult_assoc, Rinv_l by lra. lra.
    - apply (Rmult_lt_reg_r n); [exact Hn |].
      unfold Rdiv. rewrite Rmult_assoc, Rinv_l by lra. lra. }
  split; [exact Havg | apply Rmax_left; lra].
Qed.

(** X5.  A confirmed beat lifts the returned pulse to at least the boost of
    0.34. *)
Theorem beat_lifts_pulse (s : State) (x : Tick) :
  reachable s -> wf_tick x -> beat_at x s = true ->
  0.34 <= Snapshot.beatPulse (fst (update x s)) <= 1.
Proof.
  intros Hr Hw Hb.
  destruct (analyser s) eqn:Ha.
  2:{ rewrite (beat_at_uninitialised x s Ha) in Hb; discriminate. }
  pose proof (reachable_in_range s Hr) as (_ & _ & Hbp & _).
  unfold beat_at in Hb. tick_cases x s Ha.
  decompose record Hft; decompose record Hdf; decompose record Hup.
  clear Hft Hdf Hup.
  assert (d = true) as -> by congruence.
  assert (unit_interval (beatPulse s2)) as [Hp0 Hp1].
  { replace (beatPulse s2) with (beatPulse s1) by congruence.
    match goal with H : beatPulse s1 = _ |- _ => rewrite H end.
    apply lerp_range; [exact Hbp | apply clamp_range; lra | lra]. }
  replace (Snapshot.beatPulse (fst (update x s)))
    with (Rmin 1 (beatPulse s2 + 0.34)) by congruence.
  unfold Rmin. destruct (Rle_dec 1 (beatPulse s2 + 0.34)); lra.
Qed.

Lemma warmed_up_state :
  let s := final (silent_ticks 16 12) (init constructor) in
  reachable s /\ tracker_state s (Some 0) (repeat 0 12) 0 0.
Proof.
  intros s. split.
  - apply reachable_final;
      [apply reachable_init, reachable_constructor | apply wf_silent_ticks].
  - rewrite <- zero_pushes_warmup.
    apply (silent_ticks_run_early 11 16 _ None [] 0 tracker_state_init I);
      [lra | rewrite INR_literal; simpl Z.of_nat; lra].
Qed.

Lemma beat_lifts_pulse_witness :
  let s := final (silent_ticks 16 12) (init constructor) in
  let x := loud_tick 208 in
  reachable s /\ wf_tick x /\ beat_at x s = true
  /\ 0.34 <= Snapshot.beatPulse (fst (update x s)) <= 1.
Proof.
  intros s x. destruct warmed_up_state as [W1 Hs]. fold s in W1, Hs.
  assert (wf_tick x) as W2 by apply wf_flat_frame.
  destruct threshold_warm as (th1 & Hth1 & Hlt1).
  assert (beat_at x s = true) as W3.
  { apply (loud_tick_step s _ 0 0 th1 208 Hs ltac:(lra) Hth1 Hlt1).
    left; reflexivity. }
  split; [exact W1 |]. split; [exact W2 |]. split; [exact W3 |].
  exact (beat_lifts_pulse s x W1 W2 W3).
Defined.

(** X6.  The smoothed RMS is never negative, the RMS baseline stays
    strictly positive, and the slow level average stays in [[0,1]]. *)
Theorem smoothed_levels_in_range (s : State) :
  reachable s ->
  0 <= rms s /\ 0 < rmsAverage s /\ unit_interval (levelAverage s).
Proof.
  intros Hr.
  pose proof (reachable_analysis_invariant s Hr)
    as (_ & _ & _ & H1 & H2 & H3 & _).
  auto.
Qed.

Lemma smoothed_levels_in_range_witness :
  reachable (init constructor) /\ 0 < rmsAverage (init constructor).
Proof.
  assert (reachable (init constructor)) as W1
    by (apply reachable_init, reachable_constructor).
  split; [exact W1 |].
  exact (proj1 (proj2 (smoothed_levels_in_range _ W1))).
Defined.

(** A state with one accepted interval in the window: the warm-up, a beat
    at 208 ms, a silent tick and a second beat at 500 ms. *)
Lemma state_after_first_beat_facts :
  let s := final (silent_ticks 16 12 ++ [loud_tick 208; silent_tick 224])
             (init constructor) in
  reachable s /\ bpm s = 0 /\ beatIntervals s = []
  /\ lastBeatTime s = 208 /\ beat_at (loud_tick 500) s = true.
Proof.
  intros s. pose proof state_after_first_beat as Hs. cbv zeta in Hs.
  fold s in Hs.
  assert (reachable s) as W1.
  { apply reachable_final.
    - apply reachable_init, reachable_constructor.
    - apply Forall_app; split; [apply wf_silent_ticks |].
      repeat constructor; apply wf_flat_frame. }
  assert (bpm s = 0) as W3.
  { unfold s. rewrite final_app, !final_cons.
    destruct warmed_up_state as [_ H12].
    apply bpm_stays_zero.
    - apply bpm_stays_zero.
      + apply (silent_ticks_bpm 12 16 _ None [] 0 0 tracker_state_init I);
          [lra | reflexivity].
      + right. apply H12.
    - left. destruct threshold_warm as (th1 & Hth1 & Hlt1).
      destruct (loud_tick_step _ _ 0 0 th1 208 H12 ltac:(lra) Hth1 Hlt1
                  ltac:(left; reflexivity)) as [_ H13].
      apply (silent_tick_step_gen _ (Some 1) _ 1 208 224 H13);
        simpl; lra. }
  destruct threshold_after_beat as (th2 & Hth2 & Hlt2).
  assert (beat_at (loud_tick 500) s = true) as Hb.
  { apply (loud_tick_step s _ 0 208 th2 500 Hs ltac:(lra) Hth2 Hlt2).
    right; lra. }
  split; [exact W1 |]. split; [exact W3 |].
  split; [apply (reachable_tempo_consistent s W1 W3) |].
  split; [apply Hs | exact Hb].
Qed.

(** The window after the second beat holds the one interval of 292 ms. *)
Lemma tempo_window_after_second_beat :
  let s := final (silent_ticks 16 12 ++ [loud_tick 208; silent_tick 224])
             (init constructor) in
  let s' := snd (update (loud_tick 500) s) in
  reachable s' /\ beatIntervals s' = [500 - 208].
Proof.
  intros s s'. destruct state_after_first_beat_facts
    as (Hr & Hb0 & Hi & Hl & Hb). fold s in Hr, Hb0, Hi, Hl, Hb.
  split; [apply reachable_update; [exact Hr | apply wf_flat_frame] |].
  destruct (tempo_fields_update (loud_tick 500) s) as (_ & Hiv & _).
  fold s' in Hiv. rewrite Hiv, Hb.
  assert (tempo_ok (clock (loud_tick 500)) s = true) as ->.
  { unfold tempo_ok. rewrite Hl. apply andb_true_iff.
    split; [apply Rgtb_true; lra |].
    apply Rltb_true; unfold CONFIG.beatMaxIntervalMs; simpl; lra. }
  rewrite Hi, Hl. reflexivity.
Qed.

Lemma tempo_window_is_plausible_witness :
  let s := final (silent_ticks 16 12 ++ [loud_tick 208; silent_tick 224])
             (init constructor) in
  let s' := snd (update (loud_tick 500) s) in
  reachable s' /\ beatIntervals s' <> []
  /\ plausible_interval
       (sum_list (beatIntervals s') / INR (length (beatIntervals s'))).
Proof.
  intros s s'. destruct tempo_window_after_second_beat as [W1 Hi].
  fold s in W1, Hi. fold s' in W1, Hi.
  assert (beatIntervals s' <> []) as W2 by (rewrite Hi; discriminate).
  split; [exact W1 |]. split; [exact W2 |].
  exact (proj1 (proj2 (tempo_window_is_plausible s' W1) W2)).
Defined.

(** ** The display array *)

(** X7.  For buffers of the allocated sizes the display array has
    [barCount] = 96 entries in [[0,1]]; entry [i] is the binary32 number
    nearest to [(freqData[10 * i] / 255) ^ 0.62], so the bins from 951 on
    are never shown. *)
Theorem display_bars (f : Frame) :
  wf_frame f ->
  length (frequencies f) = CONFIG.barCount
  /\ Forall unit_interval (frequencies f)
  /\ (forall i, (i < CONFIG.barCount)%nat ->
        (10 * i < length (freqData f))%nat
        /\ (10 * i <= 950)%nat
        /\ nth i (frequencies f) 0
           = Math_fround
               (Math_pow (byte_val (nth (10 * i) (freqData f) x00) / 255)
                  0.62)).
Proof.
  intros [Ht Hf]. unfold frequencies. rewrite Hf.
  change (Nat.max 1 (frequencyBinCount / CONFIG.barCount)) with 10%nat.
  split; [rewrite length_map, length_seq; reflexivity |]. split.
  - apply Forall_forall. intros v Hv. apply in_map_iff in Hv.
    destruct Hv as (i & <- & _).
    apply Math_fround_unit.
    apply Math_pow_range; [apply byte_val_range | lra].
  - intros i Hi. unfold CONFIG.barCount in Hi.
    change frequencyBinCount with 1024%nat.
    split; [lia |]. split; [lia |].
    set (g := fun i0 : nat =>
                Math_fround
                  (Math_pow (byte_val (nth (i0 * 10) (freqData f) x00) / 255)
                     0.62)).
    rewrite (nth_indep _ 0 (g 0%nat))
      by (rewrite length_map, length_seq; unfold CONFIG.barCount; lia).
    rewrite (map_nth g (seq 0 CONFIG.barCount) 0%nat i).
    rewrite seq_nth by (unfold CONFIG.barCount; lia).
    unfold g. cbn [Nat.add]. rewrite (Nat.mul_comm i 10). reflexivity.
Qed.

Lemma display_bars_witness :
  wf_frame (flat_frame xff)
  /\ length (frequencies (flat_frame xff)) = CONFIG.barCount.
Proof.
  assert (wf_frame (flat_frame xff)) as W by apply wf_flat_frame.
  split; [exact W |].
  exact (proj1 (display_bars _ W)).
Defined.

(** ** Sustained spectra *)

(** Over bins whose magnitudes are the stored ones, the loop adds at most
    the rounding residue of each bin. *)
Lemma flux_loop_same (data : list byte) :
  forall acc,
  acc <= fst (flux_loop data (map stored_magnitude data) acc)
      <= acc + INR (length data) * powerRZ 2 (-25).
Proof.
  induction data as [|b data IH]; intros acc.
  - cbn [map flux_loop fst length INR]. lra.
  - cbn [map flux_loop].
    set (acc' := if Rgtb (magnitude b - stored_magnitude b) 0
                 then acc + (magnitude b - stored_magnitude b) else acc).
    specialize (IH acc').
    destruct (flux_loop data (map stored_magnitude data) acc') as [fl st].
    cbn [fst] in *.
    change (length (b :: data)) with (S (length data)). rewrite S_INR.
    pose proof (stored_magnitude_error b) as He.
    assert (acc <= acc' <= acc + powerRZ 2 (-25)) as Hacc.
    { unfold acc'.
      destruct (Rgtb (magnitude b - stored_magnitude b) 0) eqn:E.
      - apply Rgtb_true in E. lra.
      - pose proof (powerRZ_2_pos (-25)). lra. }
    lra.
Qed.

Lemma stored_spectrum_facts (s : State) (x : Tick) :
  reachable s -> wf_tick x -> analyser s = true ->
  prevSpectrum (snd (update x s))
  = Some (map stored_magnitude (freqData (frame x)))
  /\ Forall unit_interval (fluxHistory (snd (update x s)))
  /\ analyser (snd (update x s)) = true.
Proof.
  intros Hr Hw Ha.
  pose proof (reachable_analysis_invariant s Hr) as (Hsp & _).
  destruct (_calculateFlux_spec (frame x) s Hw Hsp) as [_ Hst].
  assert (reachable (snd (update x s))) as Hr'
    by (apply reachable_update; assumption).
  pose proof (reachable_analysis_invariant _ Hr') as (_ & Hfh & _).
  split; [| split; [exact Hfh | rewrite update_analyser; exact Ha]].
  tick_cases x s Ha.
  decompose record Hft; decompose record Hdf; decompose record Hup.
  unfold spectrum_of in Hst. congruence.
Qed.

(** X8.  A tick whose bins are those of the tick before it never confirms a
    beat: the stored spectrum holds binary32 numbers, so its flux is the
    mean rounding residue of the magnitudes, at most [2 ^ -25], and cannot
    exceed the threshold by [fluxDeltaFloor]. *)
Theorem repeated_bins_confirm_no_beat (s : State) (x0 x : Tick) :
  reachable s -> wf_tick x0 -> wf_tick x -> analyser s = true ->
  freqData (frame x) = freqData (frame x0) ->
  0 <= flux (fst (update_features x (snd (update x0 s)))) <= powerRZ 2 (-25)
  /\ beat_at x (snd (update x0 s)) = false.
Proof.
  intros Hr Hw0 Hw Ha Heq.
  destruct (stored_spectrum_facts s x0 Hr Hw0 Ha) as (Hst & Hfh & Ha').
  set (s' := snd (update x0 s)) in *.
  assert (0 <= fst (_calculateFlux (frame x) s') <= powerRZ 2 (-25))
    as Hflux.
  { unfold _calculateFlux. rewrite Hst, Heq.
    pose proof (flux_loop_same (freqData (frame x0)) 0) as Hsame.
    destruct (flux_loop (freqData (frame x0))
                (map stored_magnitude (freqData (frame x0))) 0) as [fl st].
    cbn [fst] in *.
    assert (0 < INR (length (freqData (frame x0)))) as Hn.
    { destruct Hw0 as [_ Hf]. rewrite Hf. apply lt_0_INR.
      unfold frequencyBinCount; simpl; lia. }
    pose proof (Rinv_0_lt_compat _ Hn) as Hi.
    split.
    - apply Rmult_le_pos; lra.
    - apply (Rmult_le_reg_r (INR (length (freqData (frame x0)))));
        [exact Hn |].
      unfold Rdiv. rewrite Rmult_assoc, Rinv_l by lra. lra. }
  unfold beat_at. tick_cases x s' Ha'.
  decompose record Hft; decompose record Hup. clear Hft Hup.
  cbn [fst].
  assert (0 <= flux ft <= powerRZ 2 (-25)) as Hfl by congruence.
  split; [exact Hfl |].
  replace (Snapshot.beatDetected (fst (update x s'))) with d by congruence.
  rewrite Hdd. unfold onset_candidate.
  destruct (fluxThreshold ft) as [th|] eqn:Eth; [| reflexivity].
  assert (0 <= th) as Hth.
  { apply (flux_threshold_nonneg (fluxHistory s') th);
      [apply Forall_unit_nonneg; exact Hfh | congruence]. }
  replace (Rgtb (fluxDelta ft) CONFIG.fluxDeltaFloor) with false;
    [reflexivity |].
  symmetry. apply Rgtb_false.
  replace (fluxDelta ft) with (flux ft - th) by congruence.
  assert (powerRZ 2 (-25) < CONFIG.fluxDeltaFloor)
    by (unfold CONFIG.fluxDeltaFloor; simpl; lra).
  lra.
Qed.

Lemma repeated_bins_confirm_no_beat_witness :
  let s := final (silent_ticks 16 12) (init constructor) in
  reachable s /\ wf_tick (loud_tick 208) /\ wf_tick (loud_tick 500)
  /\ analyser s = true
  /\ beat_at (loud_tick 208) s = true
  /\ beat_at (loud_tick 500) (snd (update (loud_tick 208) s)) = false.
Proof.
  intros s. destruct warmed_up_state as [W1 Hs]. fold s in W1, Hs.
  assert (wf_tick (loud_tick 208)) as W2 by apply wf_flat_frame.
  assert (wf_tick (loud_tick 500)) as W3 by apply wf_flat_frame.
  assert (analyser s = true) as W4 by apply Hs.
  destruct threshold_warm as (th1 & Hth1 & Hlt1).
  assert (beat_at (loud_tick 208) s = true) as Hb.
  { apply (loud_tick_step s _ 0 0 th1 208 Hs ltac:(lra) Hth1 Hlt1).
    left; reflexivity. }
  split; [exact W1 |]. split; [exact W2 |]. split; [exact W3 |].
  split; [exact W4 |]. split; [exact Hb |].
  exact (proj2 (repeated_bins_confirm_no_beat s (loud_tick 208)
                  (loud_tick 500) W1 W2 W3 W4 eq_refl)).
Defined.

(** ** A silence reset after beat activity *)

(** A confirmed beat leaves a pulse of at least the boost. *)
Lemma beat_pulse_after_beat (s : State) (x : Tick) :
  reachable s -> wf_tick x -> beat_at x s = true ->
  0.34 <= beatPulse (snd (update x s)).
Proof.
  intros Hr Hw Hb.
  destruct (analyser s) eqn:Ha.
  2:{ rewrite (beat_at_uninitialised x s Ha) in Hb; discriminate. }
  pose proof (reachable_in_range s Hr) as (_ & _ & Hbp & _).
  unfold beat_at in Hb. tick_cases x s Ha.
  decompose record Hft; decompose record Hdf; decompose record Hup.
  clear Hft Hdf Hup.
  assert (d = true) as -> by congruence.
  assert (unit_interval (beatPulse s2)) as [Hp0 Hp1].
  { replace (beatPulse s2) with (beatPulse s1) by congruence.
    match goal with H : beatPulse s1 = _ |- _ => rewrite H end.
    apply lerp_range; [exact Hbp | apply clamp_range; lra | lra]. }
  replace (beatPulse (snd (update x s)))
    with (Rmin 1 (beatPulse s2 + 0.34)) by congruence.
  unfold Rmin. destruct (Rle_dec 1 (beatPulse s2 + 0.34)); lra.
Qed.

(** The state after the warm-up and beats at 208 and 500 ms: the last beat
    and one interval are on record, the tempo is 200, the flux history is
    warm and the pulse is up. *)
Lemma state_after_second_beat :
  let s := final (silent_ticks 16 12
                  ++ [loud_tick 208; silent_tick 224; loud_tick 500])
             (init constructor) in
  reachable s
  /\ tracker_state s (Some 1) (repeat 0 12 ++ [1; 0; 1]) 1 500
  /\ beatIntervals s = [500 - 208]
  /\ bpm s = 200
  /\ 0.34 <= beatPulse s.
Proof.
  intros s.
  set (s0 := final (silent_ticks 16 12 ++ [loud_tick 208; silent_tick 224])
               (init constructor)).
  assert (s = snd (update (loud_tick 500) s0)) as Es.
  { unfold s, s0. rewrite !final_app, !final_cons. reflexivity. }
  pose proof state_after_first_beat as Hs0. cbv zeta in Hs0. fold s0 in Hs0.
  destruct state_after_first_beat_facts as (Hr0 & Hb0 & Hi0 & Hl0 & Hbeat).
  fold s0 in Hr0, Hb0, Hi0, Hl0, Hbeat.
  destruct tempo_window_after_second_beat as [Hr Hi].
  fold s0 in Hr, Hi. rewrite <- Es in Hr, Hi.
  destruct threshold_after_beat as (th2 & Hth2 & Hlt2).
  destruct (loud_tick_step s0 _ 0 208 th2 500 Hs0 ltac:(lra) Hth2 Hlt2
              ltac:(right; lra)) as [_ Hts].
  rewrite <- Es in Hts.
  assert (tempo_ok (clock (loud_tick 500)) s0 = true) as Hok.
  { unfold tempo_ok. rewrite Hl0. apply andb_true_iff.
    split; [apply Rgtb_true; lra |].
    apply Rltb_true; unfold CONFIG.beatMaxIntervalMs; simpl; lra. }
  split; [exact Hr |]. split; [exact Hts |]. split; [exact Hi |]. split.
  - destruct (tempo_fields_update (loud_tick 500) s0) as (_ & _ & Hbpm).
    rewrite <- Es in Hbpm. rewrite Hbpm, Hbeat, Hok.
    rewrite (next_bpm_first _ s0 Hb0 Hi0)
      by (rewrite Hl0; unfold CONFIG.beatMinIntervalMs; simpl; lra).
    rewrite Hl0. cbn [clock loud_tick].
    rewrite clamp_above by lra. apply (Math_round_integer 200).
  - rewrite Es. apply beat_pulse_after_beat;
      [exact Hr0 | apply wf_flat_frame | exact Hbeat].
Qed.

Lemma silence_reset_clears_tempo_witness :
  let s := final (silent_ticks 16 12
                  ++ [loud_tick 208; silent_tick 224; loud_tick 500])
             (init constructor) in
  let x := silent_tick 3200 in
  (beatIntervals s = [500 - 208] /\ lastBeatTime s = 500 /\ bpm s = 200)
  /\ analyser s = true
  /\ beat_at x s = false
  /\ (0 < lastBeatTime s
      /\ clock x - lastBeatTime s > CONFIG.beatSilenceResetMs)
  /\ beatIntervals (snd (update x s)) = []
  /\ lastBeatTime (snd (update x s)) = 0
  /\ bpm (snd (update x s)) = 0.
Proof.
  intros s x.
  destruct state_after_second_beat as (_ & Hts & Hi & Hbpm & _).
  fold s in Hts, Hi, Hbpm.
  assert (lastBeatTime s = 500) as Hl by apply Hts.
  assert (analyser s = true) as W1 by apply Hts.
  assert (beat_at x s = false) as W2.
  { apply (silent_tick_step_gen s (Some 1) _ 1 500 3200 Hts);
      simpl; lra. }
  assert (0 < lastBeatTime s
          /\ clock x - lastBeatTime s > CONFIG.beatSilenceResetMs) as W3.
  { rewrite Hl. cbn [x clock silent_tick].
    unfold CONFIG.beatSilenceResetMs. lra. }
  destruct (silence_reset_clears_tempo s x W1 W2 (or_introl W3))
    as (H1 & H2 & H3 & _).
  split; [split; [exact Hi | split; [exact Hl | exact Hbpm]] |].
  split; [exact W1 |]. split; [exact W2 |]. split; [exact W3 |].
  split; [exact H1 |]. split; [exact H2 | exact H3].
Defined.

Lemma silence_reset_frame_witness :
  let s := final (silent_ticks 16 12
                  ++ [loud_tick 208; silent_tick 224; loud_tick 500])
             (init constructor) in
  let x := silent_tick 3200 in
  reset_at x s = true
  /\ (beatIntervals s = [500 - 208] /\ bpm s = 200
      /\ fluxHistory s = repeat 0 12 ++ [1; 0; 1]
      /\ 0.34 <= beatPulse s)
  /\ (beatIntervals (snd (update x s)) = []
      /\ bpm (snd (update x s)) = 0)
  /\ fluxHistory (snd (update x s))
     = push_shift CONFIG.fluxHistorySize (fluxHistory s)
         (flux (fst (update_features x s)))
  /\ fluxHistory (snd (update x s)) = repeat 0 12 ++ [1; 0; 1; 0]
  /\ (exists th, flux_threshold (fluxHistory (snd (update x s))) = Some th)
  /\ 0.2 < beatPulse (snd (update x s)).
Proof.
  intros s x.
  destruct state_after_second_beat as (_ & Hts & Hi & Hbpm & Hp).
  fold s in Hts, Hi, Hbpm, Hp.
  assert (fluxHistory s = repeat 0 12 ++ [1; 0; 1]) as Hh by apply Hts.
  destruct (silent_tick_step_gen s (Some 1) _ 1 500 3200 Hts)
    as (_ & Hr & Hts'); [simpl; lra | lra |].
  fold x in Hr, Hts'.
  assert (reset_at x s = true) as W.
  { rewrite Hr. unfold reset_due, CONFIG.beatSilenceResetMs.
    replace (Rgtb (3200 - 0) 2600) with true
      by (symmetry; apply Rgtb_true; lra).
    apply orb_true_r. }
  pose proof (silence_reset_frame s x W) as H. cbv zeta in H.
  destruct H as ((H1 & _ & H3) & (_ & H4) & _ & _ & H5 & _).
  assert (fluxHistory (snd (update x s)) = repeat 0 12 ++ [1; 0; 1; 0]) as H6.
  { destruct Hts' as (_ & _ & Hh' & _). rewrite Hh'. reflexivity. }
  split; [exact W |].
  split; [split; [exact Hi | split; [exact Hbpm | split; [exact Hh | exact Hp]]] |].
  split; [split; [exact H1 | exact H3] |].
  split; [exact H4 |]. split; [exact H6 |]. split.
  - rewrite H6. eexists. reflexivity.
  - rewrite H5.
    destruct (update_features x s) as [ft s1] eqn:E1.
    pose proof (update_features_spec _ _ _ _ E1) as Hft.
    decompose record Hft. clear Hft. cbn [snd].
    match goal with Hbp : beatPulse s1 = _ |- _ => rewrite Hbp end.
    match goal with
    | |- _ < lerp _ (clamp ?v 0 1) _ =>
        pose proof (clamp_range v 0 1 ltac:(lra)) as Hc
    end.
    unfold lerp. nra.
Defined.

(** * The trackers *)

(** ** Geometric helpers *)

Lemma Math_hypot2_nonneg (a b : R) : 0 <= Math_hypot2 a b.
Proof. apply sqrt_pos. Qed.

Lemma Math_hypot3_nonneg (a b c : R) : 0 <= Math_hypot3 a b c.
Proof. apply sqrt_pos. Qed.

Lemma distance2D_nonneg (a b : option Point.t) : 0 <= distance2D a b.
Proof. apply sqrt_pos. Qed.

(** ** PoseTracker *)

Lemma world_energy_nonneg (world : list Landmark.t) (idxs : list nat) :
  forall acc e, 0 <= acc ->
  PoseTracker.world_energy world idxs acc = Some e -> 0 <= e.
Proof.
  induction idxs as [|i idxs IH]; intros acc e Hacc H; simpl in H.
  - inversion H; subst; exact Hacc.
  - destruct (nth_error world i) as [lm|]; [| discriminate].
    apply (IH _ e) in H; [exact H |].
    pose proof (Math_hypot3_nonneg (Landmark.x lm) (Landmark.y lm)
                  (Landmark.z lm)). lra.
Qed.

Lemma pose_update_nonneg (result : option PoseTracker.Result) (e : R)
  (o : PoseTracker.Output) (e' : R) :
  0 <= e -> PoseTracker.update result e = Some (o, e') ->
  0 <= e' /\ PoseTracker.motionEnergy o = e'.
Proof.
  intros He H. unfold PoseTracker.update in H.
  destruct (PoseTracker.first_pose result) as [pose|].
  - match type of H with
    | match ?en with _ => _ end = _ => destruct en as [energy|] eqn:Een
    end; [| discriminate].
    inversion H; subst; clear H. cbn. split; [| reflexivity].
    assert (0 <= energy) as Hen.
    { destruct result as [[lms [[|world ws]|]]|];
        try (injection Een as <-; lra).
      destruct (PoseTracker.world_energy world PoseTracker.indices 0)
        as [we|] eqn:Ew; [| discriminate].
      injection Een as <-.
      apply world_energy_nonneg in Ew; [| lra].
      apply Rmult_le_pos; [exact Ew |].
      apply Rlt_le, Rinv_0_lt_compat. simpl. lra. }
    unfold lerp. nra.
  - inversion H; subst; clear H. cbn. split; [| reflexivity].
    unfold lerp, CONFIG.motionSmoothing. nra.
Qed.

(** Over any sequence of pose results on which [update] does not
    throw, the motion energy it returns, which is also the energy it
    keeps, is never negative. *)
Theorem pose_energy_nonneg (results : list (option PoseTracker.Result))
  (outs : list PoseTracker.Output) (e' : R) :
  PoseTracker.run results PoseTracker.constructor = Some (outs, e') ->
  Forall (fun o => 0 <= PoseTracker.motionEnergy o) outs /\ 0 <= e'.
Proof.
  assert (forall rs e os e1, 0 <= e ->
            PoseTracker.run rs e = Some (os, e1) ->
            Forall (fun o => 0 <= PoseTracker.motionEnergy o) os
            /\ 0 <= e1) as Hgen.
  { induction rs as [|r rs IH]; intros e os e1 He H; simpl in H.
    - inversion H; subst. split; [constructor | exact He].
    - destruct (PoseTracker.update r e) as [[o em]|] eqn:Eu;
        [| discriminate].
      destruct (PoseTracker.run rs em) as [[os' e2]|] eqn:Er;
        [| discriminate].
      inversion H; subst; clear H.
      destruct (pose_update_nonneg r e o em He Eu) as [Hem Ho].
      destruct (IH em os' e1 Hem Er) as [Hos He1].
      split; [constructor; [rewrite Ho; exact Hem | exact Hos] | exact He1]. }
  intros H. apply (Hgen results PoseTracker.constructor outs e');
    [unfold PoseTracker.constructor; lra | exact H].
Qed.

(** Without a pose the energy is multiplied by 0.18 and no centroid is
    returned. *)
Lemma pose_update_absent (result : option PoseTracker.Result) (e : R) :
  PoseTracker.first_pose result = None ->
  PoseTracker.update result e
  = Some ({| PoseTracker.motionEnergy := e * 0.18;
             PoseTracker.centroid := None |}, e * 0.18).
Proof.
  intros H. unfold PoseTracker.update. rewrite H.
  unfold lerp, CONFIG.motionSmoothing.
  replace (e + (0 - e) * 0.82) with (e * 0.18) by lra. reflexivity.
Qed.

(** X9.  While no pose is seen, [update] never throws, returns no
    centroid, and the motion energy decays geometrically: after [n] such
    calls it is [0.18 ^ n] times what it was. *)
Theorem pose_energy_decays (results : list (option PoseTracker.Result))
  (e : R) :
  Forall (fun r => PoseTracker.first_pose r = None) results ->
  exists outs,
    PoseTracker.run results e = Some (outs, e * 0.18 ^ length results)
    /\ length outs = length results
    /\ Forall (fun o => PoseTracker.centroid o = None) outs.
Proof.
  intros Hall. revert e.
  induction Hall as [|r rs Hr Hrs IH]; intros e.
  - exists []. simpl. split; [f_equal; f_equal; lra |].
    split; [reflexivity | constructor].
  - destruct (IH (e * 0.18)) as (outs & Hrun & Hlen & Hc).
    exists ({| PoseTracker.motionEnergy := e * 0.18;
               PoseTracker.centroid := None |} :: outs).
    cbn [PoseTracker.run]. rewrite (pose_update_absent r e Hr), Hrun.
    split; [| split; [simpl; rewrite Hlen; reflexivity
                     | constructor; [reflexivity | exact Hc]]].
    f_equal. f_equal. cbn [length pow]. lra.
Qed.

Lemma pose_energy_decays_witness :
  Forall (fun r => PoseTracker.first_pose r = None)
    [None; Some (PoseTracker.mkResult (Some []) None)]
  /\ exists outs,
       PoseTracker.run [None; Some (PoseTracker.mkResult (Some []) None)] 1
       = Some (outs, 1 * 0.18 ^ 2).
Proof.
  assert (Forall (fun r => PoseTracker.first_pose r = None)
            [None; Some (PoseTracker.mkResult (Some []) None)]) as W
    by (repeat constructor).
  split; [exact W |].
  destruct (pose_energy_decays _ 1 W) as (outs & H & _).
  exists outs. exact H.
Defined.

Lemma world_energy_defined (world : list Landmark.t) (idxs : list nat) :
  forall acc,
  PoseTracker.world_energy world idxs acc = None
  <-> Exists (fun i => (length world <= i)%nat) idxs.
Proof.
  induction idxs as [|i idxs IH]; intros acc; simpl.
  - split; [discriminate | intros H; inversion H].
  - destruct (nth_error world i) as [lm|] eqn:E.
    + rewrite IH. split.
      * intros H; apply Exists_cons_tl; exact H.
      * intros H. inversion H as [? ? Hi|? ? Ht]; subst; [| exact Ht].
        apply nth_error_None in Hi. congruence.
    + split; [| reflexivity]. intros _. apply Exists_cons_hd.
      apply nth_error_None; exact E.
Qed.

Lemma world_energy_indices (world : list Landmark.t) (acc : R) :
  PoseTracker.world_energy world PoseTracker.indices acc = None
  <-> (length world < 17)%nat.
Proof.
  rewrite world_energy_defined. unfold PoseTracker.indices. split.
  - intros H. repeat (inversion H as [? ? Hi|? ? Ht]; subst;
                      [lia | clear H; rename Ht into H]).
    inversion H.
  - intros H. do 5 apply Exists_cons_tl. apply Exists_cons_hd. lia.
Qed.

(** X10.  [update] throws exactly when a pose is present and the first
    world-landmark list is present with fewer than 17 entries (it reads
    the entries 11 to 16). *)
Theorem pose_update_throws_iff (result : option PoseTracker.Result) (e : R) :
  PoseTracker.update result e = None
  <-> PoseTracker.first_pose result <> None
      /\ exists world, first_world result = Some world
                       /\ (length world < 17)%nat.
Proof.
  unfold PoseTracker.update, first_world.
  destruct (PoseTracker.first_pose result) as [pose|] eqn:Ep.
  - destruct result as [[lms wl]|]; [| discriminate].
    cbn [PoseTracker.worldLandmarks].
    destruct wl as [[|world ws]|].
    + split; [discriminate | intros (_ & w & H & _); discriminate].
    + destruct (PoseTracker.world_energy world PoseTracker.indices 0)
        as [we|] eqn:Ew.
      * split; [discriminate |]. intros (_ & w & H & Hl).
        inversion H; subst.
        apply (world_energy_indices w 0) in Hl. rewrite Hl in Ew.
        discriminate.
      * split; [| reflexivity]. intros _. split; [discriminate |].
        exists world. split; [reflexivity |].
        apply (world_energy_indices world 0). exact Ew.
    + split; [discriminate | intros (_ & w & H & _); discriminate].
  - split; [discriminate | intros (H & _); contradiction].
Qed.

Lemma fold_sum_bounds {A : Type} (g : A -> R) (lo hi : R) (l : list A) :
  Forall (fun a => lo <= g a <= hi) l ->
  forall acc,
  acc + INR (length l) * lo <= fold_left (fun s a => s + g a) l acc
  <= acc + INR (length l) * hi.
Proof.
  induction 1 as [|a l Ha Hl IH]; intros acc.
  - simpl. lra.
  - change (length (a :: l)) with (S (length l)). rewrite S_INR.
    cbn [fold_left]. specialize (IH (acc + g a)). lra.
Qed.

Lemma mean_in_bounds (sum n lo hi : R) :
  0 < n -> n * lo <= sum <= n * hi -> lo <= sum / n <= hi.
Proof.
  intros Hn [H1 H2]. split.
  - apply (Rmult_le_reg_r n); [exact Hn |].
    unfold Rdiv. rewrite Rmult_assoc, Rinv_l by lra. lra.
  - apply (Rmult_le_reg_r n); [exact Hn |].
    unfold Rdiv. rewrite Rmult_assoc, Rinv_l by lra. lra.
Qed.

(** X11.  When [update] returns for a pose, the centroid lies in every
    axis-parallel box that holds all the landmarks of the pose; for a pose
    without landmarks it is the origin. *)
Theorem pose_centroid_in_box (result : option PoseTracker.Result) (e : R)
  (pose : list Landmark.t) (o : PoseTracker.Output) (e' : R)
  (xlo xhi ylo yhi : R) :
  PoseTracker.first_pose result = Some pose ->
  PoseTracker.update result e = Some (o, e') ->
  Forall (in_box xlo xhi ylo yhi) pose ->
  exists c,
    PoseTracker.centroid o = Some c
    /\ (pose = [] -> c = Point.mk 0 0)
    /\ (pose <> [] ->
        xlo <= Point.x c <= xhi /\ ylo <= Point.y c <= yhi).
Proof.
  intros Hp Hu Hbox. unfold PoseTracker.update in Hu. rewrite Hp in Hu.
  match type of Hu with
  | match ?en with _ => _ end = _ => destruct en as [energy|]
  end; [| discriminate].
  inversion Hu; subst; clear Hu. cbn [PoseTracker.centroid].
  eexists. split; [reflexivity |]. split.
  - intros ->. simpl. f_equal; lra.
  - intros Hne. cbn [Point.x Point.y].
    assert (match length pose with O => 1%nat | n => n end = length pose)
      as ->.
    { destruct pose; [contradiction | reflexivity]. }
    assert (0 < INR (length pose)) as Hn.
    { apply lt_0_INR. destruct pose; [contradiction | simpl; lia]. }
    split; apply mean_in_bounds; try exact Hn.
    + pose proof (fold_sum_bounds Landmark.x xlo xhi pose
                    ltac:(eapply Forall_impl; [| exact Hbox];
                          intros a Ha; apply Ha) 0). lra.
    + pose proof (fold_sum_bounds Landmark.y ylo yhi pose
                    ltac:(eapply Forall_impl; [| exact Hbox];
                          intros a Ha; apply Ha) 0). lra.
Qed.

Lemma pose_energy_nonneg_witness :
  exists outs e',
    PoseTracker.run
      [None; pose_result two_point_pose (Some (flat_pose lm_b 17))]
      PoseTracker.constructor = Some (outs, e')
    /\ 0 <= e'.
Proof.
  eexists. eexists.
  assert (forall outs e',
             PoseTracker.run
               [None; pose_result two_point_pose (Some (flat_pose lm_b 17))]
               PoseTracker.constructor = Some (outs, e') -> 0 <= e') as H
    by (intros outs e' Hrun; exact (proj2 (pose_energy_nonneg _ _ _ Hrun))).
  split; [reflexivity |]. eapply H. reflexivity.
Defined.

Lemma pose_centroid_in_box_witness :
  exists o e',
    PoseTracker.first_pose (pose_result two_point_pose None)
    = Some two_point_pose
    /\ PoseTracker.update (pose_result two_point_pose None) 0 = Some (o, e')
    /\ Forall (in_box 0 1 0 1) two_point_pose
    /\ exists c, PoseTracker.centroid o = Some c
                 /\ 0 <= Point.x c <= 1 /\ 0 <= Point.y c <= 1.
Proof.
  eexists. eexists.
  assert (Forall (in_box 0 1 0 1) two_point_pose) as W3.
  { repeat constructor; simpl; lra. }
  split; [reflexivity |]. split; [reflexivity |]. split; [exact W3 |].
  destruct (pose_centroid_in_box (pose_result two_point_pose None) 0
              two_point_pose _ _ 0 1 0 1 eq_refl eq_refl W3)
    as (c & Hc & _ & Hb).
  exists c. split; [exact Hc |]. apply Hb. discriminate.
Defined.

(** ** FaceExpressionTracker *)

Lemma Math_atan2_range (y x : R) : - PI < Math_atan2 y x <= PI.
Proof.
  pose proof PI_RGT_0 as Hpi. unfold Math_atan2.
  pose proof (atan_bound (y / x)) as [Hb1 Hb2].
  destruct (Rlt_dec 0 x) as [Hx|Hx]; [lra |].
  destruct (Rlt_dec x 0) as [Hx'|Hx'].
  - destruct (Rle_dec 0 y) as [Hy|Hy].
    + assert (y / x <= 0) as Hq.
      { unfold Rdiv. assert (/ x < 0) by (apply Rinv_lt_0_compat; exact Hx').
        nra. }
      assert (atan (y / x) <= 0) as Ha.
      { destruct Hq as [Hq|Hq]; [| rewrite Hq, atan_0; lra].
        apply Rlt_le. rewrite <- atan_0. apply atan_increasing; exact Hq. }
      lra.
    + assert (0 < y / x) as Hq.
      { unfold Rdiv. assert (/ x < 0) by (apply Rinv_lt_0_compat; exact Hx').
        nra. }
      assert (0 < atan (y / x)) as Ha
        by (rewrite <- atan_0; apply atan_increasing; exact Hq).
      lra.
  - destruct (Rlt_dec 0 y); [lra |]. destruct (Rlt_dec y 0); lra.
Qed.

Lemma _eyeOpenness_range (l : list Landmark.t) (a b c d : nat) :
  unit_interval (FaceExpressionTracker._eyeOpenness l a b c d).
Proof. apply clamp_range; lra. Qed.

(** X12.  The metrics of a face: eye openness, brow raise, smile and mouth
    opening lie in [[0,1]], and the head roll in [(-PI, PI]]. *)
Theorem face_metrics_in_range (landmarks : list Landmark.t)
  (m : FaceExpressionTracker.Metrics) :
  FaceExpressionTracker._computeMetrics landmarks = Some m ->
  unit_interval (FaceExpressionTracker.eyeOpenness m)
  /\ unit_interval (FaceExpressionTracker.browRaise m)
  /\ unit_interval (FaceExpressionTracker.smile m)
  /\ unit_interval (FaceExpressionTracker.mouthOpen m)
  /\ - PI < FaceExpressionTracker.roll m <= PI.
Proof.
  unfold FaceExpressionTracker._computeMetrics.
  destruct (nth_error landmarks 234) as [lc|]; [| discriminate].
  destruct (nth_error landmarks 454) as [rc|]; [| discriminate].
  intros H; inversion H; subst; clear H. cbn.
  repeat split; try (apply clamp_range; lra); apply Math_atan2_range.
Qed.

(** X13.  [_computeMetrics] throws exactly on a face of fewer than 455
    landmarks (it reads [y] of the landmarks 234 and 454); [update] throws
    exactly when the first face of the result is such a face. *)
Theorem face_update_throws_iff (result : option FaceExpressionTracker.Result)
  (now : R) (s : FaceExpressionTracker.State) :
  (forall landmarks,
      FaceExpressionTracker._computeMetrics landmarks = None
      <-> (length landmarks < 455)%nat)
  /\ (FaceExpressionTracker.update result now s = None
      <-> exists face,
            FaceExpressionTracker.first_face result = Some face
            /\ (length face < 455)%nat).
Proof.
  assert (forall landmarks,
             FaceExpressionTracker._computeMetrics landmarks = None
             <-> (length landmarks < 455)%nat) as Hm.
  { intros l. unfold FaceExpressionTracker._computeMetrics.
    destruct (nth_error l 454) as [rc|] eqn:E454.
    - assert (454 < length l)%nat as Hl
        by (apply nth_error_Some; congruence).
      destruct (nth_error l 234) as [lc|] eqn:E234.
      + split; [discriminate | lia].
      + apply nth_error_None in E234. lia.
    - apply nth_error_None in E454.
      destruct (nth_error l 234); split; try reflexivity; lia. }
  split; [exact Hm |].
  unfold FaceExpressionTracker.update.
  destruct (FaceExpressionTracker.first_face result) as [face|].
  - destruct (FaceExpressionTracker._computeMetrics face) as [m|] eqn:E.
    + split; [discriminate |]. intros (f & Hf & Hl). inversion Hf; subst.
      apply Hm in Hl. congruence.
    + split; [| reflexivity]. intros _. exists face.
      split; [reflexivity | apply Hm; exact E].
  - split; [discriminate | intros (f & Hf & _); discriminate].
Qed.

(** What [_updateBlink] writes. *)
Lemma _updateBlink_spec (openness now : R) (s : FaceExpressionTracker.State) :
  let s' := FaceExpressionTracker._updateBlink openness now s in
  FaceExpressionTracker.isBlinking s' = Rltb openness 0.18
  /\ ((FaceExpressionTracker.blinkCount s'
       = S (FaceExpressionTracker.blinkCount s)
       /\ FaceExpressionTracker.prevBlinkTime s' = now
       /\ openness < 0.18
       /\ FaceExpressionTracker.isBlinking s = false
       /\ now - FaceExpressionTracker.prevBlinkTime s
          > CONFIG.blinkCooldownMs)
      \/ (FaceExpressionTracker.blinkCount s'
          = FaceExpressionTracker.blinkCount s
          /\ FaceExpressionTracker.prevBlinkTime s'
             = FaceExpressionTracker.prevBlinkTime s
          /\ (openness < 0.18 ->
              FaceExpressionTracker.isBlinking s = false ->
              now - FaceExpressionTracker.prevBlinkTime s
              <= CONFIG.blinkCooldownMs))).
Proof.
  unfold FaceExpressionTracker._updateBlink. cbv zeta.
  destruct (Rltb openness 0.18) eqn:Eo;
    destruct (FaceExpressionTracker.isBlinking s) eqn:Eb;
    destruct (Rgtb (now - FaceExpressionTracker.prevBlinkTime s)
                CONFIG.blinkCooldownMs) eqn:Ec;
    cbn; (split; [reflexivity |]);
    try (right; repeat split; try reflexivity; intros;
         try discriminate;
         try (apply Rgtb_false in Ec; lra);
         try (apply Rltb_false in Eo; lra); fail).
  left. apply Rltb_true in Eo. apply Rgtb_true in Ec.
  repeat split; try reflexivity; lra.
Qed.

(** One call: the blink count and the time of the last counted blink. *)
Lemma face_update_blink (result : option FaceExpressionTracker.Result)
  (now : R) (s : FaceExpressionTracker.State)
  (o : FaceExpressionTracker.Output) (s' : FaceExpressionTracker.State) :
  FaceExpressionTracker.update result now s = Some (o, s') ->
  FaceExpressionTracker.out_blinkCount o
  = FaceExpressionTracker.blinkCount s'
  /\ ((FaceExpressionTracker.blinkCount s'
       = S (FaceExpressionTracker.blinkCount s)
       /\ FaceExpressionTracker.prevBlinkTime s' = now
       /\ FaceExpressionTracker.isBlinking s = false
       /\ FaceExpressionTracker.isBlinking s' = true
       /\ now - FaceExpressionTracker.prevBlinkTime s
          > CONFIG.blinkCooldownMs)
      \/ (FaceExpressionTracker.blinkCount s'
          = FaceExpressionTracker.blinkCount s
          /\ FaceExpressionTracker.prevBlinkTime s'
             = FaceExpressionTracker.prevBlinkTime s)).
Proof.
  unfold FaceExpressionTracker.update.
  destruct (FaceExpressionTracker.first_face result) as [face|].
  - destruct (FaceExpressionTracker._computeMetrics face) as [m|];
      [| discriminate].
    intros H; inversion H; subst; clear H. cbn [FaceExpressionTracker.out_blinkCount].
    split; [reflexivity |].
    destruct (_updateBlink_spec (FaceExpressionTracker.eyeOpenness m) now s)
      as (Hb & [(H1 & H2 & H3 & H4 & H5)|(H1 & H2 & _)]).
    + left. repeat split; try assumption.
      rewrite Hb. apply Rltb_true; exact H3.
    + right. split; assumption.
  - intros H; inversion H; subst; clear H. cbn.
    split; [reflexivity |]. right. split; reflexivity.
Qed.

Lemma face_run_prevBlinkTime (calls : list (option FaceExpressionTracker.Result * R)) :
  forall (s : FaceExpressionTracker.State)
         (outs : list FaceExpressionTracker.Output)
         (s' : FaceExpressionTracker.State) (t1 : R),
  FaceExpressionTracker.run calls s = Some (outs, s') ->
  t1 <= FaceExpressionTracker.prevBlinkTime s ->
  t1 <= FaceExpressionTracker.prevBlinkTime s'.
Proof.
  induction calls as [|[r now] calls IH]; intros s outs s' t1 Hrun Ht;
    simpl in Hrun.
  - inversion Hrun; subst; exact Ht.
  - destruct (FaceExpressionTracker.update r now s) as [[o s1]|] eqn:Eu;
      [| discriminate].
    destruct (FaceExpressionTracker.run calls s1) as [[os s2]|] eqn:Er;
      [| discriminate].
    inversion Hrun; subst; clear Hrun.
    apply (IH s1 os s' t1 Er).
    destruct (face_update_blink r now s o s1 Eu)
      as (_ & [(_ & H2 & _ & _ & H5)|(_ & H2)]).
    + unfold CONFIG.blinkCooldownMs in H5. lra.
    + rewrite H2; exact Ht.
Qed.

(** X14.  Two calls that each count a blink are more than
    [blinkCooldownMs] = 1200 ms apart, whatever the calls between them
    are. *)
Theorem blinks_respect_cooldown
  (s : FaceExpressionTracker.State)
  (r1 : option FaceExpressionTracker.Result) (t1 : R)
  (o1 : FaceExpressionTracker.Output) (s1 : FaceExpressionTracker.State)
  (mid : list (option FaceExpressionTracker.Result * R))
  (outs : list FaceExpressionTracker.Output)
  (s2 : FaceExpressionTracker.State)
  (r2 : option FaceExpressionTracker.Result) (t2 : R)
  (o2 : FaceExpressionTracker.Output) (s3 : FaceExpressionTracker.State) :
  FaceExpressionTracker.update r1 t1 s = Some (o1, s1) ->
  FaceExpressionTracker.blinkCount s1
  = S (FaceExpressionTracker.blinkCount s) ->
  FaceExpressionTracker.run mid s1 = Some (outs, s2) ->
  FaceExpressionTracker.update r2 t2 s2 = Some (o2, s3) ->
  FaceExpressionTracker.blinkCount s3
  = S (FaceExpressionTracker.blinkCount s2) ->
  t2 - t1 > CONFIG.blinkCooldownMs.
Proof.
  intros Hu1 Hc1 Hrun Hu2 Hc2.
  destruct (face_update_blink r1 t1 s o1 s1 Hu1)
    as (_ & [(_ & Hp1 & _)|(Hsame & _)]); [| lia].
  pose proof (face_run_prevBlinkTime mid s1 outs s2 t1 Hrun
                ltac:(rewrite Hp1; lra)) as Hp2.
  destruct (face_update_blink r2 t2 s2 o2 s3 Hu2)
    as (_ & [(_ & _ & _ & _ & Hgt)|(Hsame & _)]); [| lia].
  lra.
Qed.

(** X15.  [blinkTriggered] is reported exactly when the eye openness lies
    in [[0.18, 0.22)]; a call that reports it counts no blink and leaves
    the tracker not blinking. *)
Theorem blink_trigger_band (result : option FaceExpressionTracker.Result)
  (now : R) (s : FaceExpressionTracker.State)
  (o : FaceExpressionTracker.Output) (s' : FaceExpressionTracker.State) :
  FaceExpressionTracker.update result now s = Some (o, s') ->
  (FaceExpressionTracker.blinkTriggered o = true
   <-> 0.18 <= FaceExpressionTracker.eyeOpenness
                 (FaceExpressionTracker.metrics o) < 0.22)
  /\ (FaceExpressionTracker.blinkTriggered o = true ->
      FaceExpressionTracker.blinkCount s'
      = FaceExpressionTracker.blinkCount s
      /\ FaceExpressionTracker.isBlinking s' = false).
Proof.
  unfold FaceExpressionTracker.update.
  destruct (FaceExpressionTracker.first_face result) as [face|].
  - destruct (FaceExpressionTracker._computeMetrics face) as [m|];
      [| discriminate].
    intros H; inversion H; subst; clear H.
    cbn [FaceExpressionTracker.blinkTriggered FaceExpressionTracker.metrics].
    destruct (_updateBlink_spec (FaceExpressionTracker.eyeOpenness m) now s)
      as (Hb & Hc).
    rewrite Hb. split.
    + rewrite andb_true_iff, negb_true_iff, Rltb_true, Rltb_false. lra.
    + intros Ht. apply andb_true_iff in Ht. destruct Ht as [_ Ht].
      apply negb_true_iff in Ht. split; [| exact Ht].
      apply Rltb_false in Ht.
      destruct Hc as [(_ & _ & Hlt & _)|(Hsame & _)]; [lra | exact Hsame].
  - intros H; inversion H; subst; clear H. cbn. split.
    + split; [discriminate | lra].
    + discriminate.
Qed.

(** Over any run that does not throw, the blink count never
    decreases and grows by at most one per call; each output reports the
    count the tracker holds after its call. *)
Theorem blink_count_monotone
  (calls : list (option FaceExpressionTracker.Result * R))
  (s : FaceExpressionTracker.State)
  (outs : list FaceExpressionTracker.Output)
  (s' : FaceExpressionTracker.State) :
  FaceExpressionTracker.run calls s = Some (outs, s') ->
  (FaceExpressionTracker.blinkCount s
   <= FaceExpressionTracker.blinkCount s'
   <= FaceExpressionTracker.blinkCount s + length calls)%nat
  /\ Forall (fun o =>
               (FaceExpressionTracker.blinkCount s
                <= FaceExpressionTracker.out_blinkCount o
                <= FaceExpressionTracker.blinkCount s')%nat) outs.
Proof.
  revert s outs s'.
  induction calls as [|[r now] calls IH]; intros s outs s' Hrun;
    simpl in Hrun.
  - inversion Hrun; subst. split; [simpl; lia | constructor].
  - destruct (FaceExpressionTracker.update r now s) as [[o s1]|] eqn:Eu;
      [| discriminate].
    destruct (FaceExpressionTracker.run calls s1) as [[os s2]|] eqn:Er;
      [| discriminate].
    inversion Hrun; subst; clear Hrun.
    destruct (IH s1 os s' Er) as [Hb Hos].
    destruct (face_update_blink r now s o s1 Eu) as (Ho & Hc).
    assert (FaceExpressionTracker.blinkCount s
            <= FaceExpressionTracker.blinkCount s1
            <= S (FaceExpressionTracker.blinkCount s))%nat as H1.
    { destruct Hc as [(Hc & _)|(Hc & _)]; lia. }
    split; [cbn [length]; lia |].
    constructor; [rewrite Ho; lia |].
    eapply Forall_impl; [| exact Hos]. intros a Ha. cbn beta in Ha. lia.
Qed.

(** *** Faces used as examples *)

Lemma distance2D_same (a : option Point.t) : distance2D a a = 0.
Proof.
  unfold distance2D, Math_hypot2.
  replace ((x_or_0 a - x_or_0 a) * (x_or_0 a - x_or_0 a)
           + (y_or_0 a - y_or_0 a) * (y_or_0 a - y_or_0 a)) with 0 by ring.
  apply sqrt_0.
Qed.

Lemma distance2D_vertical (x0 y1 y2 : R) :
  y2 <= y1 ->
  distance2D (Some (Point.mk x0 y1)) (Some (Point.mk x0 y2)) = y1 - y2.
Proof.
  intros H. unfold distance2D, Math_hypot2; cbn.
  replace ((x0 - x0) * (x0 - x0) + (y1 - y2) * (y1 - y2))
    with ((y1 - y2) * (y1 - y2)) by ring.
  apply sqrt_square; lra.
Qed.

Lemma distance2D_horizontal (y0 x1 x2 : R) :
  x1 <= x2 ->
  distance2D (Some (Point.mk x1 y0)) (Some (Point.mk x2 y0)) = x2 - x1.
Proof.
  intros H. unfold distance2D, Math_hypot2; cbn.
  replace ((x1 - x2) * (x1 - x2) + (y0 - y0) * (y0 - y0))
    with ((x2 - x1) * (x2 - x1)) by ring.
  apply sqrt_square; lra.
Qed.

Lemma point_at_closed_face (i : nat) :
  (i < 478)%nat -> point_at closed_face i = Some (Point.mk 0 0).
Proof.
  intros H. unfold point_at, closed_face.
  rewrite nth_error_repeat by exact H. reflexivity.
Qed.

Lemma Math_atan2_origin : Math_atan2 0 0 = 0.
Proof.
  unfold Math_atan2.
  destruct (Rlt_dec 0 0); [lra |]. destruct (Rlt_dec 0 0); [lra |].
  reflexivity.
Qed.

Lemma closed_face_metrics :
  FaceExpressionTracker._computeMetrics closed_face
  = Some (FaceExpressionTracker.mkMetrics 0 0 0 0 0).
Proof.
  unfold FaceExpressionTracker._computeMetrics,
    FaceExpressionTracker._eyeOpenness.
  rewrite !point_at_closed_face by lia.
  rewrite !distance2D_same.
  assert (nth_error closed_face 234 = Some (Landmark.mk 0 0 0)) as ->
    by (unfold closed_face; apply nth_error_repeat; lia).
  assert (nth_error closed_face 454 = Some (Landmark.mk 0 0 0)) as ->
    by (unfold closed_face; apply nth_error_repeat; lia).
  replace (Reqb 0 0) with true by (symmetry; apply Reqb_true; reflexivity).
  cbn [Landmark.x Landmark.y].
  replace (0 - 0) with 0 by lra. rewrite Math_atan2_origin.
  replace (0 / (0 + 1e-6) * 3) with 0 by lra.
  rewrite (clamp_inside 0 0 1) by lra.
  replace ((0 + 0) * 0.5) with 0 by lra.
  rewrite (clamp_inside 0 0 1) by lra.
  replace ((0 / 1 + 0 / 1) * 2.8) with 0 by lra.
  rewrite (clamp_inside 0 0 1) by lra.
  assert (clamp ((0 / 1 - 0.25) * 3) 0 1 = 0) as ->.
  { unfold clamp. rewrite Rmin_right by lra. apply Rmax_left; lra. }
  assert (clamp ((0 / 1 - 0.02) * 12) 0 1 = 0) as ->.
  { unfold clamp. rewrite Rmin_right by lra. apply Rmax_left; lra. }
  reflexivity.
Qed.

Lemma eye_face_openness (v : R) :
  0 <= v ->
  exists m,
    FaceExpressionTracker._computeMetrics (eye_face v) = Some m
    /\ FaceExpressionTracker.eyeOpenness m = clamp (v / (1 + 1e-6) * 3) 0 1.
Proof.
  intros Hv.
  unfold FaceExpressionTracker._computeMetrics.
  assert (nth_error (eye_face v) 234 = Some (Landmark.mk 0 0 0)) as ->
    by reflexivity.
  assert (nth_error (eye_face v) 454 = Some (Landmark.mk 0 0 0)) as ->
    by reflexivity.
  eexists. split; [reflexivity |].
  cbn [FaceExpressionTracker.eyeOpenness].
  unfold FaceExpressionTracker._eyeOpenness.
  assert (point_at (eye_face v) 159 = Some (Point.mk 0 v)) as ->
    by reflexivity.
  assert (point_at (eye_face v) 145 = Some (Point.mk 0 0)) as ->
    by reflexivity.
  assert (point_at (eye_face v) 33 = Some (Point.mk 0 0)) as ->
    by reflexivity.
  assert (point_at (eye_face v) 133 = Some (Point.mk 1 0)) as ->
    by reflexivity.
  assert (point_at (eye_face v) 386 = Some (Point.mk 0 v)) as ->
    by reflexivity.
  assert (point_at (eye_face v) 374 = Some (Point.mk 0 0)) as ->
    by reflexivity.
  assert (point_at (eye_face v) 362 = Some (Point.mk 0 0)) as ->
    by reflexivity.
  assert (point_at (eye_face v) 263 = Some (Point.mk 1 0)) as ->
    by reflexivity.
  rewrite (distance2D_vertical 0 v 0) by lra.
  rewrite (distance2D_horizontal 0 0 1) by lra.
  replace (v - 0) with v by lra. replace (1 - 0 + 1e-6) with (1 + 1e-6) by lra.
  set (e := clamp (v / (1 + 1e-6) * 3) 0 1).
  assert (unit_interval e) as He by (apply clamp_range; lra).
  replace ((e + e) * 0.5) with e by lra.
  apply clamp_inside; exact He.
Qed.

Lemma face_update_metrics (face : list Landmark.t)
  (m : FaceExpressionTracker.Metrics) (now : R)
  (s : FaceExpressionTracker.State) :
  FaceExpressionTracker._computeMetrics face = Some m ->
  FaceExpressionTracker.update (face_result face) now s
  = Some ({| FaceExpressionTracker.metrics := m;
             FaceExpressionTracker.out_blinkCount :=
               FaceExpressionTracker.blinkCount
                 (FaceExpressionTracker._updateBlink
                    (FaceExpressionTracker.eyeOpenness m) now s);
             FaceExpressionTracker.blinkTriggered :=
               Rltb (FaceExpressionTracker.eyeOpenness m) 0.22
               && negb (FaceExpressionTracker.isBlinking
                          (FaceExpressionTracker._updateBlink
                             (FaceExpressionTracker.eyeOpenness m) now s)) |},
          FaceExpressionTracker._updateBlink
            (FaceExpressionTracker.eyeOpenness m) now s).
Proof.
  intros Hm. unfold FaceExpressionTracker.update, face_result.
  cbn [FaceExpressionTracker.first_face FaceExpressionTracker.faceLandmarks].
  rewrite Hm. reflexivity.
Qed.

(** A closed face seen while the tracker is not blinking and the cooldown
    has passed counts a blink. *)
Lemma closed_face_counts (now : R) (s : FaceExpressionTracker.State) :
  FaceExpressionTracker.isBlinking s = false ->
  now - FaceExpressionTracker.prevBlinkTime s > CONFIG.blinkCooldownMs ->
  exists o s',
    FaceExpressionTracker.update (face_result closed_face) now s
    = Some (o, s')
    /\ FaceExpressionTracker.blinkCount s'
       = S (FaceExpressionTracker.blinkCount s)
    /\ FaceExpressionTracker.prevBlinkTime s' = now
    /\ FaceExpressionTracker.isBlinking s' = true.
Proof.
  intros Hb Hc. eexists. eexists.
  split; [apply (face_update_metrics _ _ now s closed_face_metrics) |].
  cbn [FaceExpressionTracker.eyeOpenness].
  unfold FaceExpressionTracker._updateBlink. rewrite Hb.
  replace (Rltb 0 0.18) with true by (symmetry; apply Rltb_true; lra).
  replace (Rgtb (now - FaceExpressionTracker.prevBlinkTime s)
             CONFIG.blinkCooldownMs) with true
    by (symmetry; apply Rgtb_true; lra).
  cbn. repeat split; reflexivity.
Qed.

Lemma face_metrics_in_range_witness :
  exists m,
    FaceExpressionTracker._computeMetrics closed_face = Some m
    /\ unit_interval (FaceExpressionTracker.eyeOpenness m)
    /\ - PI < FaceExpressionTracker.roll m <= PI.
Proof.
  eexists. split; [exact closed_face_metrics |].
  pose proof (face_metrics_in_range _ _ closed_face_metrics) as H.
  split; apply H.
Defined.

Lemma blinks_respect_cooldown_witness :
  exists o1 s1 outs s2 o2 s3,
    FaceExpressionTracker.update (face_result closed_face) 2000
      FaceExpressionTracker.constructor = Some (o1, s1)
    /\ FaceExpressionTracker.blinkCount s1 = 1%nat
    /\ FaceExpressionTracker.run [(None, 3000)] s1 = Some (outs, s2)
    /\ FaceExpressionTracker.update (face_result closed_face) 4000 s2
       = Some (o2, s3)
    /\ FaceExpressionTracker.blinkCount s3
       = S (FaceExpressionTracker.blinkCount s2)
    /\ 4000 - 2000 > CONFIG.blinkCooldownMs.
Proof.
  destruct (closed_face_counts 2000 FaceExpressionTracker.constructor)
    as (o1 & s1 & Hu1 & Hc1 & Hp1 & Hb1);
    [reflexivity | unfold CONFIG.blinkCooldownMs; simpl; lra |].
  set (s2 := {| FaceExpressionTracker.prevBlinkTime :=
                  FaceExpressionTracker.prevBlinkTime s1;
                FaceExpressionTracker.isBlinking := false;
                FaceExpressionTracker.blinkCount :=
                  FaceExpressionTracker.blinkCount s1 |}).
  assert (FaceExpressionTracker.run [(None, 3000)] s1
          = Some ([FaceExpressionTracker._empty s2], s2)) as Hrun
    by reflexivity.
  destruct (closed_face_counts 4000 s2) as (o2 & s3 & Hu2 & Hc2 & _);
    [reflexivity | unfold CONFIG.blinkCooldownMs; cbn; rewrite Hp1; lra |].
  exists o1, s1, [FaceExpressionTracker._empty s2], s2, o2, s3.
  split; [exact Hu1 |]. split; [exact Hc1 |]. split; [exact Hrun |].
  split; [exact Hu2 |]. split; [exact Hc2 |].
  exact (blinks_respect_cooldown _ _ _ _ _ _ _ _ _ _ _ _
           Hu1 Hc1 Hrun Hu2 Hc2).
Defined.

Lemma blink_trigger_band_witness :
  exists o s',
    FaceExpressionTracker.update (face_result (eye_face 0.0667)) 2000
      FaceExpressionTracker.constructor = Some (o, s')
    /\ FaceExpressionTracker.blinkTriggered o = true
    /\ FaceExpressionTracker.blinkCount s' = 0%nat.
Proof.
  destruct (eye_face_openness 0.0667 ltac:(lra)) as (m & Hm & He).
  pose proof (face_update_metrics _ _ 2000 FaceExpressionTracker.constructor
                Hm) as Hu.
  eexists. eexists. split; [exact Hu |].
  destruct (blink_trigger_band _ _ _ _ _ Hu) as [Hiff Himp].
  assert (FaceExpressionTracker.blinkTriggered
            {| FaceExpressionTracker.metrics := m;
               FaceExpressionTracker.out_blinkCount :=
                 FaceExpressionTracker.blinkCount
                   (FaceExpressionTracker._updateBlink
                      (FaceExpressionTracker.eyeOpenness m) 2000
                      FaceExpressionTracker.constructor);
               FaceExpressionTracker.blinkTriggered :=
                 Rltb (FaceExpressionTracker.eyeOpenness m) 0.22
                 && negb (FaceExpressionTracker.isBlinking
                            (FaceExpressionTracker._updateBlink
                               (FaceExpressionTracker.eyeOpenness m) 2000
                               FaceExpressionTracker.constructor)) |}
          = true) as Ht.
  { apply Hiff. cbn [FaceExpressionTracker.metrics]. rewrite He.
    rewrite clamp_inside by lra. lra. }
  split; [exact Ht |]. apply Himp. exact Ht.
Defined.

Lemma blink_count_monotone_witness :
  exists outs s',
    FaceExpressionTracker.run
      [(face_result closed_face, 2000); (None, 3000)]
      FaceExpressionTracker.constructor = Some (outs, s')
    /\ (FaceExpressionTracker.blinkCount s' <= 2)%nat.
Proof.
  destruct (closed_face_counts 2000 FaceExpressionTracker.constructor)
    as (o1 & s1 & Hu1 & Hc1 & Hp1 & Hb1);
    [reflexivity | unfold CONFIG.blinkCooldownMs; simpl; lra |].
  eexists. eexists.
  assert (FaceExpressionTracker.run
            [(face_result closed_face, 2000); (None, 3000)]
            FaceExpressionTracker.constructor
          = Some ([o1; FaceExpressionTracker._empty
                         {| FaceExpressionTracker.prevBlinkTime :=
                              FaceExpressionTracker.prevBlinkTime s1;
                            FaceExpressionTracker.isBlinking := false;
                            FaceExpressionTracker.blinkCount :=
                              FaceExpressionTracker.blinkCount s1 |}],
                  {| FaceExpressionTracker.prevBlinkTime :=
                       FaceExpressionTracker.prevBlinkTime s1;
                     FaceExpressionTracker.isBlinking := false;
                     FaceExpressionTracker.blinkCount :=
                       FaceExpressionTracker.blinkCount s1 |})) as Hrun.
  { cbn [FaceExpressionTracker.run]. rewrite Hu1. reflexivity. }
  split; [exact Hrun |].
  pose proof (blink_count_monotone _ _ _ _ Hrun) as [Hb _].
  cbn [length FaceExpressionTracker.constructor
       FaceExpressionTracker.blinkCount] in Hb.
  cbn [FaceExpressionTracker.blinkCount]. lia.
Defined.

(** *** A held blink *)

Lemma closed_eye_call_step (c : option FaceExpressionTracker.Result * R)
  (s : FaceExpressionTracker.State) (o : FaceExpressionTracker.Output)
  (s1 : FaceExpressionTracker.State) :
  closed_eye_call c ->
  FaceExpressionTracker.update (fst c) (snd c) s = Some (o, s1) ->
  FaceExpressionTracker.isBlinking s1 = true
  /\ (FaceExpressionTracker.isBlinking s = true ->
      FaceExpressionTracker.blinkCount s1
      = FaceExpressionTracker.blinkCount s)
  /\ (FaceExpressionTracker.blinkCount s1
      <= S (FaceExpressionTracker.blinkCount s))%nat.
Proof.
  intros (face & m & Hf & Hm & Hlt) Hu.
  unfold FaceExpressionTracker.update in Hu. rewrite Hf, Hm in Hu.
  inversion Hu; subst; clear Hu.
  destruct (_updateBlink_spec (FaceExpressionTracker.eyeOpenness m)
              (snd c) s) as (Hb & Hc).
  split; [rewrite Hb; apply Rltb_true; exact Hlt |].
  split.
  - intros Hbl. destruct Hc as [(_ & _ & _ & Hnb & _)|(Hsame & _)];
      [congruence | exact Hsame].
  - destruct Hc as [(Hc & _)|(Hc & _)]; lia.
Qed.

Lemma held_blink_no_count
  (calls : list (option FaceExpressionTracker.Result * R)) :
  forall s outs s',
  Forall closed_eye_call calls ->
  FaceExpressionTracker.isBlinking s = true ->
  FaceExpressionTracker.run calls s = Some (outs, s') ->
  FaceExpressionTracker.blinkCount s' = FaceExpressionTracker.blinkCount s.
Proof.
  induction calls as [|[r now] calls IH]; intros s outs s' Hall Hb Hrun;
    simpl in Hrun.
  - inversion Hrun; subst; reflexivity.
  - destruct (FaceExpressionTracker.update r now s) as [[o s1]|] eqn:Eu;
      [| discriminate].
    destruct (FaceExpressionTracker.run calls s1) as [[os s2]|] eqn:Er;
      [| discriminate].
    inversion Hrun; subst; clear Hrun.
    inversion Hall as [|c l Hc Hl]; subst.
    destruct (closed_eye_call_step (r, now) s o s1 Hc Eu) as (Hb1 & Hk & _).
    rewrite (IH s1 os s' Hl Hb1 Er). apply Hk; exact Hb.
Qed.

(** X16.  While every call sees a face with closed eyes, at most one blink
    is counted, however long the eyes stay closed. *)
Theorem held_blink_counts_once
  (calls : list (option FaceExpressionTracker.Result * R))
  (s : FaceExpressionTracker.State)
  (outs : list FaceExpressionTracker.Output)
  (s' : FaceExpressionTracker.State) :
  Forall closed_eye_call calls ->
  FaceExpressionTracker.run calls s = Some (outs, s') ->
  (FaceExpressionTracker.blinkCount s'
   <= S (FaceExpressionTracker.blinkCount s))%nat.
Proof.
  intros Hall Hrun. destruct calls as [|[r now] calls]; simpl in Hrun.
  - inversion Hrun; subst; lia.
  - destruct (FaceExpressionTracker.update r now s) as [[o s1]|] eqn:Eu;
      [| discriminate].
    destruct (FaceExpressionTracker.run calls s1) as [[os s2]|] eqn:Er;
      [| discriminate].
    inversion Hrun; subst; clear Hrun.
    inversion Hall as [|c l Hc Hl]; subst.
    destruct (closed_eye_call_step (r, now) s o s1 Hc Eu) as (Hb1 & _ & Hle).
    rewrite (held_blink_no_count calls s1 os s' Hl Hb1 Er). exact Hle.
Qed.

Lemma closed_face_call (now : R) :
  closed_eye_call (face_result closed_face, now).
Proof.
  exists closed_face, (FaceExpressionTracker.mkMetrics 0 0 0 0 0).
  split; [reflexivity |]. split; [exact closed_face_metrics |]. cbn; lra.
Qed.

Lemma held_blink_counts_once_witness :
  exists outs s',
    Forall closed_eye_call
      [(face_result closed_face, 2000); (face_result closed_face, 4000)]
    /\ FaceExpressionTracker.run
         [(face_result closed_face, 2000); (face_result closed_face, 4000)]
         FaceExpressionTracker.constructor = Some (outs, s')
    /\ (FaceExpressionTracker.blinkCount s' <= 1)%nat.
Proof.
  assert (Forall closed_eye_call
            [(face_result closed_face, 2000);
             (face_result closed_face, 4000)]) as W1
    by (repeat constructor; apply closed_face_call).
  pose proof (face_update_metrics closed_face _ 2000
                FaceExpressionTracker.constructor closed_face_metrics)
    as Hu1.
  set (s1 := FaceExpressionTracker._updateBlink
               (FaceExpressionTracker.eyeOpenness
                  (FaceExpressionTracker.mkMetrics 0 0 0 0 0)) 2000
               FaceExpressionTracker.constructor) in *.
  pose proof (face_update_metrics closed_face _ 4000 s1 closed_face_metrics)
    as Hu2.
  eexists. eexists. split; [exact W1 |].
  assert (forall o1 o2 s2,
             FaceExpressionTracker.update (face_result closed_face) 2000
               FaceExpressionTracker.constructor = Some (o1, s1) ->
             FaceExpressionTracker.update (face_result closed_face) 4000 s1
             = Some (o2, s2) ->
             FaceExpressionTracker.run
               [(face_result closed_face, 2000);
                (face_result closed_face, 4000)]
               FaceExpressionTracker.constructor = Some ([o1; o2], s2))
    as Hrun.
  { intros o1 o2 s2 H1 H2. cbn [FaceExpressionTracker.run].
    rewrite H1, H2. reflexivity. }
  specialize (Hrun _ _ _ Hu1 Hu2).
  split; [exact Hrun |].
  exact (held_blink_counts_once _ _ _ _ W1 Hrun).
Defined.

(** * The palette and the loop *)

Section PaletteLoop.

Import PaletteController.

Lemma palette_update_index (a : Args) (now : R) (s : State) :
  (index s < length COLOR_THEMES)%nat ->
  (index (snd (update a now s)) < length COLOR_THEMES)%nat.
Proof.
  intros H. unfold update.
  destruct (count_beat_fields a now s) as (Hi & _).
  destruct (quiet_resets a now s); cbn [snd index]; [simpl; lia |].
  destruct (advances a now s); cbn [snd index].
  - apply Nat.mod_upper_bound. simpl; lia.
  - rewrite Hi; exact H.
Qed.

Lemma palette_run_index (inputs : list (Args * R)) :
  forall s,
  (index s < length COLOR_THEMES)%nat ->
  (index (palette_run inputs s) < length COLOR_THEMES)%nat.
Proof.
  induction inputs as [|[a now] inputs IH]; intros s H; [exact H |].
  unfold palette_run; cbn [fold_left fst snd].
  apply (IH (snd (update a now s))). apply palette_update_index; exact H.
Qed.

(** X17.  From the constructed palette, [update] always returns one of the
    four themes, never [undefined], whatever the arguments and the clock
    readings of the calls before. *)
Theorem palette_always_returns_theme (inputs : list (Args * R)) (t0 : R)
  (a : Args) (now : R) :
  let s := palette_run inputs (constructor t0) in
  (index (snd (update a now s)) < 4)%nat
  /\ exists th, fst (update a now s) = Some th /\ In th COLOR_THEMES.
Proof.
  cbv zeta.
  assert (index (palette_run inputs (constructor t0)) < length COLOR_THEMES)%nat
    as Hi by (apply palette_run_index; simpl; lia).
  pose proof (palette_update_index a now _ Hi) as Hi'.
  split; [exact Hi' |].
  unfold update at 1. cbn [fst].
  match goal with |- exists th, nth_error _ ?i = _ /\ _ =>
    assert (i < length COLOR_THEMES)%nat as Hlt end.
  { unfold update in Hi'. cbn [snd] in Hi'. exact Hi'. }
  apply nth_error_Some in Hlt.
  match goal with |- exists th, nth_error ?l ?i = _ /\ _ =>
    destruct (nth_error l i) as [th|] eqn:E end; [| contradiction].
  exists th. split; [reflexivity | apply (nth_error_In _ _ E)].
Qed.

(** X18.  The quiet reset: on a call without a beat, with the audio
    intensity under [paletteQuietIntensity], the hold time passed and more
    than [paletteQuietResetMs] since the last counted beat, the palette
    goes to the first theme, the switch time becomes the clock reading and
    the beat counter restarts. *)
Theorem palette_quiet_reset (a : Args) (now : R) (s : State) :
  beatDetected a = false ->
  audioIntensity a < CONFIG.paletteQuietIntensity ->
  hold a <= now - lastSwitch s ->
  now - lastBeatAt s > CONFIG.paletteQuietResetMs ->
  index (snd (update a now s)) = 0%nat
  /\ lastSwitch (snd (update a now s)) = now
  /\ beatCount (snd (update a now s)) = 0%nat
  /\ fst (update a now s) = first_theme.
Proof.
  intros Hb Hq Hh Ht.
  assert (quiet_resets a now s = true) as Hr.
  { unfold quiet_resets, count_beat. rewrite Hb.
    apply andb_true_iff. split; [apply andb_true_iff; split |].
    - apply Rltb_true; exact Hq.
    - apply Rgeb_true; exact Hh.
    - apply Rgtb_true; lra. }
  unfold update. rewrite Hr. cbn. repeat split; reflexivity.
Qed.

Lemma palette_quiet_reset_witness :
  let a := mkArgs 0 0 false 0 in
  let s := mkState 2 1000 3 1000 in
  beatDetected a = false
  /\ audioIntensity a < CONFIG.paletteQuietIntensity
  /\ hold a <= 7000 - lastSwitch s
  /\ 7000 - lastBeatAt s > CONFIG.paletteQuietResetMs
  /\ index (snd (update a 7000 s)) = 0%nat.
Proof.
  intros a s.
  assert (beatDetected a = false) as W1 by reflexivity.
  assert (audioIntensity a < CONFIG.paletteQuietIntensity) as W2
    by (unfold CONFIG.paletteQuietIntensity; simpl; lra).
  assert (hold a <= 7000 - lastSwitch s) as W3.
  { rewrite hold_value. cbn [bpm a lastSwitch s].
    replace (Rgtb 0 0) with false by (symmetry; apply Rgtb_false; lra).
    unfold CONFIG.paletteMinHoldMs. lra. }
  assert (7000 - lastBeatAt s > CONFIG.paletteQuietResetMs) as W4
    by (unfold CONFIG.paletteQuietResetMs; simpl; lra).
  split; [exact W1 |]. split; [exact W2 |]. split; [exact W3 |].
  split; [exact W4 |].
  exact (proj1 (palette_quiet_reset a 7000 s W1 W2 W3 W4)).
Defined.

(** With no advance the palette stays on, or falls back to, the first
    theme it was on, and the counter grows by this call's beat at most. *)
Lemma palette_stays_first (a : Args) (now : R) (s : State) :
  advances a now s = false -> index s = 0%nat ->
  index (snd (update a now s)) = 0%nat
  /\ fst (update a now s) = first_theme
  /\ (beatCount (snd (update a now s))
      <= beatCount s + if beatDetected a then 1 else 0)%nat.
Proof.
  intros Ha Hi. unfold update. rewrite Ha.
  destruct (count_beat_fields a now s) as (Hi' & _ & Hc).
  destruct (quiet_resets a now s); cbn [fst snd index beatCount].
  - split; [reflexivity |]. split; [reflexivity | lia].
  - rewrite Hi', Hi, Hc. split; [reflexivity |]. split; [reflexivity | lia].
Qed.

Lemma advances_needs_count (a : Args) (now : R) (s : State) :
  (beatCount s + (if beatDetected a then 1 else 0)
   < CONFIG.paletteBeatsPerCycle)%nat ->
  advances a now s = false.
Proof.
  intros H. unfold advances.
  destruct (count_beat_fields a now s) as (_ & _ & Hc). rewrite Hc.
  replace (CONFIG.paletteBeatsPerCycle
           <=? beatCount s + (if beatDetected a then 1 else 0))%nat
    with false by (symmetry; apply Nat.leb_gt; exact H).
  apply andb_false_r.
Qed.

Lemma advances_needs_pulse (a : Args) (now : R) (s : State) :
  beatDetected a = false -> beatPulse a <= CONFIG.paletteBeatPulseGate ->
  advances a now s = false.
Proof.
  intros Hb Hp. unfold advances, strongPulse. rewrite Hb.
  replace (Rgtb (beatPulse a) CONFIG.paletteBeatPulseGate) with false
    by (symmetry; apply Rgtb_false; exact Hp).
  cbn [orb]. rewrite andb_false_r. reflexivity.
Qed.

(** ** The loop *)

Lemma loop_run_cons (lt : LoopTick) (lts : list LoopTick)
  (st : AudioAnalyser.State * State) :
  loop_run (lt :: lts) st
  = (fst (loop_step lt st) :: fst (loop_run lts (snd (loop_step lt st))),
     snd (loop_run lts (snd (loop_step lt st)))).
Proof.
  cbn [loop_run]. destruct (loop_step lt st) as [p st1]. cbn [fst snd].
  destruct (loop_run lts st1) as [ps st2]. reflexivity.
Qed.

Lemma loop_step_spec (lt : LoopTick) (sa : AudioAnalyser.State) (sp : State) :
  loop_step lt (sa, sp)
  = (fst (update (Renderer.palette_args
                    (fst (AudioAnalyser.update (audio_tick lt) sa)))
            (draw_clock lt) sp),
     (snd (AudioAnalyser.update (audio_tick lt) sa),
      snd (update (Renderer.palette_args
                     (fst (AudioAnalyser.update (audio_tick lt) sa)))
             (draw_clock lt) sp))).
Proof.
  unfold loop_step, Renderer.draw_palette. cbn [fst snd].
  destruct (AudioAnalyser.update (audio_tick lt) sa) as [o sa'].
  cbn [fst snd].
  destruct (update (Renderer.palette_args o) (draw_clock lt) sp)
    as [p sp']. reflexivity.
Qed.

(** The loop on silence, from a quiet analyser and a palette on the first
    theme. *)
Lemma silent_loop_from (cs : list (R * R)) :
  forall (sa : AudioAnalyser.State) (k : nat) (sp : State),
  quiet_state sa k -> index sp = 0%nat ->
  Forall (fun p => p = first_theme)
    (fst (loop_run (map silent_loop_tick cs) (sa, sp))).
Proof.
  induction cs as [|[t td] cs IH]; intros sa k sp Hq Hi.
  - constructor.
  - cbn [map]. rewrite loop_run_cons, loop_step_spec.
    cbn [fst snd silent_loop_tick audio_tick draw_clock].
    pose proof (quiet_tick sa k t Hq) as Hqt. cbv zeta in Hqt.
    destruct Hqt as (Hq' & _ & _ & Hbp & _ & _ & Hbd & _).
    set (o := fst (AudioAnalyser.update (silent_tick t) sa)) in *.
    assert (advances (Renderer.palette_args o) td sp = false) as Hadv.
    { apply advances_needs_pulse; cbn [Renderer.palette_args beatDetected
                                       beatPulse].
      - exact Hbd.
      - rewrite Hbp. unfold CONFIG.paletteBeatPulseGate. lra. }
    destruct (palette_stays_first _ td sp Hadv Hi) as (Hi' & Hth & _).
    constructor; [exact Hth |].
    apply (IH _ (S k) _ Hq' Hi').
Qed.

(** X19.  On silence the loop shows the first theme on every tick: from
    the initialised analyser and the constructed palette, with zero-filled
    buffers, whatever the clock readings are. *)
Theorem silent_loop_shows_first_theme (cs : list (R * R)) (t0 : R) :
  Forall (fun p => p = first_theme)
    (fst (loop_run (map silent_loop_tick cs)
            (init AudioAnalyser.constructor, constructor t0))).
Proof.
  apply (silent_loop_from cs _ 0 _ quiet_state_init). reflexivity.
Qed.

Lemma loop_run_app (l1 l2 : list LoopTick)
  (st : AudioAnalyser.State * State) :
  loop_run (l1 ++ l2) st
  = (fst (loop_run l1 st) ++ fst (loop_run l2 (snd (loop_run l1 st))),
     snd (loop_run l2 (snd (loop_run l1 st)))).
Proof.
  revert st; induction l1 as [|lt l1 IH]; intros st.
  - cbn [app loop_run fst snd]. destruct (loop_run l2 st); reflexivity.
  - cbn [app]. rewrite !loop_run_cons, IH. reflexivity.
Qed.

Lemma loop_run_audio (lts : list LoopTick) :
  forall (sa : AudioAnalyser.State) (sp : State),
  fst (snd (loop_run lts (sa, sp))) = final (map audio_tick lts) sa.
Proof.
  induction lts as [|lt lts IH]; intros sa sp; [reflexivity |].
  rewrite loop_run_cons, loop_step_spec. cbn [fst snd map].
  rewrite final_cons. apply IH.
Qed.

(** After [k] ticks from the start the palette is on the first theme and
    has counted at most [k - 12] beats, as long as that is under 8. *)
Lemma early_loop_invariant (lts : list LoopTick) (t0 : R) :
  (length lts <= 19)%nat ->
  let r := loop_run lts (init AudioAnalyser.constructor, constructor t0) in
  Forall (fun p => p = first_theme) (fst r)
  /\ index (snd (snd r)) = 0%nat
  /\ (beatCount (snd (snd r)) <= length lts - 12)%nat.
Proof.
  induction lts as [|lt lts IH] using rev_ind; intros Hlen.
  - cbn. repeat split; try constructor.
  - rewrite length_app in Hlen; cbn [length] in Hlen.
    cbv zeta. rewrite loop_run_app.
    destruct (IH ltac:(lia)) as (Hth & Hi & Hc). cbv zeta in Hth, Hi, Hc.
    set (st := loop_run lts (init AudioAnalyser.constructor, constructor t0))
      in *.
    pose proof (loop_run_audio lts (init AudioAnalyser.constructor)
                  (constructor t0)) as Hsa. fold st in Hsa.
    destruct st as [ps [sa sp]]. cbn [fst snd] in *.
    rewrite loop_run_cons, loop_step_spec. cbn [fst snd loop_run].
    set (o := fst (AudioAnalyser.update (audio_tick lt) sa)).
    assert ((length lts < 12)%nat -> Snapshot.beatDetected o = false)
      as Hearly.
    { intros Hl. unfold o. rewrite Hsa.
      apply (no_beat_on_early_tick (map audio_tick lts) (audio_tick lt)).
      rewrite length_map. unfold CONFIG.fluxMinWindow. exact Hl. }
    assert (beatCount sp
            + (if beatDetected (Renderer.palette_args o) then 1 else 0)
            <= length lts + 1 - 12)%nat as Hcnt.
    { cbn [Renderer.palette_args beatDetected].
      destruct (Nat.lt_ge_cases (length lts) 12) as [Hl|Hl].
      - rewrite (Hearly Hl). lia.
      - destruct (Snapshot.beatDetected o); lia. }
    assert (advances (Renderer.palette_args o) (draw_clock lt) sp = false)
      as Hadv.
    { apply advances_needs_count. unfold CONFIG.paletteBeatsPerCycle. lia. }
    destruct (palette_stays_first _ (draw_clock lt) sp Hadv Hi)
      as (Hi' & Hp & Hc').
    rewrite length_app; cbn [length].
    split; [apply Forall_app; split; [exact Hth |
                                      constructor; [exact Hp | constructor]]
           |].
    split; [exact Hi' | lia].
Qed.

(** X20.  Whatever the audio and the clock readings, the loop shows the
    first theme on each of its first 19 ticks: no beat can be confirmed
    on the first 12, and the palette advances on the eighth counted beat
    at the earliest. *)
Theorem first_theme_for_19_ticks (lts : list LoopTick) (t0 : R) :
  (length lts <= 19)%nat ->
  Forall (fun p => p = first_theme)
    (fst (loop_run lts (init AudioAnalyser.constructor, constructor t0))).
Proof.
  intros Hlen. apply (early_loop_invariant lts t0 Hlen).
Qed.

Lemma first_theme_for_19_ticks_witness :
  (length (map silent_loop_tick [(16%R, 17%R); (32%R, 33%R)]) <= 19)%nat
  /\ Forall (fun p => p = first_theme)
       (fst (loop_run (map silent_loop_tick [(16%R, 17%R); (32%R, 33%R)])
               (init AudioAnalyser.constructor, constructor 0))).
Proof.
  assert (length (map silent_loop_tick [(16%R, 17%R); (32%R, 33%R)]) <= 19)%nat
    as W by (simpl; lia).
  split; [exact W |].
  exact (first_theme_for_19_ticks _ 0 W).
Defined.

End PaletteLoop.

(** * HandGestureTracker *)

Section Hands.

Import HandGestureTracker.

Lemma clamp01_gt (v c : R) : 0 <= c < 1 -> (c < clamp v 0 1 <-> c < v).
Proof.
  intros Hc. unfold clamp, Rmax, Rmin.
  destruct (Rle_dec 1 v); destruct (Rle_dec 0 _); split; lra.
Qed.

Lemma clamp01_lt (v c : R) : 0 < c <= 1 -> (clamp v 0 1 < c <-> v < c).
Proof.
  intros Hc. unfold clamp, Rmax, Rmin.
  destruct (Rle_dec 1 v); destruct (Rle_dec 0 _); split; lra.
Qed.

Lemma nth_error_three (A : Type) (l : list A) :
  (9 <= length l)%nat ->
  exists a b c, nth_error l 4 = Some a /\ nth_error l 8 = Some b
                /\ nth_error l 0 = Some c.
Proof.
  intros H.
  destruct (nth_error l 4) as [a|] eqn:E4;
    [| apply nth_error_None in E4; lia].
  destruct (nth_error l 8) as [b|] eqn:E8;
    [| apply nth_error_None in E8; lia].
  destruct (nth_error l 0) as [c|] eqn:E0;
    [| apply nth_error_None in E0; lia].
  exists a, b, c. repeat split.
Qed.

Lemma extension_fold (landmarks : list Landmark.t) :
  fold_left
    (fun acc p =>
       acc + distance2D (point_at landmarks (fst p))
               (point_at landmarks (snd p)))
    [(8, 6); (12, 10); (16, 14); (20, 18)]%nat 0
  = extension_sum landmarks.
Proof. unfold extension_sum. cbn [fold_left fst snd]. lra. Qed.

Lemma extension_sum_nonneg (landmarks : list Landmark.t) :
  0 <= extension_sum landmarks.
Proof.
  unfold extension_sum.
  pose proof (distance2D_nonneg (point_at landmarks 8) (point_at landmarks 6)).
  pose proof (distance2D_nonneg (point_at landmarks 12)
                (point_at landmarks 10)).
  pose proof (distance2D_nonneg (point_at landmarks 16)
                (point_at landmarks 14)).
  pose proof (distance2D_nonneg (point_at landmarks 20)
                (point_at landmarks 18)).
  lra.
Qed.

(** The fields of the hand [_computeMetrics] returns. *)
Lemma _computeMetrics_fields (landmarks : list Landmark.t) (h : String.string)
  (prev : option Hand) (hd : Hand) :
  _computeMetrics landmarks h prev = Some hd ->
  exists thumb index wrist,
    nth_error landmarks 4 = Some thumb
    /\ nth_error landmarks 8 = Some index
    /\ nth_error landmarks 0 = Some wrist
    /\ handedness hd = h
    /\ pinch hd
       = clamp (1 - distance2D (point_at landmarks 4) (point_at landmarks 8)
                    * 4) 0 1
    /\ spread hd
       = clamp (distance2D (point_at landmarks 8) (point_at landmarks 20) * 3)
           0 1
    /\ extension hd = clamp (extension_sum landmarks / 4 * 8) 0 1
    /\ gesture hd
       = (if Rgtb (spread hd) 0.45 && Rgtb (extension hd) 0.45
             && Rltb (pinch hd) 0.65
          then gesture_open else gesture_closed)
    /\ indexTip hd = Landmark.xy index
    /\ thumbTip hd = Landmark.xy thumb
    /\ palmCenter hd = midpoint (Landmark.xy wrist) (Landmark.xy index)
    /\ direction hd
       = Point.mk (Landmark.x index - Landmark.x wrist)
           (Landmark.y index - Landmark.y wrist)
    /\ velocity hd
       = match prev with
         | Some p =>
             Point.mk ((Landmark.x index - Point.x (indexTip p)) * 60)
               ((Landmark.y index - Point.y (indexTip p)) * 60)
         | None => Point.mk 0 0
         end
    /\ speed hd = Math_hypot2 (Point.x (velocity hd)) (Point.y (velocity hd))
    /\ rawLandmarks hd = landmarks.
Proof.
  unfold _computeMetrics. rewrite extension_fold.
  destruct (nth_error landmarks 4) as [thumb|]; [| discriminate].
  destruct (nth_error landmarks 8) as [index|]; [| discriminate].
  destruct (nth_error landmarks 0) as [wrist|]; [| discriminate].
  intros E. injection E as <-.
  exists thumb, index, wrist.
  cbn [handedness pinch spread extension gesture indexTip thumbTip
       palmCenter direction velocity speed rawLandmarks List.length].
  replace (1 + 1 + 1 + 1) with 4 by lra.
  repeat (split; [reflexivity |]). reflexivity.
Qed.

Lemma _computeMetrics_throws_iff (landmarks : list Landmark.t) (h : String.string)
  (prev : option Hand) :
  _computeMetrics landmarks h prev = None <-> (length landmarks < 9)%nat.
Proof.
  split.
  - intros E. destruct (Nat.lt_ge_cases (length landmarks) 9) as [H|H];
      [exact H |].
    destruct (nth_error_three _ landmarks H) as (a & b & c & E4 & E8 & E0).
    unfold _computeMetrics in E. rewrite E4, E8, E0 in E. discriminate.
  - intros H. unfold _computeMetrics.
    assert (nth_error landmarks 8 = None) as E8
      by (apply nth_error_None; lia).
    rewrite E8. destruct (nth_error landmarks 4); reflexivity.
Qed.

Lemma _computeMetrics_in_range (landmarks : list Landmark.t) (h : String.string)
  (prev : option Hand) (hd : Hand) :
  _computeMetrics landmarks h prev = Some hd -> hand_in_range hd.
Proof.
  intros E.
  destruct (_computeMetrics_fields _ _ _ _ E)
    as (t & i & w & _ & _ & _ & _ & Hp & Hs & He & _ & _ & _ & _ & _ & _
        & Hv & _).
  unfold hand_in_range. rewrite Hp, Hs, He, Hv.
  repeat split; try (apply clamp_range; lra).
  apply Math_hypot2_nonneg.
Qed.

(** X21.  The gesture rule in terms of the landmarks: a hand is reported
    open exactly when the thumb tip is more than 0.0875 from the index
    tip, the index tip more than 0.15 from the pinky tip, and the four
    tip-to-joint distances add up to more than 0.225. *)
Theorem gesture_open_rule (landmarks : list Landmark.t) (h : String.string)
  (prev : option Hand) (hd : Hand) :
  _computeMetrics landmarks h prev = Some hd ->
  (gesture hd = gesture_open
   <-> 0.0875 < distance2D (point_at landmarks 4) (point_at landmarks 8)
       /\ 0.15 < distance2D (point_at landmarks 8) (point_at landmarks 20)
       /\ 0.225 < extension_sum landmarks).
Proof.
  intros E.
  destruct (_computeMetrics_fields _ _ _ _ E)
    as (t & i & w & _ & _ & _ & _ & Hp & Hs & He & Hg & _).
  rewrite Hg, Hp, Hs, He.
  set (dp := distance2D (point_at landmarks 4) (point_at landmarks 8)).
  set (ds := distance2D (point_at landmarks 8) (point_at landmarks 20)).
  set (es := extension_sum landmarks).
  pose proof (clamp01_gt (ds * 3) 0.45 ltac:(lra)) as Hs'.
  pose proof (clamp01_gt (es / 4 * 8) 0.45 ltac:(lra)) as He'.
  pose proof (clamp01_lt (1 - dp * 4) 0.65 ltac:(lra)) as Hp'.
  destruct (Rgtb (clamp (ds * 3) 0 1) 0.45) eqn:B1;
    [apply Rgtb_true in B1 | apply Rgtb_false in B1];
  (destruct (Rgtb (clamp (es / 4 * 8) 0 1) 0.45) eqn:B2;
    [apply Rgtb_true in B2 | apply Rgtb_false in B2]);
  (destruct (Rltb (clamp (1 - dp * 4) 0 1) 0.65) eqn:B3;
    [apply Rltb_true in B3 | apply Rltb_false in B3]);
  cbn [andb]; split;
  try discriminate; try (intros _; split; [| split]);
  try (intros (G1 & G2 & G3)); try reflexivity;
  try (apply Hs' in B1); try (apply He' in B2); try (apply Hp' in B3);
  try lra;
  exfalso.
  all: try (assert (0.45 < clamp (ds * 3) 0 1) by (apply Hs'; lra); lra).
  all: try (assert (0.45 < clamp (es / 4 * 8) 0 1) by (apply He'; lra); lra).
  all: try (assert (clamp (1 - dp * 4) 0 1 < 0.65) by (apply Hp'; lra); lra).
Qed.

(** ** Maps and trails *)

Lemma Map_get_In (A : Type) (k : String.string) (m : list (String.string * A))
  (v : A) :
  Map_get k m = Some v -> exists k', In (k', v) m.
Proof.
  induction m as [|[k' v'] m IH]; cbn [Map_get]; [discriminate |].
  destruct (String.eqb k k').
  - intros E; injection E as ->. exists k'. left; reflexivity.
  - intros E. destruct (IH E) as (k0 & Hin). exists k0. right; exact Hin.
Qed.

Lemma Map_set_Forall (A : Type) (P : A -> Prop) (k : String.string) (v : A)
  (m : list (String.string * A)) :
  Forall (fun kv => P (snd kv)) m -> P v ->
  Forall (fun kv => P (snd kv)) (Map_set k v m).
Proof.
  intros Hm Hv. induction m as [|[k' v'] m IH]; cbn [Map_set].
  - constructor; [exact Hv | constructor].
  - inversion Hm as [|? ? H1 H2]; subst.
    destruct (String.eqb k k'); constructor; auto.
Qed.

Lemma _pushTrail_throws_iff (h : String.string) (p : Point.t)
  (ps : Paths) :
  _pushTrail h p ps = None <-> In h Object_prototype_keys.
Proof.
  unfold _pushTrail.
  destruct (existsb (String.eqb h) Object_prototype_keys) eqn:E.
  - split; [intros _ | reflexivity].
    apply existsb_exists in E as (k & Hin & Hk).
    apply String.eqb_eq in Hk. subst k. exact Hin.
  - split; [discriminate |]. intros Hin. exfalso.
    assert (existsb (String.eqb h) Object_prototype_keys = true) as E'.
    { apply existsb_exists. exists h. split; [exact Hin |].
      apply String.eqb_refl. }
    congruence.
Qed.

Lemma firstn_length_app (A : Type) (l1 l2 : list A) :
  firstn (length l1) (l1 ++ l2) = l1.
Proof. induction l1; cbn [length firstn app]; congruence. Qed.

Lemma skipn_length_app (A : Type) (l1 l2 : list A) :
  skipn (length l1) (l1 ++ l2) = l2.
Proof. induction l1; cbn [length skipn app]; congruence. Qed.

Lemma skipn_S_length_app (A : Type) (l1 l2 : list A) (x : A) :
  skipn (S (length l1)) (l1 ++ x :: l2) = l2.
Proof.
  induction l1 as [|a l1 IH]; [reflexivity |].
  cbn [length app]. exact IH.
Qed.

Lemma faded_app (l1 l2 : list TrailPoint) :
  faded (l1 ++ l2) = faded l1 ++ faded l2.
Proof. unfold faded. rewrite map_app, filter_app. reflexivity. Qed.

(** The loop of [_fadeTrails] over the first points of a trail fades
    exactly those, whatever follows them. *)
Lemma fade_loop_spec (l1 : list TrailPoint) :
  forall done : list TrailPoint,
  fade_loop (length l1) (l1 ++ done) = Some (faded l1 ++ done).
Proof.
  induction l1 as [|p l0 IH] using rev_ind; intros done; [reflexivity |].
  rewrite length_app, Nat.add_1_r. cbn [length fade_loop].
  rewrite <- app_assoc. cbn [app].
  rewrite nth_error_app2 by lia. rewrite Nat.sub_diag. cbn [nth_error].
  rewrite firstn_length_app, skipn_S_length_app.
  rewrite firstn_length_app, skipn_S_length_app.
  rewrite faded_app. unfold faded at 2. cbn [map filter life].
  destruct (Rgeb 0 (life p - 0.03)) eqn:B.
  - apply Rgeb_true in B.
    replace (Rgtb (life p - 0.03) 0) with false
      by (symmetry; apply Rgtb_false; lra).
    rewrite (IH done), app_nil_r. reflexivity.
  - apply Rgeb_false in B.
    replace (Rgtb (life p - 0.03) 0) with true
      by (symmetry; apply Rgtb_true; lra).
    rewrite (IH _), <- app_assoc. reflexivity.
Qed.

Lemma fade_trail_spec (trail : list TrailPoint) :
  fade_trail trail = Some (faded trail).
Proof.
  unfold fade_trail. rewrite <- (app_nil_r trail) at 2.
  rewrite fade_loop_spec, app_nil_r. reflexivity.
Qed.

Lemma _fadeTrails_spec (ps : Paths) :
  _fadeTrails ps = Some (map (fun kv => (fst kv, faded (snd kv))) ps).
Proof.
  induction ps as [|[k trail] ps IH]; [reflexivity |].
  cbn [_fadeTrails map fst snd]. rewrite fade_trail_spec, IH. reflexivity.
Qed.

(** X22.  [_fadeTrails] never throws, and its backwards loop with
    [splice] treats every point exactly once: each trail loses 0.03 of
    life on every point and then the points whose life is used up, in
    the order they had. *)
Theorem fade_trails_pointwise (ps : Paths) :
  _fadeTrails ps = Some (map (fun kv => (fst kv, faded (snd kv))) ps).
Proof.
  induction ps as [|[k trail] ps IH]; [reflexivity |].
  cbn [_fadeTrails map fst snd]. unfold fade_trail.
  rewrite <- (app_nil_r trail) at 2.
  rewrite (fade_loop_spec trail []), app_nil_r, IH. reflexivity.
Qed.

(** ** The hands of one call *)

Lemma each_hand_throws_iff (r : Result) (lms : list (list Landmark.t)) :
  forall (i : nat) (hs : list Hand) (s : State),
  each_hand r lms i hs s = None
  <-> exists k lm, nth_error lms k = Some lm /\ throwing_hand r (i + k) lm.
Proof.
  induction lms as [|lm0 lms IH]; intros i hs s.
  - cbn [each_hand]. split; [discriminate |].
    intros (k & lm & E & _). destruct k; discriminate.
  - cbn [each_hand].
    pose proof (_computeMetrics_throws_iff lm0 (handedness_at r i)
                  (Map_get (handId (handedness_at r i) i) (previousHands s)))
      as Hm.
    destruct (_computeMetrics lm0 (handedness_at r i) _) as [hd|] eqn:Em.
    + pose proof (_pushTrail_throws_iff (handedness_at r i) (indexTip hd)
                    (paths s)) as Hp.
      destruct (_pushTrail (handedness_at r i) (indexTip hd) (paths s))
        as [ps'|] eqn:Ep.
      * rewrite IH. split.
        -- intros (k & lm & E & Ht). exists (S k), lm.
           split; [exact E |]. rewrite Nat.add_succ_r. exact Ht.
        -- intros (k & lm & E & Ht). destruct k as [|k].
           ++ cbn [nth_error] in E. injection E as <-.
              rewrite Nat.add_0_r in Ht. destruct Ht as [Ht|Ht].
              ** apply Hm in Ht. discriminate.
              ** apply Hp in Ht. discriminate.
           ++ exists k, lm. split; [exact E |].
              rewrite Nat.add_succ_r in Ht. exact Ht.
      * split; [intros _ | reflexivity].
        exists 0%nat, lm0. split; [reflexivity |].
        rewrite Nat.add_0_r. right. apply Hp. reflexivity.
    + split; [intros _ | reflexivity].
      exists 0%nat, lm0. split; [reflexivity |].
      rewrite Nat.add_0_r. left. apply Hm. reflexivity.
Qed.

(** X23.  [update] throws exactly when the result holds a hand with fewer
    than nine landmarks or with a handedness that names a property
    inherited from [Object.prototype]; a missing or empty result never
    throws. *)
Theorem hand_update_throws_iff (result : option Result) (s : State) :
  update result s = None
  <-> exists r lms index lm,
        hands_of result = Some (r, lms)
        /\ nth_error lms index = Some lm
        /\ throwing_hand r index lm.
Proof.
  unfold update. destruct (hands_of result) as [[r lms]|] eqn:Eh.
  - pose proof (each_hand_throws_iff r lms 0 [] s) as Hit.
    destruct (each_hand r lms 0 [] s) as [[hs s1]|] eqn:Ee.
    + rewrite _fadeTrails_spec. split; [discriminate |].
      intros (r' & lms' & k & lm & E & En & Ht).
      injection E as <- <-.
      enough (Some (hs, s1) = None) by discriminate.
      apply Hit. exists k, lm. split; [exact En | exact Ht].
    + split; [intros _ | reflexivity].
      destruct (proj1 Hit eq_refl) as (k & lm & En & Ht).
      exists r, lms, k, lm. repeat split; assumption.
  - rewrite _fadeTrails_spec. split; [discriminate |].
    intros (r' & lms' & k & lm & E & _). discriminate.
Qed.


Lemma each_hand_hands (r : Result) (lms : list (list Landmark.t)) :
  forall (i : nat) (hs hs' : list Hand) (s s' : State),
  each_hand r lms i hs s = Some (hs', s') ->
  Forall hand_in_range hs ->
  Forall hand_in_range hs' /\ length hs' = (length hs + length lms)%nat.
Proof.
  induction lms as [|lm0 lms IH]; intros i hs hs' s s' E Hhs.
  - cbn [each_hand] in E. injection E as <- <-.
    split; [exact Hhs | cbn [length]; lia].
  - cbn [each_hand] in E.
    destruct (_computeMetrics lm0 (handedness_at r i) _) as [hd|] eqn:Em;
      [| discriminate].
    destruct (_pushTrail (handedness_at r i) (indexTip hd) (paths s))
      as [ps'|]; [| discriminate].
    apply IH in E.
    + destruct E as (H1 & H2). split; [exact H1 |].
      rewrite H2, length_app. cbn [length]. lia.
    + apply Forall_app. split; [exact Hhs |].
      constructor; [| constructor].
      apply (_computeMetrics_in_range _ _ _ _ Em).
Qed.

Lemma _buildSummary_fields (hs : list Hand) :
  handCount (_buildSummary hs) = length hs
  /\ 0 <= distance (_buildSummary hs)
  /\ - PI < angle (_buildSummary hs) <= PI.
Proof.
  unfold _buildSummary.
  pose proof PI_RGT_0 as Hpi.
  destruct (find _ hs) as [l|]; [destruct (find _ hs) as [r|] |];
    cbn [handCount distance angle];
    (split; [reflexivity |]); (split; [| try lra]); try lra.
  - apply distance2D_nonneg.
  - apply Math_atan2_range.
Qed.

(** X24.  Whatever [update] returns, every reported hand has [pinch],
    [spread] and [extension] between 0 and 1 and a speed that is not
    negative; there is one hand per landmark list of the result, and the
    summary counts them. *)
Theorem hand_metrics_in_range (result : option Result) (s s' : State)
  (o : Output) :
  update result s = Some (o, s') ->
  Forall hand_in_range (hands o)
  /\ handCount (summary o) = length (hands o)
  /\ length (hands o)
     = match hands_of result with
       | Some (_, lms) => length lms
       | None => 0%nat
       end
  /\ 0 <= distance (summary o).
Proof.
  unfold update. destruct (hands_of result) as [[r lms]|].
  - destruct (each_hand r lms 0 [] s) as [[hs s1]|] eqn:Ee; [| discriminate].
    rewrite _fadeTrails_spec. intros E. injection E as <- <-.
    cbn [hands summary].
    destruct (each_hand_hands _ _ _ _ _ _ _ Ee (Forall_nil _)) as (H1 & H2).
    destruct (_buildSummary_fields hs) as (H3 & H4 & _).
    split; [exact H1 |]. split; [exact H3 |]. split; [exact H2 | exact H4].
  - rewrite _fadeTrails_spec. intros E. injection E as <- <-.
    cbn [hands summary]. split; [constructor |].
    split; [reflexivity |]. split; [reflexivity |]. cbn. lra.
Qed.

(** ** Trails *)

Lemma trail_ok_weaken (b b' : R) (trail : list TrailPoint) :
  b <= b' -> trail_ok b trail -> trail_ok b' trail.
Proof.
  intros Hb [Hl Hf]. split; [exact Hl |].
  eapply Forall_impl; [| exact Hf]. cbv beta. intros p Hp. lra.
Qed.

Lemma faded_length (trail : list TrailPoint) :
  (length (faded trail) <= length trail)%nat.
Proof.
  unfold faded.
  eapply Nat.le_trans; [apply filter_length_le |].
  rewrite length_map. apply Nat.le_refl.
Qed.

Lemma faded_lives (b : R) (trail : list TrailPoint) :
  Forall (fun p => life p <= b) trail ->
  Forall (fun p => 0 < life p <= b - 0.03) (faded trail).
Proof.
  intros Hf. unfold faded. apply Forall_forall. intros p Hin.
  apply filter_In in Hin as [Hin Hpos]. apply Rgtb_true in Hpos.
  apply in_map_iff in Hin as (q & <- & Hq).
  rewrite Forall_forall in Hf. specialize (Hf q Hq).
  cbn [life] in *. lra.
Qed.

Lemma faded_ok (trail : list TrailPoint) :
  trail_ok 1 trail -> trail_ok 0.97 (faded trail).
Proof.
  intros [Hl Hf]. split.
  - eapply Nat.le_trans; [apply faded_length | exact Hl].
  - eapply Forall_impl; [| apply (faded_lives 1)].
    + cbv beta. intros p Hp. lra.
    + eapply Forall_impl; [| exact Hf]. cbv beta. intros p Hp. lra.
Qed.

Lemma _pushTrail_ok (h : String.string) (p : Point.t) (ps ps' : Paths) :
  trails_ok 1 ps -> _pushTrail h p ps = Some ps' -> trails_ok 1 ps'.
Proof.
  intros Hok. unfold _pushTrail.
  destruct (existsb _ _); [discriminate |].
  intros E. injection E as <-.
  apply (Map_set_Forall _ (trail_ok 1)); [exact Hok |].
  set (l := match Map_get h ps with Some l => l | None => [] end).
  assert (trail_ok 1 l) as [Hl Hf].
  { unfold l. destruct (Map_get h ps) as [l0|] eqn:Eg.
    - apply Map_get_In in Eg as (k' & Hin).
      unfold trails_ok in Hok. rewrite Forall_forall in Hok.
      apply (Hok (k', l0) Hin).
    - split; [cbn; lia | constructor]. }
  assert (Forall (fun q => 0 < life q <= 1)
            (l ++ [mkTrailPoint (Point.x p) (Point.y p) 1])) as Hf1.
  { apply Forall_app. split; [exact Hf |].
    constructor; [cbn [life]; lra | constructor]. }
  destruct (CONFIG.fingerTrailLength
            <? length (l ++ [mkTrailPoint (Point.x p) (Point.y p) 1]))%nat
    eqn:B.
  - split.
    + rewrite length_app in *. cbn [length] in *.
      destruct (l ++ [mkTrailPoint (Point.x p) (Point.y p) 1]) eqn:El.
      * cbn; lia.
      * cbn [tl]. apply (f_equal (@length _)) in El.
        rewrite length_app in El. cbn [length] in El. lia.
    + destruct (l ++ [mkTrailPoint (Point.x p) (Point.y p) 1]);
        [constructor |].
      cbn [tl]. inversion Hf1; assumption.
  - apply Nat.ltb_ge in B. split; [exact B | exact Hf1].
Qed.

Lemma each_hand_trails (r : Result) (lms : list (list Landmark.t)) :
  forall (i : nat) (hs hs' : list Hand) (s s' : State),
  each_hand r lms i hs s = Some (hs', s') ->
  trails_ok 1 (paths s) -> trails_ok 1 (paths s').
Proof.
  induction lms as [|lm0 lms IH]; intros i hs hs' s s' E Hok.
  - cbn [each_hand] in E. injection E as <- <-. exact Hok.
  - cbn [each_hand] in E.
    destruct (_computeMetrics lm0 (handedness_at r i) _) as [hd|];
      [| discriminate].
    destruct (_pushTrail (handedness_at r i) (indexTip hd) (paths s))
      as [ps'|] eqn:Ep; [| discriminate].
    apply IH in E; [exact E |]. cbn [paths].
    apply (_pushTrail_ok _ _ _ _ Hok Ep).
Qed.

Lemma faded_paths_ok (ps : Paths) :
  trails_ok 1 ps ->
  trails_ok 0.97 (map (fun kv => (fst kv, faded (snd kv))) ps).
Proof.
  intros Hok. unfold trails_ok in *. apply Forall_map.
  eapply Forall_impl; [| exact Hok]. cbv beta. intros kv Hkv.
  cbn [snd]. apply faded_ok. exact Hkv.
Qed.

Lemma update_trails (result : option Result) (s s' : State) (o : Output) :
  trails_ok 1 (paths s) -> update result s = Some (o, s') ->
  trails_ok 0.97 (paths s') /\ out_paths o = paths s'.
Proof.
  intros Hok. unfold update. destruct (hands_of result) as [[r lms]|].
  - destruct (each_hand r lms 0 [] s) as [[hs s1]|] eqn:Ee; [| discriminate].
    rewrite _fadeTrails_spec. intros E. injection E as <- <-.
    cbn [paths out_paths]. split; [| reflexivity].
    apply faded_paths_ok. apply (each_hand_trails _ _ _ _ _ _ _ Ee Hok).
  - rewrite _fadeTrails_spec. intros E. injection E as <- <-.
    cbn [paths out_paths]. split; [| reflexivity].
    apply faded_paths_ok. exact Hok.
Qed.

Lemma run_trails (results : list (option Result)) :
  forall (s s' : State) (os : list Output),
  trails_ok 1 (paths s) -> run results s = Some (os, s') ->
  Forall (fun o => trails_ok 0.97 (out_paths o)) os
  /\ trails_ok 1 (paths s').
Proof.
  induction results as [|r rest IH]; intros s s' os Hok E.
  - cbn [run] in E. injection E as <- <-. split; [constructor | exact Hok].
  - cbn [run] in E.
    destruct (update r s) as [[o s1]|] eqn:Eu; [| discriminate].
    destruct (run rest s1) as [[os' s2]|] eqn:Er; [| discriminate].
    injection E as <- <-.
    destruct (update_trails _ _ _ _ Hok Eu) as (Hok1 & Hout).
    assert (trails_ok 1 (paths s1)) as Hok1'.
    { unfold trails_ok in *. eapply Forall_impl; [| exact Hok1].
      cbv beta. intros kv. apply trail_ok_weaken. lra. }
    destruct (IH _ _ _ Hok1' Er) as (Hos & Hs2).
    split; [| exact Hs2].
    constructor; [rewrite Hout; exact Hok1 | exact Hos].
Qed.

(** X25.  On every call of a run from the constructed tracker, each trail
    handed out holds at most [fingerTrailLength] points, and every point
    has a life above 0 and at most 0.97. *)
Theorem trails_stay_bounded (results : list (option Result)) (s' : State)
  (os : list Output) :
  run results constructor = Some (os, s') ->
  Forall (fun o => trails_ok 0.97 (out_paths o)) os.
Proof.
  intros E. apply (run_trails results constructor s' os); [| exact E].
  unfold trails_ok, constructor. cbn [paths].
  repeat constructor; cbn; lia.
Qed.

(** Calls without hands only fade: after [n] of them every life is [n]
    steps lower, and positive once a call was made. *)
Lemma run_handless (results : list (option Result)) :
  forall (b : R) (s : State),
  Forall (fun r => hands_of r = None) results ->
  lives_at_most b (paths s) ->
  exists os s',
    run results s = Some (os, s')
    /\ lives_at_most (b - 0.03 * INR (length results)) (paths s')
    /\ (results <> [] ->
        previousHands s' = []
        /\ Forall (fun kv => Forall (fun p => 0 < life p) (snd kv))
             (paths s')).
Proof.
  induction results as [|r rest IH]; intros b s Hres Hb.
  - exists [], s. split; [reflexivity |]. split; [| congruence].
    cbn [length INR]. replace (b - 0.03 * 0) with b by lra. exact Hb.
  - inversion Hres as [|? ? Hr Hrest]; subst.
    cbn [run]. unfold update. rewrite Hr, _fadeTrails_spec.
    set (s1 := {| previousHands := [];
                  paths := map (fun kv => (fst kv, faded (snd kv)))
                             (paths s) |}).
    assert (Forall (fun kv => Forall (fun p => 0 < life p <= b - 0.03)
                                (snd kv)) (paths s1)) as H1.
    { unfold s1; cbn [paths]. apply Forall_map.
      unfold lives_at_most in Hb.
      eapply Forall_impl; [| exact Hb]. cbv beta. intros kv Hkv. cbn [snd].
      apply faded_lives. exact Hkv. }
    assert (lives_at_most (b - 0.03) (paths s1)) as Hb1.
    { unfold lives_at_most. eapply Forall_impl; [| exact H1].
      cbv beta. intros kv Hkv. eapply Forall_impl; [| exact Hkv].
      cbv beta. intros p Hp. lra. }
    destruct (IH (b - 0.03) s1 Hrest Hb1) as (os & s' & Er & Hb' & Hne).
    rewrite Er. eexists _, s'. split; [reflexivity |].
    split.
    + rewrite length_cons, S_INR.
      replace (b - 0.03 * (INR (length rest) + 1))
        with (b - 0.03 - 0.03 * INR (length rest)) by lra.
      exact Hb'.
    + intros _. destruct rest as [|r' rest'].
      * cbn [run] in Er. injection Er as <- <-.
        split; [reflexivity |].
        eapply Forall_impl; [| exact H1]. cbv beta. intros kv Hkv.
        eapply Forall_impl; [| exact Hkv]. cbv beta. intros p Hp. lra.
      * apply Hne. discriminate.
Qed.

(** X26.  When the hands leave, the trails vanish within 34 calls: after
    34 or more calls in a row without hands, from any state whose lives
    are at most 1, every trail is empty and no previous hand is kept.
    None of these calls throws. *)
Theorem trails_vanish_without_hands (results : list (option Result))
  (s : State) :
  Forall (fun r => hands_of r = None) results ->
  (34 <= length results)%nat ->
  lives_at_most 1 (paths s) ->
  exists os s',
    run results s = Some (os, s')
    /\ Forall (fun kv => snd kv = []) (paths s')
    /\ previousHands s' = [].
Proof.
  intros Hres Hlen Hb.
  destruct (run_handless results 1 s Hres Hb) as (os & s' & Er & Hb' & Hne).
  assert (results <> []) as Hnil by (intros ->; cbn in Hlen; lia).
  destruct (Hne Hnil) as (Hprev & Hpos).
  exists os, s'. split; [exact Er |]. split; [| exact Hprev].
  assert (34 <= INR (length results)) as Hn.
  { replace 34 with (INR 34) by (simpl; lra). apply le_INR. exact Hlen. }
  unfold lives_at_most in Hb'. rewrite Forall_forall in *.
  intros kv Hin. specialize (Hb' kv Hin). specialize (Hpos kv Hin).
  destruct (snd kv) as [|p t]; [reflexivity |]. exfalso.
  inversion Hb' as [|? ? Hp1 _]; inversion Hpos as [|? ? Hp2 _]; subst.
  lra.
Qed.

(** ** The keys of [previousHands] *)

Section HandIds.

Import Stdlib.Strings.String.

Lemma digits_no_dash (u : Decimal.uint) :
  forall a b : string,
  DecimalString.NilEmpty.string_of_uint u <> append a (append "-" b).
Proof.
  induction u; intros a b E; destruct a as [|c a]; cbn in E;
    try discriminate; injection E as _ E; apply (IHu _ _ E).
Qed.

Lemma append_dash_inj (a : string) :
  forall a' d d' : string,
  (forall x y, d <> append x (append "-" y)) ->
  (forall x y, d' <> append x (append "-" y)) ->
  append a (append "-" d) = append a' (append "-" d') -> d = d'.
Proof.
  induction a as [|c a IH]; intros [|c' a'] d d' Hd Hd' E; cbn in E.
  - injection E as E. exact E.
  - injection E as _ E. exfalso. apply (Hd a' d'). exact E.
  - injection E as _ E. exfalso. apply (Hd' a d). symmetry; exact E.
  - injection E as _ E. apply (IH a' d d' Hd Hd' E).
Qed.

Lemma handId_index_inj (h h' : string) (i j : nat) :
  handId h i = handId h' j -> i = j.
Proof.
  unfold handId. intros E.
  apply append_dash_inj in E; try apply digits_no_dash.
  apply (f_equal DecimalString.NilEmpty.uint_of_string) in E.
  rewrite !DecimalString.NilEmpty.usu in E. injection E as E.
  apply (f_equal Nat.of_uint) in E.
  rewrite !DecimalNat.Unsigned.of_to in E. exact E.
Qed.

End HandIds.

Lemma Map_get_None (A : Type) (k : String.string)
  (m : list (String.string * A)) :
  (forall kv, In kv m -> fst kv <> k) -> Map_get k m = None.
Proof.
  induction m as [|[k' v'] m IH]; intros H; [reflexivity |].
  cbn [Map_get]. destruct (String.eqb k k') eqn:B.
  - apply String.eqb_eq in B. exfalso.
    apply (H (k', v')); [left; reflexivity | cbn; congruence].
  - apply IH. intros kv Hin. apply H. right; exact Hin.
Qed.

Lemma Map_set_In (A : Type) (k : String.string) (v : A)
  (m : list (String.string * A)) (kv : String.string * A) :
  In kv (Map_set k v m) -> kv = (k, v) \/ In kv m.
Proof.
  induction m as [|[k' v'] m IH]; cbn [Map_set].
  - intros [<- | []]. left; reflexivity.
  - destruct (String.eqb k k').
    + intros [<- | Hin]; [left; reflexivity | right; right; exact Hin].
    + intros [<- | Hin]; [right; left; reflexivity |].
      destruct (IH Hin) as [-> | Hin']; [left; reflexivity |].
      right; right; exact Hin'.
Qed.

Lemma Math_hypot2_origin : Math_hypot2 0 0 = 0.
Proof.
  unfold Math_hypot2. replace (0 * 0 + 0 * 0) with 0 by lra. apply sqrt_0.
Qed.

(** With only hands of lower index recorded, hand [i] and the hands after
    it find no previous entry. *)
Lemma each_hand_at_rest (r : Result) (lms : list (list Landmark.t)) :
  forall (i : nat) (hs hs' : list Hand) (s s' : State),
  (forall kv, In kv (previousHands s) ->
              exists h j, fst kv = handId h j /\ (j < i)%nat) ->
  Forall at_rest hs ->
  each_hand r lms i hs s = Some (hs', s') ->
  Forall at_rest hs'.
Proof.
  induction lms as [|lm0 lms IH]; intros i hs hs' s s' Hkeys Hhs E.
  - cbn [each_hand] in E. injection E as <- <-. exact Hhs.
  - cbn [each_hand] in E.
    assert (Map_get (handId (handedness_at r i) i) (previousHands s) = None)
      as Hget.
    { apply Map_get_None. intros kv Hin Heq.
      destruct (Hkeys kv Hin) as (h & j & Hk & Hj).
      rewrite Hk in Heq. apply handId_index_inj in Heq. lia. }
    rewrite Hget in E.
    destruct (_computeMetrics lm0 (handedness_at r i) None) as [hd|] eqn:Em;
      [| discriminate].
    destruct (_pushTrail (handedness_at r i) (indexTip hd) (paths s))
      as [ps'|]; [| discriminate].
    apply IH in E; [exact E | |].
    + cbn [previousHands]. intros kv Hin.
      apply Map_set_In in Hin as [-> | Hin].
      * exists (handedness_at r i), i. split; [reflexivity | lia].
      * destruct (Hkeys kv Hin) as (h & j & Hk & Hj).
        exists h, j. split; [exact Hk | lia].
    + apply Forall_app. split; [exact Hhs |].
      constructor; [| constructor].
      destruct (_computeMetrics_fields _ _ _ _ Em)
        as (t & ix & w & _ & _ & _ & _ & _ & _ & _ & _ & _ & _ & _ & _ & Hv
            & Hsp & _).
      unfold at_rest. rewrite Hsp, Hv. cbn [Point.x Point.y].
      split; [reflexivity | apply Math_hypot2_origin].
Qed.

Lemma update_at_rest (result : option Result) (s s' : State) (o : Output) :
  previousHands s = [] -> update result s = Some (o, s') ->
  Forall at_rest (hands o).
Proof.
  intros Hprev. unfold update. destruct (hands_of result) as [[r lms]|].
  - destruct (each_hand r lms 0 [] s) as [[hs s1]|] eqn:Ee; [| discriminate].
    rewrite _fadeTrails_spec. intros E. injection E as <- <-.
    cbn [hands].
    apply (each_hand_at_rest r lms 0 [] hs s s1); [| constructor | exact Ee].
    rewrite Hprev. intros kv [].
  - rewrite _fadeTrails_spec. intros E. injection E as <- <-. constructor.
Qed.

Lemma update_handless (r0 : option Result) (s s0 : State) (o0 : Output) :
  hands_of r0 = None -> update r0 s = Some (o0, s0) ->
  previousHands s0 = [] /\ hands o0 = [].
Proof.
  intros H0. unfold update. rewrite H0, _fadeTrails_spec.
  intros E. injection E as <- <-. split; reflexivity.
Qed.

(** X27.  Velocities restart after a call without hands: on the call
    that follows one with a missing or empty result, every hand is
    reported with velocity (0, 0) and speed 0, wherever it is. *)
Theorem velocity_restarts (r0 result : option Result) (s s0 s' : State)
  (o0 o : Output) :
  hands_of r0 = None ->
  update r0 s = Some (o0, s0) ->
  update result s0 = Some (o, s') ->
  Forall at_rest (hands o).
Proof.
  intros H0 E0 E.
  destruct (update_handless _ _ _ _ H0 E0) as (Hprev & _).
  apply (update_at_rest _ _ _ _ Hprev E).
Qed.

(** ** computeGestureSummary *)

Lemma update_summary (result : option Result) (s s' : State) (o : Output) :
  update result s = Some (o, s') -> summary o = _buildSummary (hands o).
Proof.
  unfold update. destruct (hands_of result) as [[r lms]|].
  - destruct (each_hand r lms 0 [] s) as [[hs s1]|]; [| discriminate].
    rewrite _fadeTrails_spec. intros E. injection E as <- <-. reflexivity.
  - rewrite _fadeTrails_spec. intros E. injection E as <- <-. reflexivity.
Qed.

(** X28.  What [computeGestureSummary] makes of the hands [update]
    returned: the zoom lies between 0 and 1, is positive exactly when the
    palms are more than 0.1 apart, and is 0 unless both a left and a
    right hand were found; with no hand at all the pan is 0 too. *)
Theorem zoom_needs_both_hands (result : option Result) (s s' : State)
  (o : Output) (face : FaceExpressionTracker.Output) :
  update result s = Some (o, s') ->
  let g := computeGestureSummary o face in
  0 <= zoom g <= 1
  /\ (0 < zoom g <-> 0.1 < distance (summary o))
  /\ (left (summary o) = None \/ right (summary o) = None -> zoom g = 0)
  /\ (hands o = [] -> panX g = 0 /\ panY g = 0).
Proof.
  intros E. cbv zeta. pose proof (update_summary _ _ _ _ E) as Hs.
  unfold computeGestureSummary. cbn [zoom panX panY].
  split; [apply clamp_range; lra |].
  split.
  { rewrite (clamp01_gt ((distance (summary o) - 0.1) * 2) 0) by lra.
    split; lra. }
  assert (left (summary o) = None \/ right (summary o) = None ->
          distance (summary o) = 0) as Hd.
  { rewrite Hs. unfold _buildSummary.
    destruct (find _ (hands o)) as [l|];
      [destruct (find _ (hands o)) as [r|] |]; cbn [left right distance];
      intros [H|H]; try discriminate; reflexivity. }
  split.
  - intros H. rewrite (Hd H).
    unfold clamp, Rmax, Rmin.
    destruct (Rle_dec 1 _); destruct (Rle_dec 0 _); lra.
  - intros Hnil. rewrite Hs, Hnil. cbn. split; lra.
Qed.

End Hands.

(** *** Hands used as examples *)

Section HandExamples.

Import HandGestureTracker.

Lemma open_hand_points :
  point_at open_hand 4 = Some (Point.mk 0.2 0.3)
  /\ point_at open_hand 8 = Some (Point.mk 0.5 0.3)
  /\ point_at open_hand 20 = Some (Point.mk 0.7 0.3)
  /\ point_at open_hand 6 = Some (Point.mk 0.5 0.5)
  /\ point_at open_hand 12 = Some (Point.mk 0.55 0.3)
  /\ point_at open_hand 10 = Some (Point.mk 0.55 0.5)
  /\ point_at open_hand 16 = Some (Point.mk 0.6 0.3)
  /\ point_at open_hand 14 = Some (Point.mk 0.6 0.5)
  /\ point_at open_hand 18 = Some (Point.mk 0.7 0.5).
Proof. repeat split; reflexivity. Qed.

Lemma distance2D_below (x0 y1 y2 : R) :
  y1 <= y2 ->
  distance2D (Some (Point.mk x0 y1)) (Some (Point.mk x0 y2)) = y2 - y1.
Proof.
  intros H. unfold distance2D, Math_hypot2; cbn.
  replace ((x0 - x0) * (x0 - x0) + (y1 - y2) * (y1 - y2))
    with ((y2 - y1) * (y2 - y1)) by ring.
  apply sqrt_square; lra.
Qed.

Lemma open_hand_distances :
  distance2D (point_at open_hand 4) (point_at open_hand 8) = 0.5 - 0.2
  /\ distance2D (point_at open_hand 8) (point_at open_hand 20) = 0.7 - 0.5
  /\ extension_sum open_hand
     = (0.5 - 0.3) + (0.5 - 0.3) + (0.5 - 0.3) + (0.5 - 0.3).
Proof.
  unfold extension_sum.
  destruct open_hand_points
    as (-> & -> & -> & -> & -> & -> & -> & -> & ->).
  rewrite !distance2D_horizontal by lra.
  rewrite !distance2D_below by lra.
  repeat split; reflexivity.
Qed.

(** The handedness of a hand without a handedness entry. *)
Lemma handedness_unknown (hs : list (list Landmark.t)) (index : nat) :
  ~ In (handedness_at
          {| landmarks := Some hs; res_handedness := None |} index)
      Object_prototype_keys.
Proof.
  unfold handedness_at, Object_prototype_keys. cbn [res_handedness In].
  intros H. repeat (destruct H as [H|H]; [discriminate |]). exact H.
Qed.

(** Hands of 21 landmarks without handedness entries never make [update]
    throw. *)
Lemma update_open_hands (n : nat) (s : State) :
  exists o s', update (hand_result (repeat open_hand (S n))) s = Some (o, s').
Proof.
  unfold update, hand_result, hands_of. cbn [landmarks repeat].
  set (r := {| landmarks := Some (open_hand :: repeat open_hand n);
               res_handedness := None |}).
  destruct (each_hand r (open_hand :: repeat open_hand n) 0 [] s)
    as [[hs s1]|] eqn:E.
  - rewrite _fadeTrails_spec. eexists. eexists. reflexivity.
  - exfalso. apply each_hand_throws_iff in E as (k & lm & En & Ht).
    destruct Ht as [Hlen | Hin].
    + apply nth_error_In in En.
      assert (lm = open_hand) as ->.
      { destruct En as [<- | En]; [reflexivity |].
        apply (repeat_spec _ _ _ En). }
      unfold open_hand in Hlen. rewrite length_map, length_seq in Hlen. lia.
    + apply (handedness_unknown _ _ Hin).
Qed.

Lemma update_no_result (s : State) :
  update None s
  = Some ({| hands := [];
             out_paths := map (fun kv => (fst kv, faded (snd kv))) (paths s);
             summary := _buildSummary [] |},
          {| previousHands := [];
             paths := map (fun kv => (fst kv, faded (snd kv))) (paths s) |}).
Proof. unfold update. cbn [hands_of]. rewrite _fadeTrails_spec. reflexivity. Qed.

Lemma gesture_open_rule_witness :
  let h := handedness_at {| landmarks := None; res_handedness := None |} 0 in
  exists hd,
    _computeMetrics open_hand h None = Some hd
    /\ gesture hd = gesture_open.
Proof.
  intros h.
  assert (exists hd, _computeMetrics open_hand h None = Some hd)
    as (hd & Em) by (eexists; reflexivity).
  exists hd. split; [exact Em |].
  apply (gesture_open_rule open_hand h None hd Em).
  destruct open_hand_distances as (-> & -> & ->). lra.
Defined.

Lemma hand_metrics_in_range_witness :
  exists o s',
    update (hand_result [open_hand; open_hand]) constructor = Some (o, s')
    /\ Forall hand_in_range (hands o)
    /\ handCount (summary o) = 2%nat.
Proof.
  destruct (update_open_hands 1 constructor) as (o & s' & E).
  exists o, s'. split; [exact E |].
  destruct (hand_metrics_in_range _ _ _ _ E) as (H1 & H2 & H3 & _).
  split; [exact H1 |]. rewrite H2, H3. reflexivity.
Defined.

Lemma trails_stay_bounded_witness :
  exists os s',
    run [hand_result [open_hand]; None] constructor = Some (os, s')
    /\ Forall (fun o => trails_ok 0.97 (out_paths o)) os.
Proof.
  destruct (update_open_hands 0 constructor) as (o & s1 & E).
  assert (exists os s',
             run [hand_result [open_hand]; None] constructor = Some (os, s'))
    as (os & s' & Er).
  { cbn [run]. change (repeat open_hand 1) with [open_hand] in E.
    rewrite E, update_no_result. eexists. eexists. reflexivity. }
  exists os, s'. split; [exact Er |].
  apply (trails_stay_bounded _ _ _ Er).
Defined.

Lemma trails_vanish_without_hands_witness :
  Forall (fun r => hands_of r = None) (repeat None 34)
  /\ (34 <= length (repeat (@None Result) 34))%nat
  /\ lives_at_most 1 (paths one_point_state)
  /\ exists os s',
       run (repeat None 34) one_point_state = Some (os, s')
       /\ Forall (fun kv => snd kv = []) (paths s').
Proof.
  assert (Forall (fun r => hands_of r = None) (repeat None 34)) as W1.
  { apply Forall_forall. intros r Hin. apply repeat_spec in Hin.
    subst r. reflexivity. }
  assert (34 <= length (repeat (@None Result) 34))%nat as W2
    by (rewrite repeat_length; lia).
  assert (lives_at_most 1 (paths one_point_state)) as W3.
  { unfold lives_at_most, one_point_state, constructor. cbn [paths map snd].
    repeat constructor; cbn [life]; lra. }
  split; [exact W1 |]. split; [exact W2 |]. split; [exact W3 |].
  destruct (trails_vanish_without_hands _ _ W1 W2 W3)
    as (os & s' & Er & He & _).
  exists os, s'. split; [exact Er | exact He].
Defined.

(** Hands of at least nine landmarks without handedness entries never
    make [update] throw, and each is reported. *)
Lemma update_full_hands (lm : list Landmark.t) (lms : list (list Landmark.t))
  (s : State) :
  Forall (fun l => (9 <= length l)%nat) (lm :: lms) ->
  exists o s',
    update (hand_result (lm :: lms)) s = Some (o, s')
    /\ length (hands o) = S (length lms).
Proof.
  intros Hlen. unfold update, hand_result, hands_of. cbn [landmarks].
  set (r := {| landmarks := Some (lm :: lms); res_handedness := None |}).
  destruct (each_hand r (lm :: lms) 0 [] s) as [[hs s1]|] eqn:E.
  - rewrite _fadeTrails_spec. eexists. eexists.
    split; [reflexivity |]. cbn [hands].
    apply (each_hand_hands _ _ _ _ _ _ _ E (Forall_nil _)).
  - exfalso. apply each_hand_throws_iff in E as (k & l & En & Ht).
    destruct Ht as [Hl | Hin].
    + apply nth_error_In in En. rewrite Forall_forall in Hlen.
      specialize (Hlen l En). lia.
    + apply (handedness_unknown _ _ Hin).
Qed.

(** One hand without handedness entry: [update] reports the hand
    [_computeMetrics] returns for it and records it under its key. *)
Lemma update_single_hand (lm : list Landmark.t) (s : State) (hd : Hand) :
  let r := {| landmarks := Some [lm]; res_handedness := None |} in
  let id := handId (handedness_at r 0) 0 in
  _computeMetrics lm (handedness_at r 0) (Map_get id (previousHands s))
  = Some hd ->
  exists o s',
    update (hand_result [lm]) s = Some (o, s')
    /\ hands o = [hd]
    /\ previousHands s' = Map_set id hd (previousHands s).
Proof.
  intros r id Hm. unfold update, hand_result, hands_of. cbn [landmarks].
  fold r. cbn [each_hand]. fold id. rewrite Hm.
  destruct (_pushTrail (handedness_at r 0) (indexTip hd) (paths s))
    as [ps'|] eqn:Ep.
  - cbn [paths previousHands app]. rewrite _fadeTrails_spec.
    eexists. eexists. split; [reflexivity |]. split; reflexivity.
  - exfalso. apply _pushTrail_throws_iff in Ep.
    apply (handedness_unknown [lm] 0 Ep).
Qed.

Lemma velocity_restarts_witness :
  exists o1 s1 o0 s0 o s',
    update (hand_result [open_hand]) constructor = Some (o1, s1)
    /\ previousHands s1 <> []
    /\ (exists o2 s2 h,
          update (hand_result [shifted_hand]) s1 = Some (o2, s2)
          /\ hands o2 = [h] /\ speed h = 6)
    /\ hands_of None = None
    /\ update None s1 = Some (o0, s0)
    /\ update (hand_result [shifted_hand; shifted_hand]) s0 = Some (o, s')
    /\ length (hands o) = 2%nat
    /\ Forall at_rest (hands o).
Proof.
  set (r1 := {| landmarks := Some [open_hand]; res_handedness := None |}).
  set (r2 := {| landmarks := Some [shifted_hand]; res_handedness := None |}).
  set (h := handedness_at r1 0).
  set (id := handId h 0).
  (* the first call: one hand, recorded under its key *)
  assert (exists hd1, _computeMetrics open_hand h None = Some hd1)
    as (hd1 & Em1) by (eexists; reflexivity).
  destruct (update_single_hand open_hand constructor hd1 Em1)
    as (o1 & s1 & E1 & Ho1 & Hp1).
  fold r1 h id in Hp1. cbn [previousHands constructor Map_set] in Hp1.
  destruct (_computeMetrics_fields _ _ _ _ Em1)
    as (t1 & i1 & w1 & _ & Hi1 & _ & _ & _ & _ & _ & _ & Htip1 & _).
  assert (i1 = Landmark.mk 0.5 0.3 0) as ->
    by (cbv in Hi1; injection Hi1 as <-; reflexivity).
  (* without a call in between, the moved hand is reported moving *)
  assert (Map_get id (previousHands s1) = Some hd1) as Hget.
  { rewrite Hp1. cbn [Map_get]. rewrite String.eqb_refl. reflexivity. }
  assert (exists hd2, _computeMetrics shifted_hand h (Some hd1) = Some hd2)
    as (hd2 & Em2) by (eexists; reflexivity).
  assert (_computeMetrics shifted_hand (handedness_at r2 0)
            (Map_get (handId (handedness_at r2 0) 0) (previousHands s1))
          = Some hd2) as Em2'.
  { change (handedness_at r2 0) with h. fold id. rewrite Hget. exact Em2. }
  destruct (update_single_hand shifted_hand s1 hd2 Em2')
    as (o2 & s2 & E2 & Ho2 & _).
  destruct (_computeMetrics_fields _ _ _ _ Em2)
    as (t2 & i2 & w2 & _ & Hi2 & _ & _ & _ & _ & _ & _ & _ & _ & _ & _
        & Hv2 & Hsp2 & _).
  assert (i2 = Landmark.mk (0.5 + 0.1) 0.3 0) as ->
    by (cbv in Hi2; injection Hi2 as <-; reflexivity).
  assert (speed hd2 = 6) as Hspeed.
  { rewrite Hsp2, Hv2, Htip1.
    cbn [Point.x Point.y Landmark.x Landmark.y Landmark.xy].
    unfold Math_hypot2.
    replace ((0.5 + 0.1 - 0.5) * 60 * ((0.5 + 0.1 - 0.5) * 60)
             + (0.3 - 0.3) * 60 * ((0.3 - 0.3) * 60)) with (6 * 6) by lra.
    apply sqrt_square. lra. }
  (* the call without hands, then two moved hands *)
  pose proof (update_no_result s1) as E0.
  match type of E0 with _ = Some (?a, ?b) =>
    set (o0 := a) in *; set (s0 := b) in * end.
  destruct (update_full_hands shifted_hand [shifted_hand] s0) as
    (o & s' & E & Hlen).
  { repeat constructor; unfold shifted_hand, open_hand;
      rewrite !length_map, length_seq; lia. }
  exists o1, s1, o0, s0, o, s'.
  split; [exact E1 |].
  split; [rewrite Hp1; discriminate |].
  split; [exists o2, s2, hd2; repeat split; assumption |].
  split; [reflexivity |]. split; [exact E0 |]. split; [exact E |].
  split; [exact Hlen |].
  apply (velocity_restarts None _ s1 s0 s' o0 o eq_refl E0 E).
Defined.

Lemma zoom_needs_both_hands_witness :
  exists o s',
    update (hand_result [open_hand]) constructor = Some (o, s')
    /\ zoom (computeGestureSummary o
               (FaceExpressionTracker._empty
                  FaceExpressionTracker.constructor)) <= 1.
Proof.
  destruct (update_open_hands 0 constructor) as (o & s' & E).
  change (repeat open_hand 1) with [open_hand] in E.
  exists o, s'. split; [exact E |].
  apply (zoom_needs_both_hands _ _ _ _
           (FaceExpressionTracker._empty FaceExpressionTracker.constructor)
           E).
Defined.

End HandExamples.

(** * CoolMonoScene: the rings *)

Section Rings.

Import CoolMonoScene.

Lemma age_rings_ok (rs : list Ring) :
  Forall ring_ok rs -> Forall ring_ok (age_rings rs).
Proof.
  intros H. unfold age_rings. apply Forall_forall. intros r Hin.
  apply filter_In in Hin as [Hin Hpos]. apply Rgtb_true in Hpos.
  apply in_map_iff in Hin as (q & <- & Hq).
  rewrite Forall_forall in H. destruct (H q Hq) as (Hl & Ha & Hd).
  cbn [life alpha decay type] in *.
  assert (0 < decay q) as Hdq by (rewrite Hd; destruct (type q); lra).
  unfold ring_ok. cbn [life alpha decay type].
  split; [lra |]. split; [| exact Hd].
  right. rewrite Rmax_right by lra. split; lra.
Qed.

Lemma _spawnRing_ok (x0 y0 : R) (t : HandGestureTracker.Gesture)
  (i : R) (p : PaletteController.Theme) (s : State) :
  Forall ring_ok (rings s) ->
  Forall ring_ok (rings (_spawnRing x0 y0 t i p s)).
Proof.
  intros H. unfold _spawnRing. cbn [rings]. apply Forall_app.
  split; [exact H |]. constructor; [| constructor].
  unfold ring_ok. cbn [life alpha decay type].
  split; [lra |]. split; [left; split; reflexivity |].
  destruct t; reflexivity.
Qed.

Lemma ring_hand_ok (w h t i : R) (p : PaletteController.Theme)
  (acc : State * list String.string) (hand : HandGestureTracker.Hand) :
  Forall ring_ok (rings (fst acc)) ->
  Forall ring_ok (rings (fst (ring_hand w h t i p acc hand))).
Proof.
  intros H. unfold ring_hand. cbn [fst rings].
  destruct (HandGestureTracker.gesture hand);
    repeat match goal with
           | |- context [if ?b then _ else _] => destruct b
           end;
    cbn [rings]; try exact H; apply _spawnRing_ok; exact H.
Qed.

Lemma forget_hand_rings (active : list String.string) (s : State)
  (id : String.string) :
  rings (forget_hand active s id) = rings s.
Proof. unfold forget_hand. destruct (existsb _ _); reflexivity. Qed.

Lemma forget_fold_rings (active ids : list String.string) :
  forall s, rings (fold_left (forget_hand active) ids s) = rings s.
Proof.
  induction ids as [|id ids IH]; intros s; [reflexivity |].
  cbn [fold_left]. rewrite IH. apply forget_hand_rings.
Qed.

Lemma ring_fold_ok (w h t i : R) (p : PaletteController.Theme)
  (hs : list HandGestureTracker.Hand) :
  forall acc,
  Forall ring_ok (rings (fst acc)) ->
  Forall ring_ok (rings (fst (fold_left (ring_hand w h t i p) hs acc))).
Proof.
  induction hs as [|hand hs IH]; intros acc H; [exact H |].
  cbn [fold_left]. apply IH. apply ring_hand_ok. exact H.
Qed.

Lemma step_ok (s : State) (c : Call) :
  Forall ring_ok (rings s) -> Forall ring_ok (rings (step s c)).
Proof.
  intros H. unfold step, _updateRings. rewrite forget_fold_rings.
  apply ring_fold_ok. cbn [fst rings]. apply age_rings_ok. exact H.
Qed.

(** X29.  Over any run of [_updateRings] from the constructed scene,
    every ring kept is alive, with a life above 0 and at most 1; its
    alpha is 1 on the call that spawned it and afterwards the life it had
    one call earlier, so the clamp at 0 never applies and no ring is kept
    with alpha 0; open rings decay by 0.016 and closed ones by 0.02 per
    call. *)
Theorem rings_stay_alive (calls : list Call) :
  Forall ring_ok (rings (run calls constructor)).
Proof.
  unfold run.
  assert (forall s, Forall ring_ok (rings s) ->
                    Forall ring_ok (rings (fold_left step calls s))) as H.
  { induction calls as [|c calls IH]; intros s Hs; [exact Hs |].
    cbn [fold_left]. apply IH. apply step_ok. exact Hs. }
  apply H. constructor.
Qed.

(** ** The time between two rings of a hand *)

Lemma Map_get_set_same (A : Type) (k : String.string) (v : A)
  (m : list (String.string * A)) :
  HandGestureTracker.Map_get k (HandGestureTracker.Map_set k v m) = Some v.
Proof.
  induction m as [|[k' v'] m IH]; cbn [HandGestureTracker.Map_set
                                       HandGestureTracker.Map_get].
  - rewrite String.eqb_refl. reflexivity.
  - destruct (String.eqb k k') eqn:B;
      cbn [HandGestureTracker.Map_get].
    + rewrite String.eqb_refl. reflexivity.
    + rewrite B. exact IH.
Qed.

Lemma Map_get_set_other (A : Type) (k k' : String.string) (v : A)
  (m : list (String.string * A)) :
  k <> k' ->
  HandGestureTracker.Map_get k (HandGestureTracker.Map_set k' v m)
  = HandGestureTracker.Map_get k m.
Proof.
  intros Hne.
  assert (String.eqb k k' = false) as Hkk' by (apply String.eqb_neq; exact Hne).
  induction m as [|[k0 v0] m IH]; cbn [HandGestureTracker.Map_set
                                       HandGestureTracker.Map_get].
  - rewrite Hkk'. reflexivity.
  - destruct (String.eqb k' k0) eqn:B;
      cbn [HandGestureTracker.Map_get].
    + apply String.eqb_eq in B. subst k0. rewrite Hkk'. reflexivity.
    + destruct (String.eqb k k0); [reflexivity | exact IH].
Qed.

Lemma Map_get_delete_other (A : Type) (k k' : String.string)
  (m : list (String.string * A)) :
  k <> k' ->
  HandGestureTracker.Map_get k (Map_delete k' m)
  = HandGestureTracker.Map_get k m.
Proof.
  intros Hne. unfold Map_delete.
  induction m as [|[k0 v0] m IH]; [reflexivity |].
  cbn [filter fst HandGestureTracker.Map_get].
  destruct (String.eqb k' k0) eqn:B; cbn [negb].
  - apply String.eqb_eq in B. subst k0.
    assert (String.eqb k k' = false) as -> by (apply String.eqb_neq; exact Hne).
    exact IH.
  - cbn [HandGestureTracker.Map_get]. rewrite IH. reflexivity.
Qed.

Lemma Map_get_delete_same (A : Type) (k : String.string)
  (m : list (String.string * A)) :
  HandGestureTracker.Map_get k (Map_delete k m) = None.
Proof.
  unfold Map_delete. induction m as [|[k0 v0] m IH]; [reflexivity |].
  cbn [filter fst]. destruct (String.eqb k k0) eqn:B; cbn [negb].
  - exact IH.
  - cbn [HandGestureTracker.Map_get]. rewrite B. exact IH.
Qed.

(** What one hand does to the time recorded for [id]: nothing, or it
    records the clock reading, more than 180 ms after the time before. *)
Lemma ring_hand_emit (id : String.string) (w h t i : R)
  (p : PaletteController.Theme) (acc : State * list String.string)
  (hand : HandGestureTracker.Hand) (u : R) :
  last_emit id (fst acc) = Some u ->
  last_emit id (fst (ring_hand w h t i p acc hand)) = Some u
  \/ last_emit id (fst (ring_hand w h t i p acc hand)) = Some t
     /\ 180 < t - u.
Proof.
  intros Hu. unfold last_emit in *. unfold ring_hand.
  cbn [fst lastEmitTime].
  destruct (String.string_dec id (HandGestureTracker.handedness hand))
    as [<- | Hne].
  - rewrite Hu.
    destruct (HandGestureTracker.gesture hand).
    + destruct (Rgtb (t - u) 180) eqn:B; cbn [lastEmitTime _spawnRing].
      * apply Rgtb_true in B. right.
        rewrite Map_get_set_same. split; [reflexivity | lra].
      * left; exact Hu.
    + destruct (Rltb (HandGestureTracker.extension hand) 0.4); cbn [andb];
        [| left; exact Hu].
      destruct (Rgtb (t - u) 240) eqn:B; cbn [lastEmitTime _spawnRing].
      * apply Rgtb_true in B. right.
        rewrite Map_get_set_same. split; [reflexivity | lra].
      * left; exact Hu.
  - left.
    destruct (HandGestureTracker.gesture hand);
      repeat match goal with
             | |- context [if ?b then _ else _] => destruct b
             end;
      cbn [lastEmitTime _spawnRing];
      try rewrite (Map_get_set_other _ _ _ _ _ Hne); exact Hu.
Qed.

Lemma ring_fold_emit (id : String.string) (w h t i : R)
  (p : PaletteController.Theme) (hs : list HandGestureTracker.Hand) :
  forall (acc : State * list String.string) (u : R),
  last_emit id (fst acc) = Some u ->
  last_emit id (fst (fold_left (ring_hand w h t i p) hs acc)) = Some u
  \/ last_emit id (fst (fold_left (ring_hand w h t i p) hs acc)) = Some t
     /\ 180 < t - u.
Proof.
  induction hs as [|hand hs IH]; intros acc u Hu; [left; exact Hu |].
  cbn [fold_left].
  destruct (ring_hand_emit id w h t i p acc hand u Hu) as [H1 | [H1 H2]].
  - apply (IH _ u H1).
  - right. destruct (IH _ t H1) as [H3 | [H3 _]]; split; assumption.
Qed.

Lemma ring_hand_active (w h t i : R) (p : PaletteController.Theme)
  (acc : State * list String.string) (hand : HandGestureTracker.Hand) :
  snd (ring_hand w h t i p acc hand)
  = HandGestureTracker.handedness hand :: snd acc.
Proof. reflexivity. Qed.

Lemma ring_fold_active (id : String.string) (w h t i : R)
  (p : PaletteController.Theme) (hs : list HandGestureTracker.Hand) :
  forall acc : State * list String.string,
  In id (map HandGestureTracker.handedness hs) \/ In id (snd acc) ->
  In id (snd (fold_left (ring_hand w h t i p) hs acc)).
Proof.
  induction hs as [|hand hs IH]; intros acc H.
  - destruct H as [[] | H]; exact H.
  - cbn [fold_left]. apply IH. rewrite ring_hand_active.
    cbn [map In] in *. tauto.
Qed.

Lemma forget_hand_emit (id id' : String.string)
  (active : list String.string) (s : State) :
  last_emit id (forget_hand active s id') = last_emit id s
  \/ last_emit id (forget_hand active s id') = None /\ ~ In id active.
Proof.
  unfold forget_hand, last_emit.
  destruct (existsb (String.eqb id') active) eqn:B; [left; reflexivity |].
  cbn [lastEmitTime].
  destruct (String.string_dec id id') as [<- | Hne].
  - right. split; [apply Map_get_delete_same |].
    intros Hin.
    assert (existsb (String.eqb id) active = true) as B'.
    { apply existsb_exists. exists id.
      split; [exact Hin | apply String.eqb_refl]. }
    congruence.
  - left. apply Map_get_delete_other. exact Hne.
Qed.

Lemma forget_fold_emit (id : String.string) (active ids : list String.string) :
  forall s : State,
  last_emit id (fold_left (forget_hand active) ids s) = last_emit id s
  \/ last_emit id (fold_left (forget_hand active) ids s) = None
     /\ ~ In id active.
Proof.
  induction ids as [|id' ids IH]; intros s; [left; reflexivity |].
  cbn [fold_left].
  destruct (IH (forget_hand active s id')) as [H1 | H1]; [| right; exact H1].
  rewrite H1. apply forget_hand_emit.
Qed.

(** The time recorded for [id] over one call that starts with a recorded
    time [u]. *)
Lemma step_emit (id : String.string) (s : State) (c : Call) (u : R) :
  last_emit id s = Some u ->
  last_emit id (step s c) = Some u
  \/ last_emit id (step s c) = Some (now c) /\ 180 < now c - u
  \/ last_emit id (step s c) = None /\ ~ shows_hand id c.
Proof.
  intros Hu. unfold step, _updateRings.
  set (acc := fold_left _ (hands c) _).
  assert (last_emit id (fst acc) = Some u
          \/ last_emit id (fst acc) = Some (now c) /\ 180 < now c - u)
    as Hacc by (apply ring_fold_emit; exact Hu).
  destruct (forget_fold_emit id (snd acc) (map fst (prevGestures (fst acc)))
              (fst acc)) as [H1 | [H1 H2]].
  - rewrite H1. destruct Hacc as [H | H]; [left | right; left]; exact H.
  - right; right. split; [exact H1 |].
    intros Hs. apply H2. apply ring_fold_active. left. exact Hs.
Qed.

Lemma run_emit (id : String.string) (t1 t2 : R) (mid : list Call) :
  forall (s : State) (u : R),
  last_emit id s = Some u -> t1 <= u < t2 ->
  Forall (fun c => shows_hand id c /\ t1 <= now c < t2) mid ->
  exists u', last_emit id (run mid s) = Some u' /\ t1 <= u' < t2.
Proof.
  induction mid as [|c mid IH]; intros s u Hu Hr Hmid.
  - exists u. split; [exact Hu | exact Hr].
  - inversion Hmid as [|? ? [Hs Hc] Hrest]; subst.
    unfold run. cbn [fold_left]. fold (run mid (step s c)).
    destruct (step_emit id s c u Hu) as [H | [[H _] | [_ H]]].
    + apply (IH _ u H Hr Hrest).
    + apply (IH _ (now c) H Hc Hrest).
    + contradiction.
Qed.

(** X30.  While a hand stays in view, two rings recorded for it are more
    than 180 ms apart: if a call records its clock reading as the time of
    the last ring of a hand id, every call after it shows a hand with
    that id at a clock reading in between, and a later call records its
    own, later reading, then the two readings differ by more than
    180. *)
Theorem ring_emission_spacing (id : String.string) (s : State) (c1 : Call)
  (mid : list Call) (c2 : Call) :
  last_emit id (step s c1) = Some (now c1) ->
  now c1 < now c2 ->
  Forall (fun c => shows_hand id c /\ now c1 <= now c < now c2) mid ->
  last_emit id (step (run mid (step s c1)) c2) = Some (now c2) ->
  180 < now c2 - now c1.
Proof.
  intros H1 Hlt Hmid H2.
  destruct (run_emit id (now c1) (now c2) mid (step s c1) (now c1) H1
              ltac:(lra) Hmid) as (u & Hu & Hr).
  destruct (step_emit id _ c2 u Hu) as [H | [[_ H] | [H _]]].
  - rewrite H in H2. injection H2 as H2. lra.
  - lra.
  - rewrite H in H2. discriminate.
Qed.

Lemma ring_hand_open (id : String.string) (w h t i : R)
  (p : PaletteController.Theme) (acc : State * list String.string)
  (hand : HandGestureTracker.Hand) :
  HandGestureTracker.gesture hand = HandGestureTracker.gesture_open ->
  HandGestureTracker.handedness hand = id ->
  last_emit id (fst (ring_hand w h t i p acc hand))
  = if Rgtb (t - match last_emit id (fst acc) with
                 | Some u => u
                 | None => 0
                 end) 180
    then Some t else last_emit id (fst acc).
Proof.
  intros Hg Hh. unfold ring_hand, last_emit. rewrite Hg, Hh.
  cbn [fst lastEmitTime].
  destruct (Rgtb _ 180).
  - cbn [lastEmitTime _spawnRing]. apply Map_get_set_same.
  - reflexivity.
Qed.

(** A call that shows the open test hand: a ring is recorded when more
    than 180 ms passed since the time recorded before. *)
Lemma open_call_emit (p : PaletteController.Theme) (t : R) (s : State) :
  let id := HandGestureTracker.handedness unknown_open_hand in
  last_emit id (step s (open_hand_call p t))
  = if Rgtb (t - match last_emit id s with Some u => u | None => 0 end) 180
    then Some t else last_emit id s.
Proof.
  intros id. unfold step, _updateRings.
  cbn [open_hand_call width height hands intensity palette now fold_left].
  set (s0 := {| rings := age_rings (rings s);
                prevGestures := prevGestures s;
                lastEmitTime := lastEmitTime s |}).
  set (acc := ring_hand 1280 720 t 0.5 p (s0, []) unknown_open_hand).
  assert (In id (snd acc)) as Hact by (left; reflexivity).
  destruct (forget_fold_emit id (snd acc) (map fst (prevGestures (fst acc)))
              (fst acc)) as [H | [_ H]]; [| contradiction].
  rewrite H. unfold acc.
  rewrite (ring_hand_open id 1280 720 t 0.5 p (s0, []) unknown_open_hand
             eq_refl eq_refl).
  reflexivity.
Qed.

Lemma ring_emission_spacing_witness :
  let id := HandGestureTracker.handedness unknown_open_hand in
  let c1 := open_hand_call start_theme 1000 in
  let c2 := open_hand_call start_theme 1200 in
  let mid := [open_hand_call start_theme 1100] in
  last_emit id (step constructor c1) = Some (now c1)
  /\ now c1 < now c2
  /\ Forall (fun c => shows_hand id c /\ now c1 <= now c < now c2) mid
  /\ last_emit id (step (run mid (step constructor c1)) c2) = Some (now c2)
  /\ 180 < now c2 - now c1.
Proof.
  intros id c1 c2 mid.
  pose proof (open_call_emit start_theme 1000 constructor) as E1.
  pose proof (open_call_emit start_theme 1100 (step constructor c1)) as Em.
  pose proof (open_call_emit start_theme 1200 (run mid (step constructor c1)))
    as E2.
  cbv zeta in E1, Em, E2. fold id c1 in E1, Em. fold id c2 in E2.
  assert (last_emit id (step constructor c1) = Some (now c1)) as W1.
  { rewrite E1.
    change (last_emit id constructor) with (@None R). cbv iota.
    replace (Rgtb (1000 - 0) 180) with true
      by (symmetry; apply Rgtb_true; lra).
    reflexivity. }
  assert (now c1 < now c2) as W2 by (cbn [c1 c2 open_hand_call now]; lra).
  assert (Forall (fun c => shows_hand id c /\ now c1 <= now c < now c2) mid)
    as W3.
  { constructor; [| constructor]. split; [left; reflexivity |].
    cbn [c1 c2 open_hand_call now]. lra. }
  assert (last_emit id (run mid (step constructor c1)) = Some 1000) as Wm.
  { unfold mid, run. cbn [fold_left]. rewrite Em, W1.
    cbn [c1 open_hand_call now]. cbv iota.
    replace (Rgtb (1100 - 1000) 180) with false
      by (symmetry; apply Rgtb_false; lra).
    reflexivity. }
  assert (last_emit id (step (run mid (step constructor c1)) c2)
          = Some (now c2)) as W4.
  { rewrite E2, Wm. cbv iota.
    replace (Rgtb (1200 - 1000) 180) with true
      by (symmetry; apply Rgtb_true; lra).
    reflexivity. }
  split; [exact W1 |]. split; [exact W2 |]. split; [exact W3 |].
  split; [exact W4 |].
  exact (ring_emission_spacing id constructor c1 mid c2 W1 W2 W3 W4).
Defined.

End Rings.
